(** * hcstool: the VM creation transaction against the Host Compute Service

    A shallow embedding of the Go sources [hcsapi.go] (the thin wrappers
    around computecore.dll, the text of an [HcsError]) and of the VM
    lifecycle file (spec structs, [extractVHDPaths], [makePathsAbsolute],
    [injectGPU], [CreateAndStartVM], [terminateAndClose], [revokeAll]; then
    [ListVMs], [InspectVM], [StopVM], [KillVM], the spec builder of
    quick-create mode and the commands).

    Modelling decisions.
    - Go maps are [gmap]s with [string] keys; a nil map is the empty map
      (both iterate as empty and both are left out by [omitempty]).
      Pointers that may be nil are [option]s.  Documents come out of
      [json.Unmarshal] or out of struct literals, so no two map entries
      alias one pointee and a pointee is represented by its value.
    - The iteration order of [range] over a Go map is unspecified.  It is a
      parameter, [RangeOrder]: any enumeration that is a permutation of the
      entries.  One order serves all loops of a run: what
      [makePathsAbsolute] returns when it succeeds does not depend on it,
      and the transaction walks the paths once, in [extractVHDPaths].
    - Everything outside the process (computecore.dll, SetupAPI, the GUID
      generator) is a [Host]: each entry point answers as a function of the
      history of the run so far, so any fault-injection schedule is a host.
      A run produces the chronological [Trace] of the calls it made and of
      the lines it wrote: [fmt.Fprintf(os.Stderr, ...)] with its format
      string and arguments, [fmt.Println] with its line.
    - Go's standard library ([encoding/json], [path/filepath]) is a
      [Library] of pure functions.
    - Functions return what the Go functions return: a value next to an
      [option error], [None] for [nil].
    - [uintptr] values are [Z]; the conversion [uint32(hr)] is written out. *)

From Stdlib Require Import ZArith Ascii String Lia.
From stdpp Require Import base tactics option list gmap strings fin_maps pretty.

Set Warnings "-register-all".

Local Open Scope Z_scope.

(** ** Data model: the HCS v2 JSON spec structs *)

(** [json.RawMessage]: bytes passed through untouched. *)
Definition RawMessage : Type := string.

Record SchemaVersion : Type := mkSchemaVersion {
  Major : Z;
  Minor : Z
}.

Record ScsiAttachment : Type := mkScsiAttachment {
  Type_ : string;
  Path : string
}.

Record ScsiController : Type := mkScsiController {
  Attachments : gmap string (option ScsiAttachment)
}.

Record VirtualPciDev : Type := mkVirtualPciDev {
  DeviceInstancePath : string;
  VirtualFunction : Z
}.

Record DevicesSpec : Type := mkDevicesSpec {
  Scsi : gmap string (option ScsiController);
  VirtualPci : gmap string (option VirtualPciDev);
  EnhancedModeVideo : RawMessage;
  GuestInterface : RawMessage;
  Keyboard : RawMessage;
  Mouse : RawMessage;
  VideoMonitor : RawMessage
}.

Record VirtualMachineSpec : Type := mkVirtualMachineSpec {
  StopOnReset : bool;
  Chipset : RawMessage;
  ComputeTopology : RawMessage;
  Devices : option DevicesSpec
}.

Record ComputeSystemSpec : Type := mkComputeSystemSpec {
  Owner : string;
  SchemaVersion_ : option SchemaVersion;
  ShouldTerminateOnLastHandleClosed : bool;
  VirtualMachine : option VirtualMachineSpec
}.

(** [GpuDevice]: a GPU suitable for GPU-PV passthrough. *)
Record GpuDevice : Type := mkGpuDevice {
  Name : string;
  InstanceID : string
}.

(** [windows.GUID]; [Data4] is the [[8]byte] array, read with default 0. *)
Record GUID : Type := mkGUID {
  Data1 : Z;
  Data2 : Z;
  Data3 : Z;
  Data4 : list Z
}.

(** Zero values of the structs, as [&VirtualMachineSpec{}] and
    [&DevicesSpec{}] build them. *)
Definition zeroVirtualMachineSpec : VirtualMachineSpec :=
  mkVirtualMachineSpec false "" "" None.

Definition zeroDevicesSpec : DevicesSpec :=
  mkDevicesSpec ∅ ∅ "" "" "" "" "".

(** ** Errors *)

(** Go [error] values.  [HcsError] is the struct of hcsapi.go;
    [Errorf fmt args cause] is [fmt.Errorf(fmt, args...)] with [cause] the
    operand of its [%w] verb, when it has one; [ExternalError] is an error
    made outside this repository (encoding/json, path/filepath, syscall). *)
Inductive error : Type :=
| HcsError (Op : string) (HR : Z) (ResultJSON : string)
| Errorf (format : string) (args : list string) (cause : option error)
| ExternalError (msg : string).

(** ** Events and traces *)

Inductive Event : Type :=
| EvCreateOperation (r1 : Z)
| EvCloseOperation (op : Z)
| EvWaitForOperationResult (op timeoutMs hr : Z) (resultPtr : option string)
| EvCreateComputeSystem (id configuration : string) (op hr sys : Z)
| EvCloseComputeSystem (sys : Z)
| EvStartComputeSystem (sys op hr : Z)
| EvTerminateComputeSystem (sys op hr : Z)
| EvGrantVmAccess (vmID filePath : string) (hr : Z)
| EvRevokeVmAccess (vmID filePath : string) (hr : Z)
| EvEnumerateGPUs (gpus : list GpuDevice) (err : option error)
| EvGenerateGUID (guid : GUID) (err : option error)
| EvStderr (format : string) (args : list string)
| EvStdout (line : string).

Definition Trace : Type := list Event.

(** The world outside the process.  Every entry point sees the history. *)
Record Host : Type := mkHost {
  HcsCreateOperation : Trace → Z;
  HcsWaitForOperationResult : Trace → Z → Z → Z * option string;
  HcsCreateComputeSystem : Trace → string → string → Z → Z * Z;
  HcsStartComputeSystem : Trace → Z → Z → Z;
  HcsTerminateComputeSystem : Trace → Z → Z → Z;
  HcsGrantVmAccess : Trace → string → string → Z;
  HcsRevokeVmAccess : Trace → string → string → Z;
  SetupDiDisplayAdapters : Trace → list GpuDevice * option error;
  CoCreateGuid : Trace → GUID * option error
}.

(** The pure part of Go's standard library the transaction calls. *)
Record Library : Type := mkLibrary {
  json_Unmarshal : string → ComputeSystemSpec * option error;
  json_Marshal : ComputeSystemSpec → string * option error;
  filepath_Abs : string → string * option error;
  filepath_IsAbs : string → bool
}.

(** The order in which [range] visits a map. *)
Record RangeOrder : Type := mkRangeOrder {
  range : ∀ A : Type, gmap string A → list (string * A);
  range_perm : ∀ (A : Type) (m : gmap string A), range A m ≡ₚ map_to_list m
}.

Arguments range _ {A} _.

Definition keyOrder : RangeOrder :=
  mkRangeOrder (λ A m, map_to_list m) (λ A m, reflexivity _).

(** ** The run monad: a computation reads the history and extends it *)

Definition M (A : Type) : Type := Trace → A * Trace.

Definition ret {A} (a : A) : M A := λ tr, (a, tr).

Definition bind {A B} (c : M A) (k : A → M B) : M B :=
  λ tr, let (a, tr1) := c tr in k a tr1.

Definition emit (e : Event) : M unit := λ tr, (tt, tr ++ [e]).

(** A call into the host: the answer depends on the history and is logged. *)
Definition ask {R} (answer : Trace → R) (ev : R → Event) : M R :=
  λ tr, let r := answer tr in (r, tr ++ [ev r]).

Declare Scope run_scope.
Delimit Scope run_scope with run.
Notation "'do' x <- c ; k" := (bind c (λ x, k))
  (at level 10, x name, c at level 100, k at level 200) : run_scope.
Notation "'do' ' p <- c ; k" := (bind c (λ x, match x with p => k end))
  (at level 10, p pattern, c at level 100, k at level 200) : run_scope.
Notation "c ;; k" := (bind c (λ _, k))
  (at level 100, k at level 200, right associativity) : run_scope.
Local Open Scope run_scope.

(** ** hcsapi.go *)

Definition infinite : Z := 0xFFFFFFFF.

Definition uint32 (x : Z) : Z := x mod 2 ^ 32.

(** [hrOK]: S_OK or S_FALSE. *)
Definition hrOK (hr : Z) : bool := (hr =? 0) || (hr =? 1).

Fixpoint hasNUL (s : string) : bool :=
  match s with
  | EmptyString => false
  | String c s' => Ascii.eqb c "000"%char || hasNUL s'
  end.

Definition EINVAL : error := ExternalError "invalid argument".

(** [windows.UTF16PtrFromString]: fails on a string with a NUL in it. *)
Definition UTF16PtrFromString (s : string) : string * option error :=
  if hasNUL s then ("", Some EINVAL) else (s, None).

(** ** Library functions on strings *)

(** [strings.Trim(s, cutset)]: all leading and trailing characters of [s]
    that occur in [cutset] removed. *)
Fixpoint inCutset (c : ascii) (cutset : string) : bool :=
  match cutset with
  | EmptyString => false
  | String d rest => Ascii.eqb c d || inCutset c rest
  end.

Fixpoint TrimLeft (s cutset : string) : string :=
  match s with
  | EmptyString => EmptyString
  | String c s' => if inCutset c cutset then TrimLeft s' cutset else s
  end.

Fixpoint TrimRight (s cutset : string) : string :=
  match s with
  | EmptyString => EmptyString
  | String c s' =>
    match TrimRight s' cutset with
    | EmptyString => if inCutset c cutset then EmptyString else String c EmptyString
    | t => String c t
    end
  end.

Definition Trim (s cutset : string) : string :=
  TrimRight (TrimLeft s cutset) cutset.

(** [windows.GUID.String]: the registry form
    [{XXXXXXXX-XXXX-XXXX-XXXX-XXXXXXXXXXXX}] that StringFromGUID2 writes, in
    upper-case hexadecimal.  [hexN n v] is the [n] low hexadecimal digits
    of [v], most significant first. *)
Definition hexDigit (d : Z) : ascii :=
  nth (Z.to_nat d)
      ["0"; "1"; "2"; "3"; "4"; "5"; "6"; "7"; "8"; "9";
       "A"; "B"; "C"; "D"; "E"; "F"]%char "0"%char.

Fixpoint hexN (digits : nat) (v : Z) : string :=
  match digits with
  | O => EmptyString
  | S n => String (hexDigit ((v / 16 ^ Z.of_nat n) mod 16)) (hexN n v)
  end.

Definition byteAt (g : GUID) (i : nat) : Z := nth i (Data4 g) 0.

Definition GUID_String (g : GUID) : string :=
  "{" +:+ hexN 8 (Data1 g) +:+ "-" +:+ hexN 4 (Data2 g) +:+ "-" +:+
  hexN 4 (Data3 g) +:+ "-" +:+ hexN 2 (byteAt g 0) +:+ hexN 2 (byteAt g 1) +:+
  "-" +:+ hexN 2 (byteAt g 2) +:+ hexN 2 (byteAt g 3) +:+ hexN 2 (byteAt g 4) +:+
  hexN 2 (byteAt g 5) +:+ hexN 2 (byteAt g 6) +:+ hexN 2 (byteAt g 7) +:+ "}".

Section Run.

Context (host : Host) (lib : Library) (order : RangeOrder).

Definition createOperation : M (Z * option error) :=
  do r1 <- ask (HcsCreateOperation host) EvCreateOperation;
  if r1 =? 0
  then ret (0, Some (Errorf "HcsCreateOperation returned NULL" [] None))
  else ret (r1, None).

Definition closeOperation (op : Z) : M unit :=
  if op =? 0 then ret tt else emit (EvCloseOperation op).

Definition waitForResult (op timeoutMs : Z) : M (string * option error) :=
  do '(hr, resultPtr) <-
    ask (λ tr, HcsWaitForOperationResult host tr op timeoutMs)
        (λ r, EvWaitForOperationResult op timeoutMs (fst r) (snd r));
  let resultJSON := default "" resultPtr in
  if hrOK hr
  then ret (resultJSON, None)
  else ret (resultJSON,
            Some (HcsError "HcsWaitForOperationResult" (uint32 hr) resultJSON)).

Definition createComputeSystem (id configJSON : string) (op : Z)
  : M (Z * option error) :=
  match UTF16PtrFromString id with
  | (_, Some err) => ret (0, Some (Errorf "invalid system id: %w" [] (Some err)))
  | (idPtr, None) =>
    match UTF16PtrFromString configJSON with
    | (_, Some err) =>
        ret (0, Some (Errorf "invalid config JSON: %w" [] (Some err)))
    | (configPtr, None) =>
      do '(hr, sys) <-
        ask (λ tr, HcsCreateComputeSystem host tr idPtr configPtr op)
            (λ r, EvCreateComputeSystem idPtr configPtr op (fst r) (snd r));
      if hrOK hr
      then ret (sys, None)
      else ret (0, Some (HcsError "HcsCreateComputeSystem" (uint32 hr) ""))
    end
  end.

Definition closeComputeSystem (sys : Z) : M unit :=
  if sys =? 0 then ret tt else emit (EvCloseComputeSystem sys).

Definition startComputeSystem (sys op : Z) : M (option error) :=
  do hr <- ask (λ tr, HcsStartComputeSystem host tr sys op)
               (EvStartComputeSystem sys op);
  if hrOK hr then ret None
  else ret (Some (HcsError "HcsStartComputeSystem" (uint32 hr) "")).

Definition terminateComputeSystem (sys op : Z) : M (option error) :=
  do hr <- ask (λ tr, HcsTerminateComputeSystem host tr sys op)
               (EvTerminateComputeSystem sys op);
  if hrOK hr then ret None
  else ret (Some (HcsError "HcsTerminateComputeSystem" (uint32 hr) "")).

Definition grantVmAccess (vmID filePath : string) : M (option error) :=
  match UTF16PtrFromString vmID with
  | (_, Some err) => ret (Some (Errorf "invalid VM ID: %w" [] (Some err)))
  | (vmIDPtr, None) =>
    match UTF16PtrFromString filePath with
    | (_, Some err) => ret (Some (Errorf "invalid file path: %w" [] (Some err)))
    | (filePathPtr, None) =>
      do hr <- ask (λ tr, HcsGrantVmAccess host tr vmIDPtr filePathPtr)
                   (EvGrantVmAccess vmIDPtr filePathPtr);
      if hrOK hr then ret None
      else ret (Some (HcsError ("HcsGrantVmAccess(" +:+ filePath +:+ ")")
                               (uint32 hr) ""))
    end
  end.

Definition revokeVmAccess (vmID filePath : string) : M (option error) :=
  match UTF16PtrFromString vmID with
  | (_, Some err) => ret (Some err)
  | (vmIDPtr, None) =>
    match UTF16PtrFromString filePath with
    | (_, Some err) => ret (Some err)
    | (filePathPtr, None) =>
      do hr <- ask (λ tr, HcsRevokeVmAccess host tr vmIDPtr filePathPtr)
                   (EvRevokeVmAccess vmIDPtr filePathPtr);
      if hrOK hr then ret None
      else ret (Some (HcsError ("HcsRevokeVmAccess(" +:+ filePath +:+ ")")
                               (uint32 hr) ""))
    end
  end.

(** ** The spec transformer *)

(** [extractVHDPaths]: the non-empty paths of the non-nil attachments of the
    non-nil controllers, in the order [range] visits them.  The Go loops
    [append] to a slice; [flat_map] is that concatenation. *)
Definition attachmentPaths (atts : list (string * option ScsiAttachment))
  : list string :=
  flat_map (λ e, match snd e with
                 | Some att => if String.eqb (Path att) "" then [] else [Path att]
                 | None => []
                 end) atts.

Definition controllerPaths (ctrls : list (string * option ScsiController))
  : list string :=
  flat_map (λ e, match snd e with
                 | Some ctrl => attachmentPaths (range order (Attachments ctrl))
                 | None => []
                 end) ctrls.

Definition extractVHDPaths (spec : ComputeSystemSpec) : list string :=
  match VirtualMachine spec with
  | None => []
  | Some vm =>
    match Devices vm with
    | None => []
    | Some dev => controllerPaths (range order (Scsi dev))
    end
  end.

(** [makePathsAbsolute] rewrites the document in place and stops at the
    first path that does not resolve; the document it returns next to the
    error is the partially rewritten one. *)
Definition resolveAttachment (att : option ScsiAttachment)
  : option ScsiAttachment * option error :=
  match att with
  | Some a =>
    if String.eqb (Path a) "" then (att, None)
    else match filepath_Abs lib (Path a) with
         | (_, Some err) =>
             (att, Some (Errorf "cannot resolve path %q: %w" [Path a] (Some err)))
         | (abs, None) => (Some (mkScsiAttachment (Type_ a) abs), None)
         end
  | None => (None, None)
  end.

Fixpoint resolveAttachments (entries : list (string * option ScsiAttachment))
    (atts : gmap string (option ScsiAttachment))
  : gmap string (option ScsiAttachment) * option error :=
  match entries with
  | [] => (atts, None)
  | (slot, att) :: rest =>
    match resolveAttachment att with
    | (att', None) => resolveAttachments rest (<[slot := att']> atts)
    | (_, Some err) => (atts, Some err)
    end
  end.

Fixpoint resolveControllers (entries : list (string * option ScsiController))
    (scsi : gmap string (option ScsiController))
  : gmap string (option ScsiController) * option error :=
  match entries with
  | [] => (scsi, None)
  | (_, None) :: rest => resolveControllers rest scsi
  | (name, Some ctrl) :: rest =>
    match resolveAttachments (range order (Attachments ctrl)) (Attachments ctrl) with
    | (atts', None) =>
        resolveControllers rest (<[name := Some (mkScsiController atts')]> scsi)
    | (atts', Some err) =>
        (<[name := Some (mkScsiController atts')]> scsi, Some err)
    end
  end.

Definition withScsi (dev : DevicesSpec) (scsi : gmap string (option ScsiController))
  : DevicesSpec :=
  mkDevicesSpec scsi (VirtualPci dev) (EnhancedModeVideo dev) (GuestInterface dev)
                (Keyboard dev) (Mouse dev) (VideoMonitor dev).

Definition withVirtualPci (dev : DevicesSpec)
    (pci : gmap string (option VirtualPciDev)) : DevicesSpec :=
  mkDevicesSpec (Scsi dev) pci (EnhancedModeVideo dev) (GuestInterface dev)
                (Keyboard dev) (Mouse dev) (VideoMonitor dev).

Definition withDevices (vm : VirtualMachineSpec) (dev : DevicesSpec)
  : VirtualMachineSpec :=
  mkVirtualMachineSpec (StopOnReset vm) (Chipset vm) (ComputeTopology vm) (Some dev).

Definition withVirtualMachine (spec : ComputeSystemSpec) (vm : VirtualMachineSpec)
  : ComputeSystemSpec :=
  mkComputeSystemSpec (Owner spec) (SchemaVersion_ spec)
                      (ShouldTerminateOnLastHandleClosed spec) (Some vm).

Definition withOwner (spec : ComputeSystemSpec) (owner : string)
  : ComputeSystemSpec :=
  mkComputeSystemSpec owner (SchemaVersion_ spec)
                      (ShouldTerminateOnLastHandleClosed spec) (VirtualMachine spec).

(** "Set owner/name". *)
Definition defaultOwner (spec : ComputeSystemSpec) : ComputeSystemSpec :=
  if String.eqb (Owner spec) "" then withOwner spec "hcstool" else spec.

Definition makePathsAbsolute (spec : ComputeSystemSpec)
  : ComputeSystemSpec * option error :=
  match VirtualMachine spec with
  | None => (spec, None)
  | Some vm =>
    match Devices vm with
    | None => (spec, None)
    | Some dev =>
      let (scsi', err) := resolveControllers (range order (Scsi dev)) (Scsi dev) in
      (withVirtualMachine spec (withDevices vm (withScsi dev scsi')), err)
    end
  end.

(** [injectGPU]: [fmt.Sprintf("gpu-%d", i)] is the decimal numeral of [i]. *)
Definition gpuKey (i : nat) : string := "gpu-" +:+ pretty i.

Definition autoAssignPartition : Z := 0xFFFF.

Fixpoint injectLoop (i : nat) (gpus : list GpuDevice)
    (pciDevs : gmap string (option VirtualPciDev))
  : gmap string (option VirtualPciDev) :=
  match gpus with
  | [] => pciDevs
  | gpu :: rest =>
      injectLoop (S i) rest
        (<[gpuKey i := Some (mkVirtualPciDev (InstanceID gpu) autoAssignPartition)]>
           pciDevs)
  end.

Definition injectGPU (spec : ComputeSystemSpec) (gpus : list GpuDevice)
  : ComputeSystemSpec :=
  let vm := default zeroVirtualMachineSpec (VirtualMachine spec) in
  let dev := default zeroDevicesSpec (Devices vm) in
  let pciDevs := injectLoop 0 gpus ∅ in
  withVirtualMachine spec (withDevices vm (withVirtualPci dev pciDevs)).

(** ** The creation transaction *)

(** [enumerateGPUs] walks the display adapters with SetupAPI; the walk is
    the host's, its result is what the transaction sees. *)
Definition enumerateGPUs : M (list GpuDevice * option error) :=
  ask (SetupDiDisplayAdapters host) (λ r, EvEnumerateGPUs (fst r) (snd r)).

Definition GenerateGUID : M (GUID * option error) :=
  ask (CoCreateGuid host) (λ r, EvGenerateGUID (fst r) (snd r)).

Fixpoint revokeAll (vmID : string) (paths : list string) : M unit :=
  match paths with
  | [] => ret tt
  | p :: rest => revokeVmAccess vmID p ;; revokeAll vmID rest
  end.

Definition terminateAndClose (sys : Z) : M unit :=
  do '(op, err) <- createOperation;
  match err with
  | Some _ => closeComputeSystem sys
  | None =>
      terminateComputeSystem sys op ;;
      waitForResult op 5000 ;;
      closeOperation op ;;
      closeComputeSystem sys
  end.

(** The grant loop of [CreateAndStartVM]; its cleanup loop over
    [grantedPaths] is the loop of [revokeAll]. *)
Fixpoint grantLoop (vmID : string) (vhdPaths grantedPaths : list string)
  : M (list string * option error) :=
  match vhdPaths with
  | [] => ret (grantedPaths, None)
  | p :: rest =>
      emit (EvStderr "  Granting VM access to %s\n" [p]) ;;
      do err <- grantVmAccess vmID p;
      match err with
      | Some e =>
          revokeAll vmID grantedPaths ;;
          ret (grantedPaths, Some (Errorf "grant VM access: %w" [] (Some e)))
      | None => grantLoop vmID rest (grantedPaths ++ [p])
      end
  end.

Fixpoint logGPUs (gpus : list GpuDevice) : M unit :=
  match gpus with
  | [] => ret tt
  | g :: rest => emit (EvStderr "  %s (%s)\n" [Name g; InstanceID g]) ;; logGPUs rest
  end.

(** "Inject GPU if requested". *)
Definition injectIfRequested (spec : ComputeSystemSpec) (addGPU : bool)
  : M (ComputeSystemSpec * option error) :=
  if addGPU then
    do '(gpus, err) <- enumerateGPUs;
    match err with
    | Some e => ret (spec, Some (Errorf "GPU enumeration failed: %w" [] (Some e)))
    | None =>
      if (length gpus =? 0)%nat
      then ret (spec, Some (Errorf "no GPUs found for GPU-PV" [] None))
      else
        emit (EvStderr "Found %d GPU(s) for GPU-PV:\n" [pretty (length gpus)]) ;;
        logGPUs gpus ;;
        ret (injectGPU spec gpus, None)
    end
  else ret (spec, None).

(** "Start the compute system" and the success exit. *)
Definition startPhase (vmID : string) (sys : Z) (grantedPaths : list string)
  : M (option error) :=
  do '(op2, err) <- createOperation;
  match err with
  | Some e => terminateAndClose sys ;; revokeAll vmID grantedPaths ;; ret (Some e)
  | None =>
    do err <- startComputeSystem sys op2;
    match err with
    | Some e =>
        closeOperation op2 ;;
        terminateAndClose sys ;;
        revokeAll vmID grantedPaths ;;
        ret (Some e)
    | None =>
      do '(_, waitErr) <- waitForResult op2 infinite;
      closeOperation op2 ;;
      match waitErr with
      | Some we =>
          terminateAndClose sys ;;
          revokeAll vmID grantedPaths ;;
          ret (Some (Errorf "start compute system: %w" [] (Some we)))
      | None =>
          closeComputeSystem sys ;;
          emit (EvStdout vmID) ;;
          emit (EvStderr "VM started successfully.\n" []) ;;
          ret None
      end
    end
  end.

(** "Create the compute system". *)
Definition createPhase (vmID finalJSON : string) (grantedPaths : list string)
  : M (option error) :=
  do '(op, err) <- createOperation;
  match err with
  | Some e => revokeAll vmID grantedPaths ;; ret (Some e)
  | None =>
    do '(sys, err) <- createComputeSystem vmID finalJSON op;
    do '(resultJSON, waitErr) <- waitForResult op infinite;
    closeOperation op ;;
    match err with
    | Some e => revokeAll vmID grantedPaths ;; ret (Some e)
    | None =>
      match waitErr with
      | Some we =>
          revokeAll vmID grantedPaths ;;
          (if String.eqb resultJSON "" then ret tt
           else emit (EvStderr "Create result: %s\n" [resultJSON])) ;;
          ret (Some (Errorf "create compute system: %w" [] (Some we)))
      | None => startPhase vmID sys grantedPaths
      end
    end
  end.

Definition vmIDOf (guid : GUID) : string := Trim (GUID_String guid) "{}".

Definition creatingEvent (name vmID : string) : Event :=
  if String.eqb name ""
  then EvStderr "Creating VM (ID: %s)...\n" [vmID]
  else EvStderr "Creating VM %q (ID: %s)...\n" [name; vmID].

Definition CreateAndStartVM (specJSON name : string) (addGPU : bool)
  : M (option error) :=
  match json_Unmarshal lib specJSON with
  | (_, Some err) => ret (Some (Errorf "invalid JSON spec: %w" [] (Some err)))
  | (spec, None) =>
    let spec := defaultOwner spec in
    match makePathsAbsolute spec with
    | (_, Some err) => ret (Some err)
    | (spec, None) =>
      do '(spec, err) <- injectIfRequested spec addGPU;
      match err with
      | Some e => ret (Some e)
      | None =>
        match json_Marshal lib spec with
        | (_, Some err) =>
            ret (Some (Errorf "failed to serialize spec: %w" [] (Some err)))
        | (finalJSON, None) =>
          do '(guid, err) <- GenerateGUID;
          match err with
          | Some e => ret (Some (Errorf "GenerateGUID failed: %w" [] (Some e)))
          | None =>
            let vmID := vmIDOf guid in
            emit (creatingEvent name vmID) ;;
            let vhdPaths := extractVHDPaths spec in
            do '(grantedPaths, err) <- grantLoop vmID vhdPaths [];
            match err with
            | Some e => ret (Some e)
            | None => createPhase vmID finalJSON grantedPaths
            end
          end
        end
      end
    end
  end.

End Run.

(** ** A reference library and reference hosts

    The theorems below hold for every [Library], [Host] and [RangeOrder].
    This part builds concrete ones to run the transaction on. *)

(** A reference [path/filepath] for Windows.

    [IsAbs] is Go's function, after its source in the current releases
    (path_windows.go): a path is absolute when it has a volume name and
    either starts with two separators (UNC and device paths) or a separator
    follows the volume name.

    On Windows [filepath.Abs] is GetFullPathName followed by [Clean].  The
    reference answers for the paths on which the two are lexical and the same
    in every version of Windows and of Go: a drive letter, a colon and a
    rooted path, or a path with no volume name, taken relative to the
    working directory; separators become backslashes, empty and [.] elements
    are dropped, a [..] element drops the element before it (at the root it
    is dropped itself).  Every other element has to be plain: printable
    ASCII with no space, colon, wildcard or quoting character, not ending in
    a dot (Windows trims it), not starting like the name of a DOS device
    (Windows maps those to the device).  For every other path the reference
    has no answer: it returns the error [unsupported], which Go does not;
    no statement below is about such a path.  Lengths are not bounded:
    the reference has no MAX_PATH. *)
Module WinPath.

Definition isSlash (c : ascii) : bool :=
  Ascii.eqb c "\"%char || Ascii.eqb c "/"%char.

Definition isLetter (c : ascii) : bool :=
  let n := nat_of_ascii c in
  ((65 <=? n)%nat && (n <=? 90)%nat) || ((97 <=? n)%nat && (n <=? 122)%nat).

Definition toUpper (c : ascii) : ascii :=
  let n := nat_of_ascii c in
  if (97 <=? n)%nat && (n <=? 122)%nat then ascii_of_nat (n - 32) else c.

Fixpoint dropChars (n : nat) (s : string) : string :=
  match n, s with
  | S n', String _ s' => dropChars n' s'
  | _, _ => s
  end.

Definition rooted (s : string) : bool :=
  match s with
  | String c _ => isSlash c
  | EmptyString => false
  end.

(** [pathHasPrefixFold]: [s] begins with [prefix], ignoring case and taking
    all separators as the same; if [s] is longer, a separator follows the
    prefix. *)
Fixpoint pathHasPrefixFold (s prefix : string) : bool :=
  match prefix, s with
  | EmptyString, EmptyString => true
  | EmptyString, String c _ => isSlash c
  | String _ _, EmptyString => false
  | String p prefix', String c s' =>
      (if isSlash p then isSlash c else Ascii.eqb (toUpper p) (toUpper c))
      && pathHasPrefixFold s' prefix'
  end.

(** The index, counted from [i], of the [missing]-th separator of [s], or of
    the end of [s]. *)
Fixpoint separatorFrom (s : string) (i missing : nat) : nat :=
  match s with
  | EmptyString => i
  | String c s' =>
    if isSlash c
    then match missing with
         | S (S m) => separatorFrom s' (S i) (S m)
         | _ => i
         end
    else separatorFrom s' (S i) missing
  end.

(** [uncLen]: the length of the volume prefix of a UNC path whose host
    starts at [prefixLen]. *)
Definition uncLen (path : string) (prefixLen : nat) : nat :=
  if (String.length path <? prefixLen)%nat then String.length path
  else separatorFrom (dropChars prefixLen path) prefixLen 2.

Definition volumeNameLen (path : string) : nat :=
  match path with
  | String _ (String ":" _) => 2
  | EmptyString => 0
  | String c rest =>
    if negb (isSlash c) then 0
    else if pathHasPrefixFold path "\\.\UNC" then uncLen path 8
    else if pathHasPrefixFold path "\\." || pathHasPrefixFold path "\\?"
            || pathHasPrefixFold path "\??"
    then if (String.length path =? 3)%nat then 3
         else separatorFrom (dropChars 4 path) 4 1
    else if rooted rest then uncLen path 2
    else 0
  end.

Definition IsAbs (path : string) : bool :=
  let l := volumeNameLen path in
  if (l =? 0)%nat then false
  else if match path with
          | String a (String b _) => isSlash a && isSlash b
          | _ => false
          end
       then true
       else rooted (dropChars l path).

(** The elements between separators; never the empty list. *)
Fixpoint splitPath (s : string) : list string :=
  match s with
  | EmptyString => [EmptyString]
  | String c s' =>
    if isSlash c then EmptyString :: splitPath s'
    else match splitPath s' with
         | [] => [String c EmptyString]
         | x :: xs => String c x :: xs
         end
  end.

(** [stack] holds the elements kept so far, last one first. *)
Fixpoint cleanElements (stack elements : list string) : list string :=
  match elements with
  | [] => rev stack
  | e :: rest =>
    if String.eqb e "" || String.eqb e "." then cleanElements stack rest
    else if String.eqb e ".." then cleanElements (tail stack) rest
    else cleanElements (e :: stack) rest
  end.

Fixpoint joinElements (elements : list string) : string :=
  match elements with
  | [] => EmptyString
  | [e] => e
  | e :: rest => e +:+ String "\"%char (joinElements rest)
  end.

Definition render (drive : ascii) (elements : list string) : string :=
  String drive (String ":"%char (String "\"%char (joinElements elements))).

(** A drive letter and a colon, and what follows them. *)
Definition splitDrive (s : string) : option (ascii * string) :=
  match s with
  | String d (String ":"%char rest) => if isLetter d then Some (d, rest) else None
  | _ => None
  end.

Definition isUNC (s : string) : bool :=
  match s with
  | String c (String d _) => isSlash c && isSlash d
  | _ => false
  end.

(** Printable ASCII but the space, the separators, the colon and the
    wildcard and quoting characters (codes 34, 42, 58, 60, 62, 63, 124). *)
Definition plainChar (c : ascii) : bool :=
  let n := nat_of_ascii c in
  (33 <=? n)%nat && (n <=? 126)%nat && negb (isSlash c) &&
  negb (existsb (Nat.eqb n) [34; 42; 58; 60; 62; 63; 124]%nat).

Fixpoint allPlain (s : string) : bool :=
  match s with
  | EmptyString => true
  | String c s' => plainChar c && allPlain s'
  end.

Fixpoint endsWithDot (s : string) : bool :=
  match s with
  | EmptyString => false
  | String c EmptyString => Ascii.eqb c "."%char
  | String _ s' => endsWithDot s'
  end.

(** The names of the DOS devices start with these letters. *)
Definition deviceLike (e : string) : bool :=
  match e with
  | String a (String b (String c _)) =>
      existsb (String.eqb (String (toUpper a) (String (toUpper b)
                             (String (toUpper c) EmptyString))))
              ["CON"; "PRN"; "AUX"; "NUL"; "COM"; "LPT"]
  | _ => false
  end.

Definition plainElement (e : string) : bool :=
  negb (String.eqb e "") && allPlain e && negb (endsWithDot e) && negb (deviceLike e).

Definition supportedElement (e : string) : bool :=
  String.eqb e "" || String.eqb e "." || String.eqb e ".." || plainElement e.

Definition supported (elements : list string) : bool := forallb supportedElement elements.

Definition unsupported : error := ExternalError "path form outside the reference".

(** [cwd] is what [os.Getwd] answers. *)
Definition Abs (cwd path : string) : string * option error :=
  if hasNUL path then ("", Some EINVAL)
  else match splitDrive path with
       | Some (d, rest) =>
         if rooted rest && supported (splitPath rest)
         then (render d (cleanElements [] (splitPath rest)), None)
         else ("", Some unsupported)
       | None =>
         if isUNC path || negb (supported (splitPath path))
         then ("", Some unsupported)
         else match splitDrive cwd with
              | Some (d, wd) =>
                if negb (rooted wd) || negb (supported (splitPath wd))
                then ("", Some unsupported)
                else if rooted path
                     then (render d (cleanElements [] (splitPath path)), None)
                     else (render d (cleanElements [] (splitPath wd ++ splitPath path)),
                           None)
              | None => ("", Some unsupported)
              end
       end.

End WinPath.

(** A stand-in for [encoding/json] on the example documents: decoding looks
    the text up in a table of known documents, encoding writes the owner and
    the SCSI paths in key order. *)
Definition zeroComputeSystemSpec : ComputeSystemSpec :=
  mkComputeSystemSpec "" None false None.

Fixpoint tableUnmarshal (table : list (string * ComputeSystemSpec)) (text : string)
  : ComputeSystemSpec * option error :=
  match table with
  | [] => (zeroComputeSystemSpec, Some (ExternalError "invalid character"))
  | (t, d) :: rest => if String.eqb t text then (d, None) else tableUnmarshal rest text
  end.

Definition exampleMarshal (spec : ComputeSystemSpec) : string * option error :=
  ("{Owner:" +:+ Owner spec +:+ ",Scsi:[" +:+
   foldr (λ p acc, p +:+ ";" +:+ acc) "" (extractVHDPaths keyOrder spec) +:+ "]}",
   None).

Definition exampleLibrary (table : list (string * ComputeSystemSpec)) (cwd : string)
  : Library :=
  mkLibrary (tableUnmarshal table) exampleMarshal (WinPath.Abs cwd) WinPath.IsAbs.

(** Example documents. *)
Definition diskAttachment (path : string) : option ScsiAttachment :=
  Some (mkScsiAttachment "VirtualDisk" path).

Definition docWithDisks (disks : list (string * string)) : ComputeSystemSpec :=
  mkComputeSystemSpec "" (Some (mkSchemaVersion 2 1)) false
    (Some (mkVirtualMachineSpec true "" ""
       (Some (withScsi zeroDevicesSpec
          {[ "Primary" :=
               Some (mkScsiController
                       (list_to_map (prod_map id diskAttachment <$> disks))) ]})))).

Definition threeDisks : ComputeSystemSpec :=
  docWithDisks [("0", "C:\vm\boot.vhdx"); ("1", "data.vhdx"); ("2", "D:\pool\scratch.vhdx")].

Definition uncleanDisk : ComputeSystemSpec :=
  docWithDisks [("0", "C:\vms\..\disk.vhdx")].

Definition emptyPathDisk : ComputeSystemSpec :=
  docWithDisks [("0", "")].

Definition noMachine : ComputeSystemSpec :=
  mkComputeSystemSpec "lab" (Some (mkSchemaVersion 2 1)) false None.

Definition exampleTable : list (string * ComputeSystemSpec) :=
  [("three-disks.json", threeDisks); ("unclean.json", uncleanDisk);
   ("empty-path.json", emptyPathDisk); ("no-machine.json", noMachine)].

Definition exampleLib : Library := exampleLibrary exampleTable "C:\work".

Definition exampleGUID : GUID :=
  mkGUID 0x1234abcd 0xbeef 0x12 [0; 1; 2; 255; 254; 16; 7; 8].

(** ** Observations on traces *)

Definition count (f : Event → bool) (tr : Trace) : nat := length (List.filter f tr).

Definition isCreateOperation (e : Event) : bool :=
  match e with EvCreateOperation _ => true | _ => false end.

Definition isOpened (e : Event) : bool :=
  match e with EvCreateOperation r1 => negb (r1 =? 0) | _ => false end.

Definition isCloseOperation (e : Event) : bool :=
  match e with EvCloseOperation _ => true | _ => false end.

Definition isWait (e : Event) : bool :=
  match e with EvWaitForOperationResult _ _ _ _ => true | _ => false end.

Definition isCreateCall (e : Event) : bool :=
  match e with EvCreateComputeSystem _ _ _ _ _ => true | _ => false end.

Definition isStartCall (e : Event) : bool :=
  match e with EvStartComputeSystem _ _ _ => true | _ => false end.

Definition isGrantCall (e : Event) : bool :=
  match e with EvGrantVmAccess _ _ _ => true | _ => false end.

Definition isRevokeCall (e : Event) : bool :=
  match e with EvRevokeVmAccess _ _ _ => true | _ => false end.

(** Observations are projections of the trace, event by event. *)

(** The (VM id, path) pairs of the revoke calls, in order. *)
Definition revokedOf (e : Event) : option (string * string) :=
  match e with EvRevokeVmAccess v p _ => Some (v, p) | _ => None end.

Abbreviation revoked := (omap revokedOf).

(** The (VM id, path) pairs of the grant calls the service accepted. *)
Definition grantedOf (e : Event) : option (string * string) :=
  match e with
  | EvGrantVmAccess v p hr => if hrOK hr then Some (v, p) else None
  | _ => None
  end.

Abbreviation granted := (omap grantedOf).

(** The paths whose grant was attempted: line "Granting VM access to" is
    written before each call of [grantVmAccess]. *)
Definition grantLogFormat : string := "  Granting VM access to %s\n".

Definition grantAttemptOf (e : Event) : option string :=
  match e with
  | EvStderr format [p] => if String.eqb format grantLogFormat then Some p else None
  | _ => None
  end.

Abbreviation grantAttempts := (omap grantAttemptOf).

Definition stdoutOf (e : Event) : option string :=
  match e with EvStdout line => Some line | _ => None end.

Abbreviation stdout := (omap stdoutOf).

(** The discovery answers in a trace. *)
Definition discoveredOf (e : Event) : option (list GpuDevice * option error) :=
  match e with EvEnumerateGPUs gpus err => Some (gpus, err) | _ => None end.

Abbreviation discovered := (omap discoveredOf).

(** The VM handles [HcsCloseComputeSystem] released. *)
Definition releasedOf (e : Event) : option Z :=
  match e with EvCloseComputeSystem sys => Some sys | _ => None end.

Abbreviation releasedSystems := (omap releasedOf).

(** The waits: operation, timeout, status, result document. *)
Definition waitOf (e : Event) : option (Z * Z * Z * option string) :=
  match e with
  | EvWaitForOperationResult op timeoutMs hr doc => Some (op, timeoutMs, hr, doc)
  | _ => None
  end.

Abbreviation waits := (omap waitOf).

(** The VM handles of the create calls the service accepted. *)
Definition createdOf (e : Event) : option Z :=
  match e with
  | EvCreateComputeSystem _ _ _ hr sys => if hrOK hr then Some sys else None
  | _ => None
  end.

Abbreviation createdSystems := (omap createdOf).

(** The start calls: VM handle, operation, status. *)
Definition startOf (e : Event) : option (Z * Z * Z) :=
  match e with EvStartComputeSystem sys op hr => Some (sys, op, hr) | _ => None end.

Abbreviation starts := (omap startOf).

(** The VM handles of the terminate calls. *)
Definition terminatedOf (e : Event) : option Z :=
  match e with EvTerminateComputeSystem sys _ _ => Some sys | _ => None end.

Abbreviation terminated := (omap terminatedOf).

(** The operation handles open after a trace, starting from [open];
    [None] when a handle is closed that is not open. *)
Fixpoint removeFirst (h : Z) (l : list Z) : option (list Z) :=
  match l with
  | [] => None
  | x :: l' => if x =? h then Some l' else cons x <$> removeFirst h l'
  end.

Fixpoint trackOperations (tr : Trace) (open : list Z) : option (list Z) :=
  match tr with
  | [] => Some open
  | EvCreateOperation r1 :: rest =>
      if r1 =? 0 then trackOperations rest open else trackOperations rest (r1 :: open)
  | EvCloseOperation op :: rest =>
      match removeFirst op open with
      | Some open' => trackOperations rest open'
      | None => None
      end
  | _ :: rest => trackOperations rest open
  end.

(** The document an error carries: [HcsError.ResultJSON], through [%w]. *)
Fixpoint resultDocument (e : error) : string :=
  match e with
  | HcsError _ _ doc => doc
  | Errorf _ _ (Some cause) => resultDocument cause
  | Errorf _ _ None => ""
  | ExternalError _ => ""
  end.

(** The phase an error names. *)
Definition isAccessGrantError (e : error) : Prop :=
  ∃ cause, e = Errorf "grant VM access: %w" [] (Some cause).

Definition isCreateError (e : error) : Prop :=
  (∃ hr, e = HcsError "HcsCreateComputeSystem" hr "") ∨
  (∃ hr doc, e = Errorf "create compute system: %w" []
                   (Some (HcsError "HcsWaitForOperationResult" hr doc))) ∨
  e = Errorf "invalid system id: %w" [] (Some EINVAL) ∨
  e = Errorf "invalid config JSON: %w" [] (Some EINVAL).

Definition isStartError (e : error) : Prop :=
  (∃ hr, e = HcsError "HcsStartComputeSystem" hr "") ∨
  (∃ hr doc, e = Errorf "start compute system: %w" []
                   (Some (HcsError "HcsWaitForOperationResult" hr doc))).

(** [p] is the path of some non-nil attachment of some non-nil controller. *)
Definition hasAttachmentPath (spec : ComputeSystemSpec) (p : string) : Prop :=
  ∃ vm dev name ctrl slot att,
    VirtualMachine spec = Some vm ∧ Devices vm = Some dev ∧
    Scsi dev !! name = Some (Some ctrl) ∧
    Attachments ctrl !! slot = Some (Some att) ∧ Path att = p.

(** No attachment anywhere: some level of the SCSI structure is nil or
    empty. *)
Definition noAttachments (ctrl : option ScsiController) : Prop :=
  match ctrl with
  | None => True
  | Some c => map_Forall (λ _ att, att = None) (Attachments c)
  end.

Definition scsiAbsent (spec : ComputeSystemSpec) : Prop :=
  match VirtualMachine spec with
  | None => True
  | Some vm =>
    match Devices vm with
    | None => True
    | Some dev => map_Forall (λ _ ctrl, noAttachments ctrl) (Scsi dev)
    end
  end.

(** The virtual-PCI mapping of a document; nil sections have none. *)
Definition virtualPciOf (spec : ComputeSystemSpec)
  : gmap string (option VirtualPciDev) :=
  match VirtualMachine spec with
  | Some vm => match Devices vm with Some dev => VirtualPci dev | None => ∅ end
  | None => ∅
  end.

(** A VM identity as [CreateAndStartVM] prints it: 36 characters, hyphens at
    8, 13, 18 and 23, upper-case hexadecimal digits elsewhere. *)
Definition isHexDigit (c : ascii) : bool :=
  let n := nat_of_ascii c in
  ((48 <=? n)%nat && (n <=? 57)%nat) || ((65 <=? n)%nat && (n <=? 70)%nat).

Fixpoint wellFormedFrom (i : nat) (s : string) : bool :=
  match s with
  | EmptyString => (i =? 36)%nat
  | String c s' =>
      (if (i =? 8)%nat || (i =? 13)%nat || (i =? 18)%nat || (i =? 23)%nat
       then Ascii.eqb c "-"%char else isHexDigit c)
      && wellFormedFrom (S i) s'
  end.

Definition wellFormedID (s : string) : bool := wellFormedFrom 0 s.

(** What [filepath.Abs] promises: the result is absolute, and it is clean,
    so resolving it again gives it back. *)
Class AbsContract (lib : Library) : Prop := {
  Abs_IsAbs : ∀ p q, filepath_Abs lib p = (q, None) → filepath_IsAbs lib q = true;
  Abs_resolved : ∀ p q, filepath_Abs lib p = (q, None) → filepath_Abs lib q = (q, None)
}.

(** Reference hosts: a service with scripted faults.  [grantFailsAt] and
    [operationFailsAt] count the earlier calls of the same kind. *)
Record Faults : Type := mkFaults {
  grantFailsAt : option nat;
  operationFailsAt : option nat;
  createAnswer : Z * Z;
  createWait : Z * option string;
  startAnswer : Z;
  startWait : Z * option string;
  displayAdapters : list GpuDevice
}.

Definition E_ACCESSDENIED : Z := 0x80070005.

Definition faultyHost (f : Faults) : Host :=
  mkHost
    (λ tr, if decide (operationFailsAt f = Some (count isCreateOperation tr))
           then 0 else 0x100 + Z.of_nat (count isCreateOperation tr))
    (λ tr op timeoutMs,
       if timeoutMs =? 5000 then (0, None)
       else if (count isWait tr =? 0)%nat then createWait f else startWait f)
    (λ tr id configuration op, createAnswer f)
    (λ tr sys op, startAnswer f)
    (λ tr sys op, 0)
    (λ tr vmID filePath,
       if decide (grantFailsAt f = Some (count isGrantCall tr))
       then E_ACCESSDENIED else 0)
    (λ tr vmID filePath, 0)
    (λ tr, (displayAdapters f, None))
    (λ tr, (exampleGUID, None)).

Definition noFaults : Faults :=
  mkFaults None None (0, 0x7000) (0, None) 0 (0, None) [].

Definition withGrantFault (n : nat) : Faults :=
  mkFaults (Some n) None (0, 0x7000) (0, None) 0 (0, None) [].

Definition withOperationFault (n : nat) (f : Faults) : Faults :=
  mkFaults (grantFailsAt f) (Some n) (createAnswer f) (createWait f)
           (startAnswer f) (startWait f) (displayAdapters f).

Definition createRejected (doc : option string) : Faults :=
  mkFaults None None (E_ACCESSDENIED, 0) (0xc0370103, doc) 0 (0, None) [].

Definition createWaitFails (doc : option string) : Faults :=
  mkFaults None None (0, 0x7000) (0xc0351000, doc) 0 (0, None) [].

Definition startRejected : Faults :=
  mkFaults None None (0, 0x7000) (0, None) 0xc0351000 (0, None) [].

Definition startWaitFails : Faults :=
  mkFaults None None (0, 0x7000) (0, None) 0 (0xc0351000, None) [].

(** ** The shapes a run of the transaction can take

    The events a phase appends to the trace, given what the host answered.
    [hrs] are the status codes of the calls, one per path. *)

Definition closeSystemEvents (sys : Z) : Trace :=
  if sys =? 0 then [] else [EvCloseComputeSystem sys].

Definition revokeEvents (vmID : string) (paths : list string) (hrs : list Z) : Trace :=
  zip_with (EvRevokeVmAccess vmID) paths hrs.

Definition grantEvents (vmID : string) (paths : list string) (hrs : list Z) : Trace :=
  concat (zip_with (λ p hr, [EvStderr "  Granting VM access to %s\n" [p];
                             EvGrantVmAccess vmID p hr]) paths hrs).

(** The paths [revokeVmAccess] can hand to the service: what
    [grantVmAccess] accepted before. *)
Definition Grantable (vmID : string) (paths : list string) : Prop :=
  Forall (λ p, hasNUL p = false) paths ∧ (paths ≠ [] → hasNUL vmID = false).

(** [terminateAndClose sys]. *)
Inductive TerminateRun (sys : Z) : Trace → Prop :=
| TerminateNoOperation :
    TerminateRun sys (EvCreateOperation 0 :: closeSystemEvents sys)
| TerminateIssued op hr whr doc :
    op ≠ 0 →
    TerminateRun sys
      ([EvCreateOperation op; EvTerminateComputeSystem sys op hr;
        EvWaitForOperationResult op 5000 whr doc; EvCloseOperation op]
       ++ closeSystemEvents sys).

(** A failed [grantVmAccess]: rejected by the service, or not passed to it
    because an argument has a NUL in it. *)
Inductive GrantFailure (vmID p : string) : Trace → error → Prop :=
| GrantRejected hr :
    hasNUL vmID = false → hasNUL p = false → hrOK hr = false →
    GrantFailure vmID p [EvGrantVmAccess vmID p hr]
      (HcsError ("HcsGrantVmAccess(" +:+ p +:+ ")") (uint32 hr) "")
| GrantBadID :
    hasNUL vmID = true →
    GrantFailure vmID p [] (Errorf "invalid VM ID: %w" [] (Some EINVAL))
| GrantBadPath :
    hasNUL vmID = false → hasNUL p = true →
    GrantFailure vmID p [] (Errorf "invalid file path: %w" [] (Some EINVAL)).

(** [startPhase]. *)
Inductive StartRun (vmID : string) (sys : Z) (paths : list string)
  : option error → Trace → Prop :=
| StartNoOperation term rhrs :
    TerminateRun sys term → length rhrs = length paths →
    StartRun vmID sys paths
      (Some (Errorf "HcsCreateOperation returned NULL" [] None))
      ([EvCreateOperation 0] ++ term ++ revokeEvents vmID paths rhrs)
| StartRejected op2 hr term rhrs :
    op2 ≠ 0 → hrOK hr = false →
    TerminateRun sys term → length rhrs = length paths →
    StartRun vmID sys paths
      (Some (HcsError "HcsStartComputeSystem" (uint32 hr) ""))
      ([EvCreateOperation op2; EvStartComputeSystem sys op2 hr; EvCloseOperation op2]
       ++ term ++ revokeEvents vmID paths rhrs)
| StartWaitFailed op2 hr whr doc term rhrs :
    op2 ≠ 0 → hrOK hr = true → hrOK whr = false →
    TerminateRun sys term → length rhrs = length paths →
    StartRun vmID sys paths
      (Some (Errorf "start compute system: %w" []
               (Some (HcsError "HcsWaitForOperationResult" (uint32 whr)
                               (default "" doc)))))
      ([EvCreateOperation op2; EvStartComputeSystem sys op2 hr;
        EvWaitForOperationResult op2 infinite whr doc; EvCloseOperation op2]
       ++ term ++ revokeEvents vmID paths rhrs)
| StartDone op2 hr whr doc :
    op2 ≠ 0 → hrOK hr = true → hrOK whr = true →
    StartRun vmID sys paths None
      ([EvCreateOperation op2; EvStartComputeSystem sys op2 hr;
        EvWaitForOperationResult op2 infinite whr doc; EvCloseOperation op2]
       ++ closeSystemEvents sys
       ++ [EvStdout vmID; EvStderr "VM started successfully.\n" []]).

(** [createPhase]. *)
Inductive CreateRun (vmID finalJSON : string) (paths : list string)
  : option error → Trace → Prop :=
| CreateNoOperation rhrs :
    length rhrs = length paths →
    CreateRun vmID finalJSON paths
      (Some (Errorf "HcsCreateOperation returned NULL" [] None))
      ([EvCreateOperation 0] ++ revokeEvents vmID paths rhrs)
| CreateNotSubmitted op e whr doc rhrs :
    op ≠ 0 →
    (hasNUL vmID = true ∧ e = Errorf "invalid system id: %w" [] (Some EINVAL)) ∨
    (hasNUL vmID = false ∧ hasNUL finalJSON = true ∧
     e = Errorf "invalid config JSON: %w" [] (Some EINVAL)) →
    length rhrs = length paths →
    CreateRun vmID finalJSON paths (Some e)
      ([EvCreateOperation op; EvWaitForOperationResult op infinite whr doc;
        EvCloseOperation op] ++ revokeEvents vmID paths rhrs)
| CreateRejected op hr sys whr doc rhrs :
    op ≠ 0 → hrOK hr = false → length rhrs = length paths →
    CreateRun vmID finalJSON paths
      (Some (HcsError "HcsCreateComputeSystem" (uint32 hr) ""))
      ([EvCreateOperation op; EvCreateComputeSystem vmID finalJSON op hr sys;
        EvWaitForOperationResult op infinite whr doc; EvCloseOperation op]
       ++ revokeEvents vmID paths rhrs)
| CreateWaitFailed op hr sys whr doc rhrs :
    op ≠ 0 → hrOK hr = true → hrOK whr = false → length rhrs = length paths →
    CreateRun vmID finalJSON paths
      (Some (Errorf "create compute system: %w" []
               (Some (HcsError "HcsWaitForOperationResult" (uint32 whr)
                               (default "" doc)))))
      ([EvCreateOperation op; EvCreateComputeSystem vmID finalJSON op hr sys;
        EvWaitForOperationResult op infinite whr doc; EvCloseOperation op]
       ++ revokeEvents vmID paths rhrs
       ++ (if String.eqb (default "" doc) "" then []
           else [EvStderr "Create result: %s\n" [default "" doc]]))
| CreateDone op hr sys whr doc res rest :
    op ≠ 0 → hrOK hr = true → hrOK whr = true →
    StartRun vmID sys paths res rest →
    CreateRun vmID finalJSON paths res
      ([EvCreateOperation op; EvCreateComputeSystem vmID finalJSON op hr sys;
        EvWaitForOperationResult op infinite whr doc; EvCloseOperation op]
       ++ rest).

(** The grant loop and what follows it. *)
Inductive GrantRun (vmID finalJSON : string) (paths : list string)
  : option error → Trace → Prop :=
| GrantFailed K p hrs failure e rhrs :
    paths !! K = Some p →
    length hrs = K → Forall (λ hr, hrOK hr = true) hrs →
    GrantFailure vmID p failure e → length rhrs = K →
    GrantRun vmID finalJSON paths
      (Some (Errorf "grant VM access: %w" [] (Some e)))
      (grantEvents vmID (take K paths) hrs
       ++ [EvStderr "  Granting VM access to %s\n" [p]] ++ failure
       ++ revokeEvents vmID (take K paths) rhrs)
| GrantsDone hrs res rest :
    length hrs = length paths → Forall (λ hr, hrOK hr = true) hrs →
    Grantable vmID paths →
    CreateRun vmID finalJSON paths res rest →
    GrantRun vmID finalJSON paths res (grantEvents vmID paths hrs ++ rest).

(** "Inject GPU if requested", when it goes through. *)
Definition injectEvents (gpus : list GpuDevice) : Trace :=
  EvEnumerateGPUs gpus None
  :: EvStderr "Found %d GPU(s) for GPU-PV:\n" [pretty (length gpus)]
  :: map (λ g, EvStderr "  %s (%s)\n" [Name g; InstanceID g]) gpus.

Inductive InjectRun (addGPU : bool) (spec : ComputeSystemSpec)
  : ComputeSystemSpec → Trace → Prop :=
| InjectNotRequested :
    addGPU = false → InjectRun addGPU spec spec []
| InjectDone gpus :
    addGPU = true → gpus ≠ [] →
    InjectRun addGPU spec (injectGPU spec gpus) (injectEvents gpus).

(** The whole of [CreateAndStartVM], from an empty history. *)
Section TransactionRun.

Context (lib : Library) (order : RangeOrder) (specJSON name : string) (addGPU : bool).

(** The document after "Resolve VHD paths to absolute". *)
Definition Resolved (spec : ComputeSystemSpec) : Prop :=
  ∃ parsed, json_Unmarshal lib specJSON = (parsed, None) ∧
            makePathsAbsolute lib order (defaultOwner parsed) = (spec, None).

Inductive TransactionRun : option error → Trace → Prop :=
| RunInvalidSpec parsed e :
    json_Unmarshal lib specJSON = (parsed, Some e) →
    TransactionRun (Some (Errorf "invalid JSON spec: %w" [] (Some e))) []
| RunUnresolved parsed partial e :
    json_Unmarshal lib specJSON = (parsed, None) →
    makePathsAbsolute lib order (defaultOwner parsed) = (partial, Some e) →
    TransactionRun (Some e) []
| RunEnumerationFailed spec gpus e :
    Resolved spec → addGPU = true →
    TransactionRun (Some (Errorf "GPU enumeration failed: %w" [] (Some e)))
                   [EvEnumerateGPUs gpus (Some e)]
| RunNoGPU spec :
    Resolved spec → addGPU = true →
    TransactionRun (Some (Errorf "no GPUs found for GPU-PV" [] None))
                   [EvEnumerateGPUs [] None]
| RunUnserializable spec final pre text e :
    Resolved spec → InjectRun addGPU spec final pre →
    json_Marshal lib final = (text, Some e) →
    TransactionRun (Some (Errorf "failed to serialize spec: %w" [] (Some e))) pre
| RunNoGUID spec final pre finalJSON guid e :
    Resolved spec → InjectRun addGPU spec final pre →
    json_Marshal lib final = (finalJSON, None) →
    TransactionRun (Some (Errorf "GenerateGUID failed: %w" [] (Some e)))
                   (pre ++ [EvGenerateGUID guid (Some e)])
| RunGrants spec final pre finalJSON guid res rest :
    Resolved spec → InjectRun addGPU spec final pre →
    json_Marshal lib final = (finalJSON, None) →
    GrantRun (vmIDOf guid) finalJSON (extractVHDPaths order final) res rest →
    TransactionRun res
      (pre ++ [EvGenerateGUID guid None; creatingEvent name (vmIDOf guid)] ++ rest).

End TransactionRun.

(** The kind of an event, to say which events a phase can produce. *)
Inductive Kind : Type :=
| KOperation | KCloseOperation | KWait | KCreate | KCloseSystem | KStart
| KTerminate | KGrant | KRevoke | KEnumerate | KGuid | KGrantLog | KStderr
| KStdout.

Definition kind (e : Event) : Kind :=
  match e with
  | EvCreateOperation _ => KOperation
  | EvCloseOperation _ => KCloseOperation
  | EvWaitForOperationResult _ _ _ _ => KWait
  | EvCreateComputeSystem _ _ _ _ _ => KCreate
  | EvCloseComputeSystem _ => KCloseSystem
  | EvStartComputeSystem _ _ _ => KStart
  | EvTerminateComputeSystem _ _ _ => KTerminate
  | EvGrantVmAccess _ _ _ => KGrant
  | EvRevokeVmAccess _ _ _ => KRevoke
  | EvEnumerateGPUs _ _ => KEnumerate
  | EvGenerateGUID _ _ => KGuid
  | EvStderr format _ =>
      if String.eqb format grantLogFormat then KGrantLog else KStderr
  | EvStdout _ => KStdout
  end.

Definition Kind_eqb (a b : Kind) : bool :=
  match a, b with
  | KOperation, KOperation | KCloseOperation, KCloseOperation | KWait, KWait
  | KCreate, KCreate | KCloseSystem, KCloseSystem | KStart, KStart
  | KTerminate, KTerminate | KGrant, KGrant | KRevoke, KRevoke
  | KEnumerate, KEnumerate | KGuid, KGuid | KGrantLog, KGrantLog
  | KStderr, KStderr | KStdout, KStdout => true
  | _, _ => false
  end.

Definition ofKinds (ks : list Kind) (e : Event) : bool :=
  existsb (Kind_eqb (kind e)) ks.

(** The kinds of the events after the grant loop. *)
Definition startKinds : list Kind :=
  [KOperation; KStart; KWait; KCloseOperation; KTerminate; KCloseSystem;
   KRevoke; KStdout; KStderr].

Definition laterKinds : list Kind := KCreate :: startKinds.

(** ** Example runs *)

Definition exampleRun (f : Faults) (specJSON : string) (addGPU : bool)
  : option error * Trace :=
  CreateAndStartVM (faultyHost f) exampleLib keyOrder specJSON "" addGPU [].

Definition resolvedThreeDisks : ComputeSystemSpec :=
  fst (makePathsAbsolute exampleLib keyOrder (defaultOwner threeDisks)).

(** ** The claims about the create step *)

(** The first wait of a run is the wait on the create operation.  The create
    step failed when the run got to that wait and either no create call was
    accepted (the submission failed) or the wait itself failed. *)
Definition createStepFailed (tr : Trace) : Prop :=
  ∃ op timeoutMs whr doc,
    head (waits tr) = Some (op, timeoutMs, whr, doc) ∧
    (createdSystems tr = [] ∨ hrOK whr = false).

(** The result document the service handed to the wait on the create
    operation; empty when there is none. *)
Definition createResultDocument (tr : Trace) : string :=
  match head (waits tr) with
  | Some (_, _, _, doc) => default "" doc
  | None => ""
  end.

(** The same, when a create call was accepted; empty otherwise. *)
Definition acceptedResultDocument (tr : Trace) : string :=
  match createdSystems tr with
  | [] => ""
  | _ :: _ => createResultDocument tr
  end.

(** After a failed create step: no start call, every granted path revoked,
    and a create error that carries [document tr]. *)
Definition createFailureReported (document : Trace → string)
    (res : option error) (tr : Trace) : Prop :=
  starts tr = [] ∧ revoked tr = granted tr ∧
  ∃ e, res = Some e ∧ isCreateError e ∧ resultDocument e = document tr.

(** ** The claims about the start step *)

(** A run makes at most one start call.  The start step failed when the
    service rejected that call, or accepted it and the wait on it, the second
    wait of the run, failed. *)
Definition startStepFailed (tr : Trace) : Prop :=
  ∃ sys op2 hr,
    starts tr = [(sys, op2, hr)] ∧
    (hrOK hr = false ∨
     ∃ op timeoutMs whr doc,
       waits tr !! 1%nat = Some (op, timeoutMs, whr, doc) ∧ hrOK whr = false).

(** A terminate request on [sys] with its 5 s wait, then the release. *)
Definition terminateIssued (sys : Z) (term : Trace) : Prop :=
  ∃ op hr whr doc,
    op ≠ 0 ∧
    term = [EvCreateOperation op; EvTerminateComputeSystem sys op hr;
            EvWaitForOperationResult op 5000 whr doc; EvCloseOperation op]
           ++ closeSystemEvents sys.

(** After a failed start step: the trace is [pre ++ term ++ revs], where
    [term] is the one terminate-and-release of the created VM object, of the
    shape [termShape], nothing is revoked, terminated or released before it,
    [revs] are the revokes of all granted paths, and the result is a start
    error. *)
Definition startFailureCompensated (termShape : Z → Trace → Prop)
    (res : option error) (tr : Trace) : Prop :=
  ∃ sys pre term revs,
    createdSystems tr = [sys] ∧ tr = pre ++ term ++ revs ∧ termShape sys term ∧
    revoked pre = [] ∧ terminated pre = [] ∧ releasedSystems pre = [] ∧
    Forall (λ e, isRevokeCall e = true) revs ∧ revoked revs = granted tr ∧
    ∃ e, res = Some e ∧ isStartError e.

(** ** The text of a VM identity *)

Fixpoint allChars (P : ascii → bool) (s : string) : bool :=
  match s with
  | EmptyString => true
  | String c s' => P c && allChars P s'
  end.

(** [GUID_String] without its braces. *)
Definition identityText (g : GUID) : string :=
  hexN 8 (Data1 g) +:+ "-" +:+ hexN 4 (Data2 g) +:+ "-" +:+
  hexN 4 (Data3 g) +:+ "-" +:+ hexN 2 (byteAt g 0) +:+ hexN 2 (byteAt g 1) +:+
  "-" +:+ hexN 2 (byteAt g 2) +:+ hexN 2 (byteAt g 3) +:+ hexN 2 (byteAt g 4) +:+
  hexN 2 (byteAt g 5) +:+ hexN 2 (byteAt g 6) +:+ hexN 2 (byteAt g 7).

(** ** What path resolution makes of a document that resolves *)

(** The attachment and the verdict of one step of [makePathsAbsolute]. *)
Definition resolvedAttachment (lib : Library) (att : option ScsiAttachment)
  : option ScsiAttachment :=
  fst (resolveAttachment lib att).

Definition resolvable (lib : Library) (att : option ScsiAttachment) : Prop :=
  snd (resolveAttachment lib att) = None.

Definition resolvedController (lib : Library) (ctrl : option ScsiController)
  : option ScsiController :=
  match ctrl with
  | Some c => Some (mkScsiController (resolvedAttachment lib <$> Attachments c))
  | None => None
  end.

Definition resolvableController (lib : Library) (ctrl : option ScsiController) : Prop :=
  match ctrl with
  | Some c => map_Forall (λ _ att, resolvable lib att) (Attachments c)
  | None => True
  end.

(** The SCSI controllers of a document; nil sections have none. *)
Definition scsiOf (spec : ComputeSystemSpec) : gmap string (option ScsiController) :=
  match VirtualMachine spec with
  | Some vm => match Devices vm with Some dev => Scsi dev | None => ∅ end
  | None => ∅
  end.

(** The document with its SCSI controllers replaced; nil sections stay nil. *)
Definition mapScsi
    (f : gmap string (option ScsiController) → gmap string (option ScsiController))
    (spec : ComputeSystemSpec) : ComputeSystemSpec :=
  match VirtualMachine spec with
  | Some vm =>
    match Devices vm with
    | Some dev => withVirtualMachine spec (withDevices vm (withScsi dev (f (Scsi dev))))
    | None => spec
    end
  | None => spec
  end.

(** One step of a loop that updates entries of a map in the order of an
    enumeration of it; [g] says which entries are updated, and to what. *)
Definition updateEntry {A} (g : A → option A) (m : gmap string A) (e : string * A)
  : gmap string A :=
  match g e.2 with
  | Some v => <[e.1 := v]> m
  | None => m
  end.

(** The (VM id, document) pairs of the create calls. *)
Definition submittedOf (e : Event) : option (string * string) :=
  match e with
  | EvCreateComputeSystem id configuration _ _ _ => Some (id, configuration)
  | _ => None
  end.

Abbreviation submitted := (omap submittedOf).

Definition isPathResolutionError (e : error) : Prop :=
  ∃ p cause, e = Errorf "cannot resolve path %q: %w" [p] (Some cause).

(** ** Clean path elements *)

Definition noSlash (e : string) : bool := allChars (λ c, negb (WinPath.isSlash c)) e.

(** An element of a path [WinPath.Abs] returns. *)
Definition cleanElement (e : string) : bool := WinPath.plainElement e.

(** A path in the form [WinPath.Abs] returns: absolute and clean, a drive
    letter, a colon, and plain elements after single backslashes. *)
Definition absoluteClean (p : string) : Prop :=
  ∃ d elements,
    WinPath.isLetter d = true ∧ Forall (λ e, cleanElement e = true) elements ∧
    p = WinPath.render d elements.

(** ** Files on the host *)

(** [files tr p]: the path [p] names an existing file of the host once the
    history is [tr]. *)
Definition Files : Type := Trace → string → Prop.

(** The service grants access to existing files only: whenever it accepted
    a grant in [tr], the file existed when the call was made. *)
Definition grantsExistingFiles (files : Files) (tr : Trace) : Prop :=
  ∀ pre vmID p hr post,
    tr = pre ++ EvGrantVmAccess vmID p hr :: post → hrOK hr = true → files pre p.

(** No file is removed while [tr] runs. *)
Definition filesPersist (files : Files) (tr : Trace) : Prop :=
  ∀ pre mid post p, tr = pre ++ mid ++ post → files pre p → files (pre ++ mid) p.

(** A host with no file at all. *)
Definition noFiles : Files := λ _ _, False.

(** A host with the files [paths], from the start to the end. *)
Definition theFiles (paths : list string) : Files := λ _ p, p ∈ paths.

(** ** Reading hexadecimal text *)

(** The value of a hexadecimal digit, and of hexadecimal text read from the
    left, as [strconv.ParseUint(s, 16, 64)] reads it. *)
Definition hexValue (c : ascii) : option Z :=
  let n := Z.of_nat (nat_of_ascii c) in
  if (48 <=? n) && (n <=? 57) then Some (n - 48)
  else if (97 <=? n) && (n <=? 102) then Some (n - 87)
  else if (65 <=? n) && (n <=? 70) then Some (n - 55)
  else None.

Fixpoint parseHexFrom (acc : Z) (s : string) : option Z :=
  match s with
  | EmptyString => Some acc
  | String c s' =>
    match hexValue c with
    | Some d => parseHexFrom (16 * acc + d) s'
    | None => None
    end
  end.

Definition parseHex (s : string) : option Z :=
  match s with
  | EmptyString => None
  | _ => parseHexFrom 0 s
  end.

(** A [windows.GUID] as the Go type has it: [Data1] a [uint32], [Data2] and
    [Data3] [uint16]s, [Data4] eight bytes. *)
Definition GUID_typed (g : GUID) : Prop :=
  0 ≤ Data1 g < 2 ^ 32 ∧ 0 ≤ Data2 g < 2 ^ 16 ∧ 0 ≤ Data3 g < 2 ^ 16 ∧
  length (Data4 g) = 8%nat ∧ Forall (λ b, 0 ≤ b < 256) (Data4 g).

(** ** Two spellings of one file *)

(** A document whose three attachment paths are distinct as written, two of
    them naming the same file when read from [C:\work]. *)
Definition aliasedDisks : ComputeSystemSpec :=
  docWithDisks [("0", "D:\x.vhdx"); ("1", "data.vhdx"); ("2", "C:\work\data.vhdx")].

Definition aliasedLib : Library :=
  exampleLibrary [("aliased.json", aliasedDisks)] "C:\work".

Definition aliasedRun (f : Faults) : option error * Trace :=
  CreateAndStartVM (faultyHost f) aliasedLib keyOrder "aliased.json" "" false [].

(** ** [HcsError.Error] *)

(** [hresultMessages]: the HRESULT codes with a human-readable message. *)
Definition hcsESystemNotFound : Z := 0xc037010e.
Definition hcsEHypervisorNotPresent : Z := 0xc0351000.
Definition eAccessDenied : Z := 0x80070005.

Definition hresultMessages : gmap Z string :=
  {[ hcsESystemNotFound := "HCS compute system not found";
     hcsEHypervisorNotPresent := "Hypervisor is not present — enable Hyper-V";
     eAccessDenied := "Access denied — run as Administrator" ]}.

(** [fmt.Sprintf("%08x", v)] for a [uint32]: a [uint32] has at most eight
    hexadecimal digits, so the zero padding to width 8 gives exactly eight,
    in lower case. *)
Definition lowerHexDigit (d : Z) : ascii :=
  nth (Z.to_nat d)
      ["0"; "1"; "2"; "3"; "4"; "5"; "6"; "7"; "8"; "9";
       "a"; "b"; "c"; "d"; "e"; "f"]%char "0"%char.

Fixpoint lowerHexN (digits : nat) (v : Z) : string :=
  match digits with
  | O => EmptyString
  | S n => String (lowerHexDigit ((v / 16 ^ Z.of_nat n) mod 16)) (lowerHexN n v)
  end.

Definition newline : string := String "010"%char EmptyString.

(** The method [Error] of [*HcsError]; the [strings.Builder] writes are the
    concatenation. *)
Definition HcsError_Error (Op : string) (HR : Z) (ResultJSON : string) : string :=
  Op +:+ ": HRESULT " +:+ ("0x" +:+ lowerHexN 8 HR) +:+
  match hresultMessages !! HR with
  | Some msg => " (" +:+ msg +:+ ")"
  | None => ""
  end +:+
  (if String.eqb ResultJSON "" then "" else newline +:+ "  result: " +:+ ResultJSON).

(** What "Resolve VHD paths to absolute" makes of one attachment: the type
    is kept, an empty path stays empty, another path is replaced by what
    [filepath.Abs] answers for it. *)
Definition pathResolved (lib : Library) (a a' : ScsiAttachment) : Prop :=
  Type_ a' = Type_ a ∧
  if String.eqb (Path a) "" then Path a' = ""
  else filepath_Abs lib (Path a) = (Path a', None).

(** The same for a controller, slot by slot; a nil attachment stays nil,
    no slot is added or removed. *)
Definition controllerResolved (lib : Library) (c c' : ScsiController) : Prop :=
  ∀ slot, option_Forall2 (option_Forall2 (pathResolved lib))
                         (Attachments c !! slot) (Attachments c' !! slot).

(** ** Handles in use *)

(** The operation handle an event hands to the service, other than to
    close it. *)
Definition operationUsed (e : Event) : option Z :=
  match e with
  | EvWaitForOperationResult op _ _ _ => Some op
  | EvCreateComputeSystem _ _ op _ _ => Some op
  | EvStartComputeSystem _ op _ => Some op
  | EvTerminateComputeSystem _ op _ => Some op
  | _ => None
  end.

(** Every operation handle handed to the service is open at that moment,
    starting from the open handles [open]: it came out of
    [HcsCreateOperation], is not NULL and has not been closed since. *)
Fixpoint operationsLive (tr : Trace) (open : list Z) : bool :=
  match tr with
  | [] => true
  | e :: rest =>
    match operationUsed e with
    | Some op => bool_decide (op ∈ open)
    | None => true
    end &&
    match e with
    | EvCreateOperation r1 =>
        operationsLive rest (if r1 =? 0 then open else r1 :: open)
    | EvCloseOperation op =>
        match removeFirst op open with
        | Some open' => operationsLive rest open'
        | None => false
        end
    | _ => operationsLive rest open
    end
  end.

(** What the process holds of the VM object: nothing yet, the handle an
    accepted [HcsCreateComputeSystem] wrote, or nothing any more. *)
Inductive SystemState : Type :=
| NoSystem
| Held (sys : Z)
| Released.

Definition holds (st : SystemState) (sys : Z) : bool :=
  match st with
  | Held s => s =? sys
  | _ => false
  end.

(** One event against the state; [None] when the event uses a VM handle the
    process does not hold, or creates a second VM object. *)
Definition systemStep (st : SystemState) (e : Event) : option SystemState :=
  match e with
  | EvCreateComputeSystem _ _ _ hr sys =>
      if hrOK hr
      then match st with NoSystem => Some (Held sys) | _ => None end
      else Some st
  | EvStartComputeSystem sys _ _ => if holds st sys then Some st else None
  | EvTerminateComputeSystem sys _ _ => if holds st sys then Some st else None
  | EvCloseComputeSystem sys => if holds st sys then Some Released else None
  | _ => Some st
  end.

Fixpoint trackSystem (tr : Trace) (st : SystemState) : option SystemState :=
  match tr with
  | [] => Some st
  | e :: rest =>
    match systemStep st e with
    | Some st' => trackSystem rest st'
    | None => None
    end
  end.

(** The state after [closeComputeSystem sys], which leaves a NULL handle
    alone. *)
Definition afterClose (sys : Z) : SystemState :=
  if sys =? 0 then Held sys else Released.

(** ** A path that does not resolve *)

(** A document whose one attachment path holds a NUL character, which
    [filepath.Abs] answers with [EINVAL]. *)
Definition nulPath : string := String "000"%char "disk.vhdx".

Definition nulPathDisk : ComputeSystemSpec := docWithDisks [("0", nulPath)].

Definition nulLib : Library := exampleLibrary [("nul-path.json", nulPathDisk)] "C:\work".

(** ** The other commands: list, inspect, stop, kill and quick-create

    The commands other than the creation transaction call four more entry
    points of computecore.dll, read the file system and write tables and
    lines.  A [Call] is one such interaction, or one of the creation
    transaction ([Core]); a [Session] is a run over the history of calls, as
    [M] is over the trace.  [hostAfter w h] is the host of the creation
    transaction as it answers once the history is [h]: [lift] runs a
    computation of [M] against it and appends what it did. *)

Module EnumEntry.

Record t : Type := mk {
  Id : string;
  SystemType : string;
  RuntimeOsType : string;
  State : string;
  Name : string;
  Owner : string
}.

End EnumEntry.

Inductive Call : Type :=
| Core (e : Event)
| EvOpenComputeSystem (id : string) (requestedAccess hr sys : Z)
| EvShutDownComputeSystem (sys op hr : Z)
| EvEnumerateComputeSystems (op hr : Z)
| EvGetComputeSystemProperties (sys op hr : Z)
| EvStat (name : string) (err : option error)
| EvReadFile (name data : string) (err : option error)
| EvStderrln (text : string)
| EvReport (err : error)
| EvTable (text : string)
| EvFlagUsage.

Definition History : Type := list Call.

Record System : Type := mkSystem {
  hostAfter : History → Host;
  HcsOpenComputeSystem : History → string → Z → Z * Z;
  HcsShutDownComputeSystem : History → Z → Z → Z;
  HcsEnumerateComputeSystems : History → Z → Z;
  HcsGetComputeSystemProperties : History → Z → Z → Z;
  os_Stat : History → string → option error;
  os_ReadFile : History → string → string * option error
}.

(** [encoding/json] as the other commands use it: decoding into
    [[]EnumEntry] and into a [json.RawMessage], and [json.MarshalIndent]
    with prefix "" and indent "  ". *)
Record Encoding : Type := mkEncoding {
  json_UnmarshalEntries : string → list EnumEntry.t * option error;
  json_UnmarshalRaw : string → RawMessage * option error;
  json_MarshalIndentRaw : RawMessage → string * option error;
  json_MarshalIndent : ComputeSystemSpec → string * option error
}.

Definition Session (A : Type) : Type := History → A * History.

Definition retS {A} (a : A) : Session A := λ h, (a, h).

Definition bindS {A B} (c : Session A) (k : A → Session B) : Session B :=
  λ h, let (a, h1) := c h in k a h1.

Definition write (c : Call) : Session unit := λ h, (tt, h ++ [c]).

Definition call {R} (answer : History → R) (ev : R → Call) : Session R :=
  λ h, let r := answer h in (r, h ++ [ev r]).

Declare Scope session_scope.
Delimit Scope session_scope with session.
Notation "'do' x <- c ; k" := (bindS c (λ x, k))
  (at level 10, x name, c at level 100, k at level 200) : session_scope.
Notation "'do' ' p <- c ; k" := (bindS c (λ x, match x with p => k end))
  (at level 10, p pattern, c at level 100, k at level 200) : session_scope.
Notation "c ;; k" := (bindS c (λ _, k))
  (at level 100, k at level 200, right associativity) : session_scope.

(** A [defer]red call runs when the function returns, whatever it returns. *)
Definition defer {A} (cleanup : Session unit) (body : Session A) : Session A :=
  (do r <- body; cleanup ;; retS r)%session.

Definition tab : string := String "009"%char EmptyString.

Definition quote : string := String "034"%char EmptyString.

Definition quoted (s : string) : string := quote +:+ s +:+ quote.

(** A line of a raw string literal: the line break, the tabs, the text. *)
Fixpoint tabs (n : nat) : string :=
  match n with
  | O => EmptyString
  | S n' => tab +:+ tabs n'
  end.

Definition line (depth : nat) (text : string) : string :=
  newline +:+ tabs depth +:+ text.

(** Go's [int] on the 64-bit platforms the Host Compute Service runs on. *)
Definition int (x : Z) : Z := (x + 2 ^ 63) mod 2 ^ 64 - 2 ^ 63.

Definition GENERIC_ALL : Z := 0x10000000.

(** The Chipset and ComputeTopology literals of [buildMinimalSpec]. *)
Definition chipsetLiteral : RawMessage :=
  "{" +:+ line 4 (quoted "Uefi" +:+ ": {") +:+
  line 5 (quoted "BootThis" +:+ ": {") +:+
  line 6 (quoted "DevicePath" +:+ ": " +:+ quoted "Primary" +:+ ",") +:+
  line 6 (quoted "DeviceType" +:+ ": " +:+ quoted "ScsiDrive" +:+ ",") +:+
  line 6 (quoted "DiskNumber" +:+ ": 0") +:+
  line 5 "}" +:+ line 4 "}" +:+ line 3 "}".

Definition computeTopologyLiteral (memoryMB cpuCount : Z) : RawMessage :=
  "{" +:+ line 4 (quoted "Memory" +:+ ": {") +:+
  line 5 (quoted "SizeInMB" +:+ ": " +:+ pretty memoryMB +:+ ",") +:+
  line 5 (quoted "AllowOvercommit" +:+ ": true") +:+
  line 4 "}," +:+
  line 4 (quoted "Processor" +:+ ": {") +:+
  line 5 (quoted "Count" +:+ ": " +:+ pretty cpuCount) +:+
  line 4 "}" +:+ line 3 "}".

(** The document [buildMinimalSpec] builds before it injects GPUs. *)
Definition minimalSpec (absPath : string) (memoryMB cpuCount : Z) : ComputeSystemSpec :=
  mkComputeSystemSpec "hcstool" (Some (mkSchemaVersion 2 1)) false
    (Some (mkVirtualMachineSpec true chipsetLiteral
             (computeTopologyLiteral memoryMB cpuCount)
             (Some (mkDevicesSpec
                      {[ "Primary" :=
                           Some (mkScsiController
                                   {[ "0" := Some (mkScsiAttachment "VirtualDisk"
                                                                    absPath) ]}) ]}
                      ∅ "" "" "" "" "")))).

(** The parsed flags of [hcstool create]. *)
Module CreateFlags.

Record t : Type := mk {
  specFile : string;
  vhdxPath : string;
  memoryMB : Z;
  cpuCount : Z;
  gpu : bool;
  name : string;
  dryRun : bool
}.

End CreateFlags.

Section Commands.

Local Open Scope session_scope.

Context (w : System) (enc : Encoding) (lib : Library) (order : RangeOrder).

Definition lift {A} (c : Host → M A) : Session A :=
  λ h, let (a, tr) := c (hostAfter w h) [] in (a, h ++ (Core <$> tr)).

Definition Println (text : string) : Session unit := write (Core (EvStdout text)).

Definition openComputeSystem (id : string) : Session (Z * option error) :=
  match UTF16PtrFromString id with
  | (_, Some err) => retS (0, Some (Errorf "invalid system id: %w" [] (Some err)))
  | (idPtr, None) =>
    do '(hr, sys) <-
      call (λ h, HcsOpenComputeSystem w h idPtr GENERIC_ALL)
           (λ r, EvOpenComputeSystem idPtr GENERIC_ALL (fst r) (snd r));
    if hrOK hr
    then retS (sys, None)
    else retS (0, Some (HcsError "HcsOpenComputeSystem" (uint32 hr) ""))
  end.

Definition shutdownComputeSystem (sys op : Z) : Session (option error) :=
  do hr <- call (λ h, HcsShutDownComputeSystem w h sys op)
                (EvShutDownComputeSystem sys op);
  if hrOK hr then retS None
  else retS (Some (HcsError "HcsShutDownComputeSystem" (uint32 hr) "")).

Definition enumerateComputeSystems : Session (string * option error) :=
  do '(op, err) <- lift createOperation;
  match err with
  | Some e => retS ("", Some e)
  | None =>
    defer (lift (λ host, closeOperation op))
      (do hr <- call (λ h, HcsEnumerateComputeSystems w h op)
                     (EvEnumerateComputeSystems op);
       if hrOK hr
       then lift (λ host, waitForResult host op infinite)
       else retS ("", Some (HcsError "HcsEnumerateComputeSystems" (uint32 hr) "")))
  end.

Definition getComputeSystemProperties (sys : Z) : Session (string * option error) :=
  do '(op, err) <- lift createOperation;
  match err with
  | Some e => retS ("", Some e)
  | None =>
    defer (lift (λ host, closeOperation op))
      (do hr <- call (λ h, HcsGetComputeSystemProperties w h sys op)
                     (EvGetComputeSystemProperties sys op);
       if hrOK hr
       then lift (λ host, waitForResult host op infinite)
       else retS ("", Some (HcsError "HcsGetComputeSystemProperties" (uint32 hr) "")))
  end.

(** [ListVMs]: the text handed to the [tabwriter] is the header and one row
    per entry; [EvTable] is its [Flush] to standard output. *)
Definition orDash (s : string) : string := if String.eqb s "" then "-" else s.

Definition tableHeader : string :=
  "ID" +:+ tab +:+ "TYPE" +:+ tab +:+ "STATE" +:+ tab +:+ "OWNER" +:+ tab +:+ "NAME"
  +:+ newline.

Definition tableRow (e : EnumEntry.t) : string :=
  EnumEntry.Id e +:+ tab +:+ EnumEntry.SystemType e +:+ tab +:+ EnumEntry.State e
  +:+ tab +:+ orDash (EnumEntry.Owner e) +:+ tab +:+ orDash (EnumEntry.Name e)
  +:+ newline.

Definition tableText (entries : list EnumEntry.t) : string :=
  tableHeader +:+ foldr (λ e rest, tableRow e +:+ rest) "" entries.

Definition ListVMs : Session (option error) :=
  do '(resultJSON, err) <- enumerateComputeSystems;
  match err with
  | Some e => retS (Some e)
  | None =>
    if String.eqb resultJSON "" || String.eqb resultJSON "[]"
    then Println "No compute systems found." ;; retS None
    else match json_UnmarshalEntries enc resultJSON with
         | (_, Some e) =>
             retS (Some (Errorf "failed to parse enumeration result: %w\n  raw: %s"
                                [resultJSON] (Some e)))
         | (entries, None) => write (EvTable (tableText entries)) ;; retS None
         end
  end.

Definition InspectVM (id : string) : Session (option error) :=
  do '(sys, err) <- openComputeSystem id;
  match err with
  | Some e => retS (Some e)
  | None =>
    defer (lift (λ host, closeComputeSystem sys))
      (do '(propsJSON, err) <- getComputeSystemProperties sys;
       match err with
       | Some e => retS (Some e)
       | None =>
         match json_UnmarshalRaw enc propsJSON with
         | (_, Some _) => Println propsJSON ;; retS None
         | (raw, None) =>
           match json_MarshalIndentRaw enc raw with
           | (_, Some _) => Println propsJSON ;; retS None
           | (pretty, None) => Println pretty ;; retS None
           end
         end
       end)
  end.

Definition StopVM (id : string) (timeoutMs : Z) : Session (option error) :=
  do '(sys, err) <- openComputeSystem id;
  match err with
  | Some e => retS (Some e)
  | None =>
    defer (lift (λ host, closeComputeSystem sys))
      (do '(op, err) <- lift createOperation;
       match err with
       | Some e => retS (Some e)
       | None =>
         defer (lift (λ host, closeOperation op))
           (do err <- shutdownComputeSystem sys op;
            match err with
            | Some e => retS (Some e)
            | None =>
              do '(_, err) <- lift (λ host, waitForResult host op timeoutMs);
              retS err
            end)
       end)
  end.

Definition KillVM (id : string) : Session (option error) :=
  do '(sys, err) <- openComputeSystem id;
  match err with
  | Some e => retS (Some e)
  | None =>
    defer (lift (λ host, closeComputeSystem sys))
      (do '(op, err) <- lift createOperation;
       match err with
       | Some e => retS (Some e)
       | None =>
         defer (lift (λ host, closeOperation op))
           (do err <- lift (λ host, terminateComputeSystem host sys op);
            match err with
            | Some e => retS (Some e)
            | None =>
              do '(_, err) <- lift (λ host, waitForResult host op 10000);
              retS err
            end)
       end)
  end.

(** *** The spec builder for quick-create mode *)

Definition buildMinimalSpec (vhdx : string) (memory cpus : Z)
    (gpuDevices : list GpuDevice) : Session (string * option error) :=
  match filepath_Abs lib vhdx with
  | (_, Some e) => retS ("", Some (Errorf "cannot resolve VHDX path: %w" [] (Some e)))
  | (absPath, None) =>
    do err <- call (λ h, os_Stat w h absPath) (EvStat absPath);
    match err with
    | Some e => retS ("", Some (Errorf "VHDX not found: %w" [] (Some e)))
    | None =>
      let spec := minimalSpec absPath memory cpus in
      let spec := if (0 <? length gpuDevices)%nat then injectGPU spec gpuDevices
                  else spec in
      match json_MarshalIndent enc spec with
      | (_, Some e) => retS ("", Some e)
      | (data, None) => retS (data, None)
      end
    end
  end.

Definition buildSpecFromFlags (vhdx : string) (memory cpus : Z) (addGPU : bool)
  : Session (string * option error) :=
  if addGPU then
    do '(gpuDevices, err) <- lift enumerateGPUs;
    match err with
    | Some e => retS ("", Some (Errorf "GPU enumeration failed: %w" [] (Some e)))
    | None =>
      if (length gpuDevices =? 0)%nat
      then retS ("", Some (Errorf "no GPUs found for GPU-PV" [] None))
      else
        lift (λ host,
              bind (emit (EvStderr "Found %d GPU(s) for GPU-PV:\n"
                                   [pretty (length gpuDevices)]))
                   (λ _, logGPUs gpuDevices)) ;;
        buildMinimalSpec vhdx memory cpus gpuDevices
    end
  else buildMinimalSpec vhdx memory cpus [].

Definition readSpecFile (path : string) : Session (string * option error) :=
  do '(data, err) <- call (λ h, os_ReadFile w h path)
                          (λ r, EvReadFile path (fst r) (snd r));
  match err with
  | Some e => retS ("", Some (Errorf "reading spec file: %w" [] (Some e)))
  | None =>
    match json_UnmarshalRaw enc data with
    | (_, Some e) => retS ("", Some (Errorf "spec file is not valid JSON: %w" []
                                            (Some e)))
    | (_, None) => retS (data, None)
    end
  end.

Definition printSpec (specJSON : string) : Session unit :=
  match json_UnmarshalRaw enc specJSON with
  | (_, Some _) => write (EvStderrln specJSON)
  | (raw, None) =>
    match json_MarshalIndentRaw enc raw with
    | (_, Some _) => write (EvStderrln specJSON)
    | (pretty, None) => write (EvStderrln pretty)
    end
  end.

(** *** The commands; each returns the exit status of the process, 1 where
    the Go code calls [os.Exit(1)] *)

(** [fmt.Fprintf(os.Stderr, "Error: %v\n", err)] and [os.Exit(1)]. *)
Definition fail (err : error) : Session Z := write (EvReport err) ;; retS 1.

Definition cmdCreate (flags : CreateFlags.t) : Session Z :=
  let specFile := CreateFlags.specFile flags in
  let vhdxPath := CreateFlags.vhdxPath flags in
  if String.eqb specFile "" && String.eqb vhdxPath "" then
    write (EvStderrln "Error: specify either --spec or --vhdx") ;;
    write EvFlagUsage ;;
    retS 1
  else if negb (String.eqb specFile "") && negb (String.eqb vhdxPath "") then
    write (EvStderrln "Error: --spec and --vhdx are mutually exclusive") ;; retS 1
  else
    do '(specJSON, err, addGPU) <-
      (if negb (String.eqb specFile "")
       then do '(specJSON, err) <- readSpecFile specFile;
            retS (specJSON, err, CreateFlags.gpu flags)
       else do '(specJSON, err) <-
              buildSpecFromFlags vhdxPath (CreateFlags.memoryMB flags)
                                 (CreateFlags.cpuCount flags) (CreateFlags.gpu flags);
            retS (specJSON, err, false));
    match err with
    | Some e => fail e
    | None =>
      if CreateFlags.dryRun flags then printSpec specJSON ;; retS 0
      else
        do err <- lift (λ host, CreateAndStartVM host lib order specJSON
                                                 (CreateFlags.name flags) addGPU);
        match err with
        | Some e => fail e
        | None => retS 0
        end
    end.

Definition cmdList : Session Z :=
  do err <- ListVMs;
  match err with
  | Some e => fail e
  | None => retS 0
  end.

Definition cmdInspect (args : list string) : Session Z :=
  match args with
  | [] => write (EvStderrln "Usage: hcstool inspect <vm-id>") ;; retS 1
  | id :: _ =>
    do err <- InspectVM id;
    match err with
    | Some e => fail e
    | None => retS 0
    end
  end.

(** [timeout] is the value of [--timeout], [remaining] what [fs.Args()]
    returns after the flags. *)
Definition cmdStop (timeout : Z) (remaining : list string) : Session Z :=
  match remaining with
  | [] => write (EvStderrln "Usage: hcstool stop <vm-id> [--timeout 30]") ;; retS 1
  | id :: _ =>
    let timeoutMs := uint32 (int (timeout * 1000)) in
    do err <- StopVM id timeoutMs;
    match err with
    | Some e => fail e
    | None => write (EvStderrln "Compute system shut down successfully.") ;; retS 0
    end
  end.

Definition cmdKill (args : list string) : Session Z :=
  match args with
  | [] => write (EvStderrln "Usage: hcstool kill <vm-id>") ;; retS 1
  | id :: _ =>
    do err <- KillVM id;
    match err with
    | Some e => fail e
    | None => write (EvStderrln "Compute system terminated.") ;; retS 0
    end
  end.

End Commands.

(** ** Observations on histories *)

(** The calls and writes of the kind the creation transaction makes. *)
Definition coreOf (c : Call) : option Event :=
  match c with Core e => Some e | _ => None end.

Abbreviation coreTrace := (omap coreOf).

(** The operation handle a call hands to the service, other than to close
    it. *)
Definition callOperationUsed (c : Call) : option Z :=
  match c with
  | Core e => operationUsed e
  | EvShutDownComputeSystem _ op _ => Some op
  | EvEnumerateComputeSystems op _ => Some op
  | EvGetComputeSystemProperties _ op _ => Some op
  | _ => None
  end.

(** The operation handles open after a history, starting from [open];
    [None] when a call is handed a handle that is not open, or a handle is
    closed that is not open. *)
Fixpoint sessionOperations (h : History) (open : list Z) : option (list Z) :=
  match h with
  | [] => Some open
  | c :: rest =>
    if match callOperationUsed c with
       | Some op => bool_decide (op ∈ open)
       | None => true
       end
    then match c with
         | Core (EvCreateOperation r1) =>
             sessionOperations rest (if r1 =? 0 then open else r1 :: open)
         | Core (EvCloseOperation op) =>
             match removeFirst op open with
             | Some open' => sessionOperations rest open'
             | None => None
             end
         | _ => sessionOperations rest open
         end
    else None
  end.

(** The compute-system handle against the calls of a history: an accepted
    [HcsOpenComputeSystem] or [HcsCreateComputeSystem] hands one out, the
    other calls use it, [HcsCloseComputeSystem] releases it. *)
Definition sessionSystemStep (st : SystemState) (c : Call) : option SystemState :=
  match c with
  | Core e => systemStep st e
  | EvOpenComputeSystem _ _ hr sys =>
      if hrOK hr
      then match st with NoSystem => Some (Held sys) | _ => None end
      else Some st
  | EvShutDownComputeSystem sys _ _ => if holds st sys then Some st else None
  | EvGetComputeSystemProperties sys _ _ => if holds st sys then Some st else None
  | _ => Some st
  end.

Fixpoint sessionSystem (h : History) (st : SystemState) : option SystemState :=
  match h with
  | [] => Some st
  | c :: rest =>
    match sessionSystemStep st c with
    | Some st' => sessionSystem rest st'
    | None => None
    end
  end.

(** No handle is left behind: the process holds no compute system, or only
    the NULL handle, which [closeComputeSystem] leaves alone. *)
Definition noSystemLeft (st : SystemState) : Prop :=
  match st with
  | Held sys => sys = 0
  | _ => True
  end.

(** The shutdown requests of a history: handle, operation, status. *)
Definition shutdownOf (c : Call) : option (Z * Z * Z) :=
  match c with EvShutDownComputeSystem sys op hr => Some (sys, op, hr) | _ => None end.

Abbreviation shutdowns := (omap shutdownOf).

Definition tableOf (c : Call) : option string :=
  match c with EvTable text => Some text | _ => None end.

Abbreviation tables := (omap tableOf).

Definition statOf (c : Call) : option (string * option error) :=
  match c with EvStat name err => Some (name, err) | _ => None end.

Abbreviation stats := (omap statOf).

(** ** The shapes of the runs of the other commands *)

Definition closeSystemCalls (sys : Z) : History := Core <$> closeSystemEvents sys.

(** A failed [openComputeSystem]: rejected by the service, or not passed to
    it because the identity has a NUL in it. *)
Inductive OpenFailure (id : string) : History → error → Prop :=
| OpenBadID :
    hasNUL id = true →
    OpenFailure id [] (Errorf "invalid system id: %w" [] (Some EINVAL))
| OpenRejected hr sys :
    hasNUL id = false → hrOK hr = false →
    OpenFailure id [EvOpenComputeSystem id GENERIC_ALL hr sys]
      (HcsError "HcsOpenComputeSystem" (uint32 hr) "").

(** One request under an operation of its own: the operation is created,
    the request [request op hr] is made, its result is waited for with
    [timeoutMs], the operation is closed.  [opName] names the request in the
    error. *)
Inductive RequestRun (request : Z → Z → Call) (opName : string) (timeoutMs : Z)
  : string * option error → History → Prop :=
| RequestNoOperation :
    RequestRun request opName timeoutMs
      ("", Some (Errorf "HcsCreateOperation returned NULL" [] None))
      [Core (EvCreateOperation 0)]
| RequestRejected op hr :
    op ≠ 0 → hrOK hr = false →
    RequestRun request opName timeoutMs
      ("", Some (HcsError opName (uint32 hr) ""))
      [Core (EvCreateOperation op); request op hr; Core (EvCloseOperation op)]
| RequestWaited op hr whr doc :
    op ≠ 0 → hrOK hr = true →
    RequestRun request opName timeoutMs
      (default "" doc,
       if hrOK whr then None
       else Some (HcsError "HcsWaitForOperationResult" (uint32 whr) (default "" doc)))
      [Core (EvCreateOperation op); request op hr;
       Core (EvWaitForOperationResult op timeoutMs whr doc);
       Core (EvCloseOperation op)].

(** [StopVM] and [KillVM]: the compute system is opened, one request is made
    on it, the handle is released. *)
Inductive ControlRun (id : string) (request : Z → Z → Z → Call) (opName : string)
    (timeoutMs : Z) : option error → History → Prop :=
| ControlNotOpened failure e :
    OpenFailure id failure e →
    ControlRun id request opName timeoutMs (Some e) failure
| ControlOpened hr sys doc res evs :
    hasNUL id = false → hrOK hr = true →
    RequestRun (request sys) opName timeoutMs (doc, res) evs →
    ControlRun id request opName timeoutMs res
      ([EvOpenComputeSystem id GENERIC_ALL hr sys] ++ evs ++ closeSystemCalls sys).

Definition terminateCall (sys op hr : Z) : Call := Core (EvTerminateComputeSystem sys op hr).

(** [InspectVM]. *)
Inductive InspectRun (enc : Encoding) (id : string) : option error → History → Prop :=
| InspectNotOpened failure e :
    OpenFailure id failure e → InspectRun enc id (Some e) failure
| InspectNoProperties hr sys doc e evs :
    hasNUL id = false → hrOK hr = true →
    RequestRun (EvGetComputeSystemProperties sys) "HcsGetComputeSystemProperties"
               infinite (doc, Some e) evs →
    InspectRun enc id (Some e)
      ([EvOpenComputeSystem id GENERIC_ALL hr sys] ++ evs ++ closeSystemCalls sys)
| InspectPrinted hr sys propsJSON evs text :
    hasNUL id = false → hrOK hr = true →
    RequestRun (EvGetComputeSystemProperties sys) "HcsGetComputeSystemProperties"
               infinite (propsJSON, None) evs →
    (text = propsJSON ∨
     ∃ raw, json_UnmarshalRaw enc propsJSON = (raw, None) ∧
            json_MarshalIndentRaw enc raw = (text, None)) →
    InspectRun enc id None
      ([EvOpenComputeSystem id GENERIC_ALL hr sys] ++ evs ++ [Core (EvStdout text)]
       ++ closeSystemCalls sys).

(** [ListVMs]. *)
Inductive ListRun (enc : Encoding) : option error → History → Prop :=
| ListNotEnumerated doc e evs :
    RequestRun EvEnumerateComputeSystems "HcsEnumerateComputeSystems" infinite
               (doc, Some e) evs →
    ListRun enc (Some e) evs
| ListNone resultJSON evs :
    RequestRun EvEnumerateComputeSystems "HcsEnumerateComputeSystems" infinite
               (resultJSON, None) evs →
    resultJSON = "" ∨ resultJSON = "[]" →
    ListRun enc None (evs ++ [Core (EvStdout "No compute systems found.")])
| ListUnparsed resultJSON evs entries e :
    RequestRun EvEnumerateComputeSystems "HcsEnumerateComputeSystems" infinite
               (resultJSON, None) evs →
    resultJSON ≠ "" → resultJSON ≠ "[]" →
    json_UnmarshalEntries enc resultJSON = (entries, Some e) →
    ListRun enc
      (Some (Errorf "failed to parse enumeration result: %w\n  raw: %s"
                    [resultJSON] (Some e)))
      evs
| ListTable resultJSON evs entries :
    RequestRun EvEnumerateComputeSystems "HcsEnumerateComputeSystems" infinite
               (resultJSON, None) evs →
    resultJSON ≠ "" → resultJSON ≠ "[]" →
    json_UnmarshalEntries enc resultJSON = (entries, None) →
    ListRun enc None (evs ++ [EvTable (tableText entries)]).

(** The terminate requests of a trace: handle, operation, status. *)
Definition terminationOf (e : Event) : option (Z * Z * Z) :=
  match e with EvTerminateComputeSystem sys op hr => Some (sys, op, hr) | _ => None end.

Abbreviation terminations := (omap terminationOf).

(** A request call: it uses its operation and is not itself the creation or
    the closing of one. *)
Definition isRequest (request : Z → Z → Call) : Prop :=
  ∀ op hr, callOperationUsed (request op hr) = Some op ∧
           (∀ e, request op hr = Core e →
                 isCreateOperation e = false ∧ isCloseOperation e = false).

(** The waits of a history. *)
Abbreviation sessionWaits := (λ h : History, waits (coreTrace h)).

(** The lines a history wrote on standard output. *)
Abbreviation sessionStdout := (λ h : History, stdout (coreTrace h)).

(** A call to the Host Compute Service, as opposed to a call to SetupAPI, to
    the GUID generator or to the file system, and to a write. *)
Definition isServiceCall (c : Call) : bool :=
  match c with
  | Core (EvStderr _ _) | Core (EvStdout _) | Core (EvEnumerateGPUs _ _)
  | Core (EvGenerateGUID _ _) => false
  | Core _ => true
  | EvOpenComputeSystem _ _ _ _ | EvShutDownComputeSystem _ _ _
  | EvEnumerateComputeSystems _ _ | EvGetComputeSystemProperties _ _ _ => true
  | _ => false
  end.

(** A stretch of history without a call to the Host Compute Service. *)
Definition quiet (h : History) : Prop := Forall (λ c, isServiceCall c = false) h.

(** ** A reference system for the other commands *)

(** A system on which every call succeeds: the service opens any compute
    system as handle 0x9000, every file exists and reads as [{}]. *)
Definition exampleSystem : System :=
  mkSystem (λ _, faultyHost noFaults)
           (λ _ _ _, (0, 0x9000)) (λ _ _ _, 0) (λ _ _, 0) (λ _ _ _, 0)
           (λ _ _, None) (λ _ _, ("{}", None)).

(** A stand-in for [encoding/json] that leaves raw text as it is and writes
    a document as the reference [json.Marshal] does. *)
Definition exampleEncoding : Encoding :=
  mkEncoding (λ _, ([], None)) (λ s, (s, None)) (λ s, (s, None)) exampleMarshal.

(** * The model on examples *)

Example hrOK_S_OK : hrOK 0 = true.
Proof. reflexivity. Qed.

Example hrOK_S_FALSE : hrOK 1 = true.
Proof. reflexivity. Qed.

Example hrOK_E_ACCESSDENIED : hrOK E_ACCESSDENIED = false.
Proof. reflexivity. Qed.

Example Trim_braces : Trim "{{ab}c}}" "{}" = "ab}c".
Proof. reflexivity. Qed.

Example vmIDOf_exampleGUID : vmIDOf exampleGUID = "1234ABCD-BEEF-0012-0001-02FFFE100708".
Proof. reflexivity. Qed.

Example Abs_relative :
  WinPath.Abs "C:\work" "disks\a.vhdx" = ("C:\work\disks\a.vhdx", None).
Proof. reflexivity. Qed.

Example Abs_dot_dot :
  WinPath.Abs "C:\work" "C:\vms\..\disk.vhdx" = ("C:\disk.vhdx", None).
Proof. reflexivity. Qed.

Example Abs_slashes :
  WinPath.Abs "C:\work" "..\..\a//b/./c\" = ("C:\a\b\c", None).
Proof. reflexivity. Qed.

Example IsAbs_empty : WinPath.IsAbs "" = false.
Proof. reflexivity. Qed.

Example IsAbs_forms :
  map WinPath.IsAbs
      ["C:\a"; "1:\a"; "\\server\share\x"; "\\?\C:\x"; "//./UNC/h/s";
       "\x"; "C:x"; "C:"; "x\y"]
    = [true; true; true; true; true; false; false; false; false].
Proof. reflexivity. Qed.

Example volumeNameLen_forms :
  map WinPath.volumeNameLen
      ["C:\a"; "\\host\share\x"; "\\.\unc\host\share\x"; "\\?\C:\x"; "\x"]
    = [2; 12; 18; 6; 0]%nat.
Proof. reflexivity. Qed.

Example Abs_rooted : WinPath.Abs "C:\work" "\x" = ("C:\x", None).
Proof. reflexivity. Qed.

Example Abs_no_answer :
  map (WinPath.Abs "C:\work") ["C:\a\b."; "nul"; "\\server\share\x"; "C:x"]
    = [("", Some WinPath.unsupported); ("", Some WinPath.unsupported);
       ("", Some WinPath.unsupported); ("", Some WinPath.unsupported)].
Proof. reflexivity. Qed.

Example track_double_close :
  trackOperations [EvCreateOperation 5; EvCloseOperation 5; EvCloseOperation 5] [] = None.
Proof. reflexivity. Qed.

Example track_leak : trackOperations [EvCreateOperation 5] [] = Some [5].
Proof. reflexivity. Qed.

Example track_NULL : trackOperations [EvCreateOperation 0] [] = Some [].
Proof. reflexivity. Qed.

Example resolve_threeDisks :
  extractVHDPaths keyOrder resolvedThreeDisks =
    ["C:\work\data.vhdx"; "D:\pool\scratch.vhdx"; "C:\vm\boot.vhdx"].
Proof. vm_compute. reflexivity. Qed.

Example run_without_faults :
  fst (exampleRun noFaults "three-disks.json" false) = None ∧
  stdout (snd (exampleRun noFaults "three-disks.json" false)) =
    ["1234ABCD-BEEF-0012-0001-02FFFE100708"].
Proof. split; vm_compute; reflexivity. Qed.

Example run_with_third_grant_failing :
  revoked (snd (exampleRun (withGrantFault 2) "three-disks.json" false)) =
    [("1234ABCD-BEEF-0012-0001-02FFFE100708", "C:\work\data.vhdx");
     ("1234ABCD-BEEF-0012-0001-02FFFE100708", "D:\pool\scratch.vhdx")].
Proof. vm_compute. reflexivity. Qed.

Example run_with_document_not_parsing :
  exampleRun noFaults "missing.json" false =
    (Some (Errorf "invalid JSON spec: %w" [] (Some (ExternalError "invalid character"))),
     []).
Proof. vm_compute. reflexivity. Qed.

(** * Runs have the shapes *)

Section RunShapes.

Context (host : Host).

Lemma app_snoc {A} (l : list A) (x : A) (l' : list A) :
  (l ++ [x]) ++ l' = l ++ x :: l'.
Proof. by rewrite <- app_assoc. Qed.

Lemma closeComputeSystem_run sys tr :
  closeComputeSystem sys tr = (tt, tr ++ closeSystemEvents sys).
Proof.
  unfold closeComputeSystem, closeSystemEvents.
  destruct (sys =? 0); unfold ret, emit; by rewrite ?app_nil_r.
Qed.

Lemma closeOperation_run op tr :
  op ≠ 0 → closeOperation op tr = (tt, tr ++ [EvCloseOperation op]).
Proof.
  intros Hop. unfold closeOperation.
  by destruct (Z.eqb_spec op 0).
Qed.

Lemma createOperation_run tr :
  let r1 := HcsCreateOperation host tr in
  createOperation host tr =
    (if r1 =? 0
     then (0, Some (Errorf "HcsCreateOperation returned NULL" [] None))
     else (r1, None),
     tr ++ [EvCreateOperation r1]).
Proof.
  unfold createOperation, bind, ask. simpl.
  by destruct (HcsCreateOperation host tr =? 0).
Qed.

Lemma waitForResult_run op timeoutMs tr :
  waitForResult host op timeoutMs tr =
    let r := HcsWaitForOperationResult host tr op timeoutMs in
    ((default "" (snd r),
      if hrOK (fst r) then None
      else Some (HcsError "HcsWaitForOperationResult" (uint32 (fst r))
                          (default "" (snd r)))),
     tr ++ [EvWaitForOperationResult op timeoutMs (fst r) (snd r)]).
Proof.
  unfold waitForResult, bind, ask.
  destruct (HcsWaitForOperationResult host tr op timeoutMs) as [hr doc]; simpl.
  by destruct (hrOK hr).
Qed.

Lemma startComputeSystem_run sys op tr :
  startComputeSystem host sys op tr =
    let hr := HcsStartComputeSystem host tr sys op in
    (if hrOK hr then None
     else Some (HcsError "HcsStartComputeSystem" (uint32 hr) ""),
     tr ++ [EvStartComputeSystem sys op hr]).
Proof.
  unfold startComputeSystem, bind, ask. simpl.
  by destruct (hrOK _).
Qed.

Lemma terminateComputeSystem_run sys op tr :
  ∃ err, terminateComputeSystem host sys op tr =
    (err, tr ++ [EvTerminateComputeSystem sys op
                   (HcsTerminateComputeSystem host tr sys op)]).
Proof.
  unfold terminateComputeSystem, bind, ask.
  destruct (hrOK _); eauto.
Qed.

Lemma revokeAll_run vmID paths tr :
  Grantable vmID paths →
  ∃ hrs, length hrs = length paths ∧
         revokeAll host vmID paths tr = (tt, tr ++ revokeEvents vmID paths hrs).
Proof.
  intros [Hpaths HvmID]. revert tr.
  induction paths as [|p rest IH]; intros tr.
  - exists []. by rewrite app_nil_r.
  - apply Forall_cons in Hpaths as [Hp Hrest].
    assert (hasNUL vmID = false) as Hv by by apply HvmID.
    destruct (IH Hrest (λ _, Hv)
                (tr ++ [EvRevokeVmAccess vmID p (HcsRevokeVmAccess host tr vmID p)]))
      as (hrs & Hlen & Hrun).
    exists (HcsRevokeVmAccess host tr vmID p :: hrs). split; [simpl; lia|].
    simpl. unfold bind, revokeVmAccess, UTF16PtrFromString. rewrite Hv, Hp.
    unfold bind, ask.
    destruct (hrOK _); unfold ret; rewrite Hrun; by rewrite app_snoc.
Qed.

Lemma terminateAndClose_run sys tr :
  ∃ evs, terminateAndClose host sys tr = (tt, tr ++ evs) ∧ TerminateRun sys evs.
Proof.
  unfold terminateAndClose, bind. rewrite createOperation_run.
  destruct (Z.eqb_spec (HcsCreateOperation host tr) 0) as [Hz|Hnz].
  - rewrite Hz, closeComputeSystem_run. eexists. split; [by rewrite app_snoc|].
    constructor.
  - set (op := HcsCreateOperation host tr) in *.
    destruct (terminateComputeSystem_run sys op (tr ++ [EvCreateOperation op]))
      as [err ->].
    rewrite waitForResult_run. cbv beta iota zeta.
    rewrite closeOperation_run by done. rewrite closeComputeSystem_run.
    eexists. split; [|by apply (TerminateIssued sys op)].
    by rewrite <- !app_assoc.
Qed.

Lemma grantVmAccess_run vmID p tr :
  (∃ hr, hasNUL vmID = false ∧ hasNUL p = false ∧ hrOK hr = true ∧
         grantVmAccess host vmID p tr = (None, tr ++ [EvGrantVmAccess vmID p hr])) ∨
  (∃ failure e, GrantFailure vmID p failure e ∧
                grantVmAccess host vmID p tr = (Some e, tr ++ failure)).
Proof.
  unfold grantVmAccess, UTF16PtrFromString.
  destruct (hasNUL vmID) eqn:Hv.
  { right. do 2 eexists. split; [by apply GrantBadID|]. by rewrite app_nil_r. }
  destruct (hasNUL p) eqn:Hp.
  { right. do 2 eexists. split; [by apply GrantBadPath|]. by rewrite app_nil_r. }
  unfold bind, ask.
  destruct (hrOK (HcsGrantVmAccess host tr vmID p)) eqn:Hhr.
  - left. eauto.
  - right. do 2 eexists. split; [by apply GrantRejected|]. done.
Qed.

Lemma Grantable_nil vmID : Grantable vmID [].
Proof. split; [constructor|done]. Qed.

Lemma Grantable_snoc vmID paths p :
  Grantable vmID paths → hasNUL vmID = false → hasNUL p = false →
  Grantable vmID (paths ++ [p]).
Proof.
  intros [Hall _] Hv Hp. split; [|done].
  apply Forall_app. split; [done|]. by constructor.
Qed.

Lemma grantLoop_cons vmID p rest grantedPaths tr :
  grantLoop host vmID (p :: rest) grantedPaths tr =
    let (err, tr2) :=
      grantVmAccess host vmID p (tr ++ [EvStderr "  Granting VM access to %s\n" [p]]) in
    match err with
    | Some e =>
        let (_, tr3) := revokeAll host vmID grantedPaths tr2 in
        ((grantedPaths, Some (Errorf "grant VM access: %w" [] (Some e))), tr3)
    | None => grantLoop host vmID rest (grantedPaths ++ [p]) tr2
    end.
Proof.
  simpl. unfold bind, emit.
  destruct (grantVmAccess host vmID p _) as [[e|] tr2]; [|done].
  by destruct (revokeAll host vmID grantedPaths tr2).
Qed.

Lemma grantLoop_run vmID paths :
  ∀ grantedPaths tr, Grantable vmID grantedPaths →
  (∃ K p hrs failure e rhrs,
      paths !! K = Some p ∧ length hrs = K ∧ Forall (λ hr, hrOK hr = true) hrs ∧
      GrantFailure vmID p failure e ∧
      length rhrs = length (grantedPaths ++ take K paths) ∧
      grantLoop host vmID paths grantedPaths tr =
        ((grantedPaths ++ take K paths,
          Some (Errorf "grant VM access: %w" [] (Some e))),
         tr ++ grantEvents vmID (take K paths) hrs
            ++ [EvStderr "  Granting VM access to %s\n" [p]] ++ failure
            ++ revokeEvents vmID (grantedPaths ++ take K paths) rhrs)) ∨
  (∃ hrs,
      length hrs = length paths ∧ Forall (λ hr, hrOK hr = true) hrs ∧
      Grantable vmID (grantedPaths ++ paths) ∧
      grantLoop host vmID paths grantedPaths tr =
        ((grantedPaths ++ paths, None), tr ++ grantEvents vmID paths hrs)).
Proof.
  induction paths as [|p rest IH]; intros grantedPaths tr HG.
  - right. exists []. rewrite app_nil_r. split_and!; try done.
    simpl. by rewrite app_nil_r.
  - rewrite grantLoop_cons.
    set (tr1 := tr ++ [EvStderr "  Granting VM access to %s\n" [p]]).
    destruct (grantVmAccess_run vmID p tr1)
      as [(hr & Hv & Hp & Hhr & ->)|(failure & e & Hfail & ->)].
    + destruct (IH (grantedPaths ++ [p]) (tr1 ++ [EvGrantVmAccess vmID p hr])
                  (Grantable_snoc _ _ _ HG Hv Hp))
        as [(K & q & hrs & failure & e & rhrs & Hq & Hlen & Hok & Hfail & Hr & ->)
           |(hrs & Hlen & Hok & HG' & ->)].
      * left. exists (S K), q, (hr :: hrs), failure, e, rhrs.
        rewrite <- !(app_assoc grantedPaths) in *.
        split_and!; try done; [simpl; lia|by constructor|].
        subst tr1. simpl. by rewrite <- !app_assoc.
      * right. exists (hr :: hrs). rewrite <- !(app_assoc grantedPaths) in *.
        split_and!; try done; [simpl; lia|by constructor|].
        subst tr1. simpl. by rewrite <- !app_assoc.
    + left. destruct (revokeAll_run vmID grantedPaths (tr1 ++ failure) HG)
        as (rhrs & Hlen & ->).
      exists 0%nat, p, [], failure, e, rhrs. simpl. rewrite !app_nil_r.
      split_and!; try done.
      subst tr1. by rewrite <- !app_assoc.
Qed.

Lemma startPhase_run vmID sys paths tr :
  Grantable vmID paths →
  ∃ res evs, startPhase host vmID sys paths tr = (res, tr ++ evs) ∧
             StartRun vmID sys paths res evs.
Proof.
  intros HG. unfold startPhase. unfold bind at 1. rewrite createOperation_run.
  cbv zeta. set (op2 := HcsCreateOperation host tr).
  destruct (Z.eqb_spec op2 0) as [Hz|Hnz].
  - unfold bind.
    destruct (terminateAndClose_run sys (tr ++ [EvCreateOperation op2]))
      as (term & -> & Hterm).
    destruct (revokeAll_run vmID paths ((tr ++ [EvCreateOperation op2]) ++ term) HG)
      as (rhrs & Hlen & ->).
    do 2 eexists. split; [by rewrite <- !app_assoc|].
    rewrite Hz. by apply StartNoOperation.
  - unfold bind at 1. rewrite startComputeSystem_run. cbv zeta.
    set (tr1 := tr ++ [EvCreateOperation op2]).
    set (hr := HcsStartComputeSystem host tr1 sys op2).
    destruct (hrOK hr) eqn:Hhr.
    + unfold bind at 1. rewrite waitForResult_run. cbv beta iota zeta.
      set (tr2 := tr1 ++ [EvStartComputeSystem sys op2 hr]).
      destruct (HcsWaitForOperationResult host tr2 op2 infinite) as [whr doc] eqn:Hw.
      simpl fst; simpl snd. unfold bind at 1.
      rewrite closeOperation_run by done.
      destruct (hrOK whr) eqn:Hwhr.
      * unfold bind, emit, ret. rewrite closeComputeSystem_run.
        do 2 eexists. split; [|by apply (StartDone vmID sys paths op2 hr whr doc)].
        subst tr2 tr1. by rewrite <- !app_assoc.
      * unfold bind.
        match goal with |- context [terminateAndClose host sys ?t] =>
          destruct (terminateAndClose_run sys t) as (term & -> & Hterm) end.
        match goal with |- context [revokeAll host vmID paths ?t] =>
          destruct (revokeAll_run vmID paths t HG) as (rhrs & Hlen & ->) end.
        do 2 eexists.
        split; [|by apply (StartWaitFailed vmID sys paths op2 hr whr doc term rhrs)].
        subst tr2 tr1. unfold ret. by rewrite <- !app_assoc.
    + unfold bind. rewrite closeOperation_run by done.
      match goal with |- context [terminateAndClose host sys ?t] =>
        destruct (terminateAndClose_run sys t) as (term & -> & Hterm) end.
      match goal with |- context [revokeAll host vmID paths ?t] =>
        destruct (revokeAll_run vmID paths t HG) as (rhrs & Hlen & ->) end.
      do 2 eexists.
      split; [|by apply (StartRejected vmID sys paths op2 hr term rhrs)].
      subst tr1. unfold ret. by rewrite <- !app_assoc.
Qed.

End RunShapes.

Ltac run_revokeAll HG :=
  match goal with
  | |- context [revokeAll ?h ?v ?ps ?t] =>
      let rhrs := fresh "rhrs" in
      let Hlen := fresh "Hlen" in
      destruct (revokeAll_run h v ps t HG) as (rhrs & Hlen & ->)
  end.

Ltac run_terminateAndClose :=
  match goal with
  | |- context [terminateAndClose ?h ?sys ?t] =>
      let term := fresh "term" in
      let Hterm := fresh "Hterm" in
      destruct (terminateAndClose_run h sys t) as (term & -> & Hterm)
  end.

Lemma createPhase_run host vmID finalJSON paths tr :
  Grantable vmID paths →
  ∃ res evs, createPhase host vmID finalJSON paths tr = (res, tr ++ evs) ∧
             CreateRun vmID finalJSON paths res evs.
Proof.
  intros HG. unfold createPhase. unfold bind at 1. rewrite createOperation_run.
  cbv zeta. set (op := HcsCreateOperation host tr).
  set (tr1 := tr ++ [EvCreateOperation op]).
  destruct (Z.eqb_spec op 0) as [Hz|Hnz].
  { unfold bind.
    run_revokeAll HG.
    do 2 eexists. split; [subst tr1; by rewrite <- !app_assoc|].
    rewrite Hz. by apply CreateNoOperation. }
  unfold bind at 1. unfold createComputeSystem, UTF16PtrFromString.
  destruct (hasNUL vmID) eqn:Hv; [|destruct (hasNUL finalJSON) eqn:Hc].
  1-2: unfold ret at 1; unfold bind at 1; rewrite waitForResult_run;
    cbv beta iota zeta;
    destruct (HcsWaitForOperationResult host tr1 op infinite) as [whr doc] eqn:Hw;
    simpl fst; simpl snd; unfold bind;
    rewrite closeOperation_run by done;
    run_revokeAll HG;
    do 2 eexists;
    (split; [subst tr1; unfold ret; by rewrite <- !app_assoc|]);
    apply CreateNotSubmitted; auto.
  unfold bind at 1, ask.
  destruct (HcsCreateComputeSystem host tr1 vmID finalJSON op) as [hr sys] eqn:Hcr.
  simpl fst; simpl snd.
  set (tr2 := tr1 ++ [EvCreateComputeSystem vmID finalJSON op hr sys]).
  destruct (hrOK hr) eqn:Hhr; unfold ret at 1; unfold bind at 1;
    rewrite waitForResult_run; cbv beta iota zeta;
    destruct (HcsWaitForOperationResult host tr2 op infinite) as [whr doc] eqn:Hw;
    simpl fst; simpl snd; unfold bind at 1;
    rewrite closeOperation_run by done.
  - destruct (hrOK whr) eqn:Hwhr.
    + match goal with |- context [startPhase host vmID sys paths ?t] =>
        destruct (startPhase_run host vmID sys paths t HG)
          as (res & rest & -> & Hrest) end.
      do 2 eexists.
      split; [|by apply (CreateDone vmID finalJSON paths op hr sys whr doc res rest)].
      subst tr2 tr1. by rewrite <- !app_assoc.
    + unfold bind.
      run_revokeAll HG.
      do 2 eexists.
      split; [|by apply (CreateWaitFailed vmID finalJSON paths op hr sys whr doc rhrs)].
      subst tr2 tr1.
      destruct (String.eqb (default "" doc) ""); unfold ret, emit;
        rewrite <- ?app_assoc; simpl; by rewrite ?app_nil_r.
  - unfold bind.
    run_revokeAll HG.
    do 2 eexists.
    split; [|by apply (CreateRejected vmID finalJSON paths op hr sys whr doc rhrs)].
    subst tr2 tr1. unfold ret. by rewrite <- !app_assoc.
Qed.


Lemma logGPUs_run gpus tr :
  logGPUs gpus tr =
    (tt, tr ++ map (λ g, EvStderr "  %s (%s)\n" [Name g; InstanceID g]) gpus).
Proof.
  revert tr. induction gpus as [|g rest IH]; intros tr; simpl.
  - by rewrite app_nil_r.
  - unfold bind, emit. rewrite IH. by rewrite <- app_assoc.
Qed.

Lemma CreateAndStartVM_run host lib order specJSON name addGPU tr :
  ∃ res evs,
    CreateAndStartVM host lib order specJSON name addGPU tr = (res, tr ++ evs) ∧
    TransactionRun lib order specJSON name addGPU res evs.
Proof.
  unfold CreateAndStartVM.
  destruct (json_Unmarshal lib specJSON) as [parsed [e|]] eqn:Hparse.
  { exists (Some (Errorf "invalid JSON spec: %w" [] (Some e))), [].
    split; [by rewrite app_nil_r|]. by eapply RunInvalidSpec. }
  destruct (makePathsAbsolute lib order (defaultOwner parsed)) as [spec [e|]] eqn:Hres.
  { exists (Some e), []. split; [by rewrite app_nil_r|]. by eapply RunUnresolved. }
  assert (Resolved lib order specJSON spec) as Hresolved by by exists parsed.
  assert (∃ r pre, injectIfRequested host spec addGPU tr = (r, tr ++ pre) ∧
            ((∃ final, r = (final, None) ∧ InjectRun addGPU spec final pre) ∨
             (∃ d e, r = (d, Some e) ∧
                TransactionRun lib order specJSON name addGPU (Some e) pre)))
    as (r & pre & Hinj & Hcases).
  { unfold injectIfRequested. destruct addGPU.
    - unfold bind at 1, enumerateGPUs, ask.
      destruct (SetupDiDisplayAdapters host tr) as [gpus [e|]] eqn:Henum; simpl.
      + do 2 eexists. split; [done|]. right. do 2 eexists. split; [done|].
        by eapply RunEnumerationFailed.
      + destruct gpus as [|g gpus]; simpl.
        * do 2 eexists. split; [done|]. right. do 2 eexists. split; [done|].
          by eapply RunNoGPU.
        * unfold bind, emit. rewrite logGPUs_run. unfold ret.
          exists (injectGPU spec (g :: gpus), None), (injectEvents (g :: gpus)).
          split; [unfold injectEvents; simpl; by rewrite <- !app_assoc|].
          left. eexists. split; [done|]. by constructor.
    - exists (spec, None), []. split; [by rewrite app_nil_r|].
      left. eexists. split; [done|]. by constructor. }
  unfold bind at 1. rewrite Hinj.
  destruct Hcases as [(final & -> & Hinject)|(d & e & -> & Hrun)];
    [|by exists (Some e), pre].
  destruct (json_Marshal lib final) as [finalJSON [e|]] eqn:Hmarshal.
  { do 2 eexists. split; [done|]. by eapply RunUnserializable. }
  unfold bind at 1, GenerateGUID, ask.
  destruct (CoCreateGuid host (tr ++ pre)) as [guid [e|]] eqn:Hguid; simpl.
  { do 2 eexists. split; [by rewrite <- app_assoc|]. by eapply RunNoGUID. }
  unfold bind at 1, emit. unfold bind at 1.
  set (vmID := vmIDOf guid).
  set (tr1 := ((tr ++ pre) ++ [EvGenerateGUID guid None]) ++ [creatingEvent name vmID]).
  destruct (grantLoop_run host vmID (extractVHDPaths order final) [] tr1
              (Grantable_nil vmID))
    as [(K & p & hrs & failure & e & rhrs & Hp & Hlen & Hok & Hfail & Hr & ->)
       |(hrs & Hlen & Hok & HG & ->)]; simpl app in *.
  - rewrite length_take_le in Hr by (apply lookup_lt_Some in Hp; lia).
    do 2 eexists.
    split; [|eapply RunGrants; try done;
             by apply (GrantFailed _ _ _ K p hrs failure e rhrs)].
    subst tr1. unfold ret. by rewrite <- !app_assoc.
  - destruct (createPhase_run host vmID finalJSON (extractVHDPaths order final)
                (tr1 ++ grantEvents vmID (extractVHDPaths order final) hrs) HG)
      as (res & rest & -> & Hrest).
    do 2 eexists. split; [|eapply RunGrants; try done; by eapply GrantsDone].
    subst tr1. by rewrite <- !app_assoc.
Qed.

(** * Observations on the shapes *)

(** Goals [∀ e, ofKinds ks e = true → ...], by cases on the event. *)
Ltac by_kinds :=
  intros []; unfold ofKinds; simpl;
  repeat (destruct (String.eqb _ grantLogFormat); simpl);
  try intros ?; by repeat case_match.

Lemma count_app f (a b : Trace) : count f (a ++ b) = (count f a + count f b)%nat.
Proof. unfold count. by rewrite List.filter_app, length_app. Qed.

Lemma trackOperations_app (a b : Trace) open :
  trackOperations (a ++ b) open = trackOperations a open ≫= trackOperations b.
Proof.
  revert open. induction a as [|e a IH]; intros open; [done|].
  destruct e; simpl; try apply IH.
  - destruct (r1 =? 0); apply IH.
  - destruct (removeFirst op open); [apply IH|done].
Qed.

(** A projection that maps every event of the kinds [ks] to nothing sees
    nothing in a list of such events. *)
Lemma omap_ofKinds {X} (π : Event → option X) ks (evs : Trace) :
  Forall (λ e, ofKinds ks e = true) evs →
  (∀ e, ofKinds ks e = true → π e = None) →
  omap π evs = [].
Proof.
  intros Hall Hπ. induction Hall as [|e evs He _ IH]; [done|].
  simpl. by rewrite (Hπ e He).
Qed.

Lemma count_ofKinds f ks (evs : Trace) :
  Forall (λ e, ofKinds ks e = true) evs →
  (∀ e, ofKinds ks e = true → f e = false) →
  count f evs = 0%nat.
Proof.
  intros Hall Hf. unfold count. induction Hall as [|e evs He _ IH]; [done|].
  simpl. by rewrite (Hf e He).
Qed.

Lemma trackOperations_ofKinds ks (evs : Trace) open :
  Forall (λ e, ofKinds ks e = true) evs →
  (∀ e, ofKinds ks e = true → isCreateOperation e = false ∧ isCloseOperation e = false) →
  trackOperations evs open = Some open.
Proof.
  intros Hall Hk. induction Hall as [|e evs He _ IH]; [done|].
  destruct (Hk e He) as [H1 H2]. by destruct e.
Qed.

Lemma ofKinds_weaken ks ks' (evs : Trace) :
  Forall (λ e, ofKinds ks e = true) evs →
  (∀ e, ofKinds ks e = true → ofKinds ks' e = true) →
  Forall (λ e, ofKinds ks' e = true) evs.
Proof. intros Hall Hsub. eapply Forall_impl; [done|]. auto. Qed.

Lemma revokeEvents_kinds vmID paths hrs :
  Forall (λ e, ofKinds [KRevoke] e = true) (revokeEvents vmID paths hrs).
Proof.
  revert hrs. induction paths as [|p ps IH]; intros [|hr hrs]; simpl; try constructor;
    [done|apply IH].
Qed.

Lemma grantEvents_kinds vmID paths hrs :
  Forall (λ e, ofKinds [KGrantLog; KGrant] e = true) (grantEvents vmID paths hrs).
Proof.
  revert hrs. induction paths as [|p ps IH]; intros [|hr hrs]; simpl;
    repeat constructor. apply IH.
Qed.

Lemma closeSystemEvents_kinds sys :
  Forall (λ e, ofKinds [KCloseSystem] e = true) (closeSystemEvents sys).
Proof. unfold closeSystemEvents. destruct (sys =? 0); repeat constructor. Qed.

Lemma TerminateRun_kinds sys term :
  TerminateRun sys term →
  Forall (λ e, ofKinds [KOperation; KTerminate; KWait; KCloseOperation; KCloseSystem] e
               = true) term.
Proof.
  intros []; repeat (apply Forall_cons; split; [done|]);
    (eapply ofKinds_weaken; [apply closeSystemEvents_kinds|by_kinds]).
Qed.

Lemma GrantFailure_kinds vmID p failure e :
  GrantFailure vmID p failure e → Forall (λ e, ofKinds [KGrant] e = true) failure.
Proof. intros []; repeat constructor. Qed.

Lemma injectEvents_kinds gpus :
  Forall (λ e, ofKinds [KEnumerate; KStderr] e = true) (injectEvents gpus).
Proof.
  unfold injectEvents. do 2 (apply Forall_cons; split; [done|]).
  induction gpus; simpl; by constructor.
Qed.

Lemma revoked_revokeEvents vmID paths hrs :
  length hrs = length paths →
  revoked (revokeEvents vmID paths hrs) = map (pair vmID) paths.
Proof.
  revert hrs. induction paths as [|p ps IH]; intros [|hr hrs] Hlen; try done.
  simpl. f_equal. apply IH. simpl in Hlen. lia.
Qed.

Lemma granted_grantEvents vmID paths hrs :
  length hrs = length paths → Forall (λ hr, hrOK hr = true) hrs →
  granted (grantEvents vmID paths hrs) = map (pair vmID) paths.
Proof.
  revert hrs. induction paths as [|p ps IH]; intros [|hr hrs] Hlen Hok; try done.
  apply Forall_cons in Hok as [Hhr Hok]. simpl. rewrite Hhr.
  f_equal. apply IH; [simpl in Hlen; lia|done].
Qed.

Lemma grantAttempts_grantEvents vmID paths hrs :
  length hrs = length paths →
  grantAttempts (grantEvents vmID paths hrs) = paths.
Proof.
  revert hrs. induction paths as [|p ps IH]; intros [|hr hrs] Hlen; try done.
  simpl. f_equal. apply IH. simpl in Hlen. lia.
Qed.

Lemma count_grantEvents vmID paths hrs :
  length hrs = length paths →
  count isGrantCall (grantEvents vmID paths hrs) = length paths.
Proof.
  revert hrs. induction paths as [|p ps IH]; intros [|hr hrs] Hlen; try done.
  unfold count in *. simpl. f_equal. apply IH. simpl in Hlen. lia.
Qed.

(** * Operation handles *)

Lemma removeFirst_length h l l' :
  removeFirst h l = Some l' → length l = S (length l').
Proof.
  revert l'. induction l as [|x l IH]; intros l'; simpl; [done|].
  destruct (x =? h); [by intros [= ->]|].
  destruct (removeFirst h l) as [l0|] eqn:Hl; simpl; [|done].
  intros [= <-]. simpl. f_equal. by apply IH.
Qed.

Lemma trackOperations_count tr : ∀ open open',
  trackOperations tr open = Some open' →
  (length open + count isOpened tr = length open' + count isCloseOperation tr)%nat.
Proof.
  unfold count.
  induction tr as [|e tr IH]; intros open open' H; simpl in *.
  - injection H as <-. lia.
  - destruct e; simpl; try by apply IH.
    + destruct (r1 =? 0); simpl; [by apply IH|].
      apply IH in H. simpl in H. lia.
    + destruct (removeFirst op open) as [open1|] eqn:Hrm; [|done].
      apply removeFirst_length in Hrm. apply IH in H. lia.
Qed.

Lemma trackOperations_bracket op mid rest open :
  op ≠ 0 →
  trackOperations mid (op :: open) = Some (op :: open) →
  trackOperations (EvCreateOperation op :: mid ++ EvCloseOperation op :: rest) open =
  trackOperations rest open.
Proof.
  intros Hop Hmid. simpl. rewrite (proj2 (Z.eqb_neq op 0) Hop).
  rewrite trackOperations_app, Hmid. simpl. by rewrite Z.eqb_refl.
Qed.

Lemma TerminateRun_track sys term open :
  TerminateRun sys term → trackOperations term open = Some open.
Proof.
  intros [|op hr whr doc Hop].
  - simpl. eapply trackOperations_ofKinds; [apply closeSystemEvents_kinds|by_kinds].
  - change (trackOperations
              (EvCreateOperation op
               :: [EvTerminateComputeSystem sys op hr;
                   EvWaitForOperationResult op 5000 whr doc]
               ++ EvCloseOperation op :: closeSystemEvents sys) open = Some open).
    rewrite trackOperations_bracket by done.
    eapply trackOperations_ofKinds; [apply closeSystemEvents_kinds|by_kinds].
Qed.

Lemma revokeEvents_track vmID paths hrs open :
  trackOperations (revokeEvents vmID paths hrs) open = Some open.
Proof.
  eapply trackOperations_ofKinds; [apply revokeEvents_kinds|by_kinds].
Qed.

Lemma grantEvents_track vmID paths hrs open :
  trackOperations (grantEvents vmID paths hrs) open = Some open.
Proof.
  eapply trackOperations_ofKinds; [apply grantEvents_kinds|by_kinds].
Qed.

Lemma StartRun_track vmID sys paths res evs open :
  StartRun vmID sys paths res evs → trackOperations evs open = Some open.
Proof.
  intros [term rhrs Hterm _|op2 hr term rhrs Hop _ Hterm _
         |op2 hr whr doc term rhrs Hop _ _ Hterm _|op2 hr whr doc Hop _ _].
  - simpl. rewrite trackOperations_app, (TerminateRun_track _ _ _ Hterm). simpl.
    apply revokeEvents_track.
  - change (trackOperations
              (EvCreateOperation op2 :: [EvStartComputeSystem sys op2 hr]
               ++ EvCloseOperation op2 :: term ++ revokeEvents vmID paths rhrs) open
            = Some open).
    rewrite trackOperations_bracket by done.
    rewrite trackOperations_app, (TerminateRun_track _ _ _ Hterm). simpl.
    apply revokeEvents_track.
  - change (trackOperations
              (EvCreateOperation op2
               :: [EvStartComputeSystem sys op2 hr;
                   EvWaitForOperationResult op2 infinite whr doc]
               ++ EvCloseOperation op2 :: term ++ revokeEvents vmID paths rhrs) open
            = Some open).
    rewrite trackOperations_bracket by done.
    rewrite trackOperations_app, (TerminateRun_track _ _ _ Hterm). simpl.
    apply revokeEvents_track.
  - change (trackOperations
              (EvCreateOperation op2
               :: [EvStartComputeSystem sys op2 hr;
                   EvWaitForOperationResult op2 infinite whr doc]
               ++ EvCloseOperation op2
               :: closeSystemEvents sys
                  ++ [EvStdout vmID; EvStderr "VM started successfully.\n" []]) open
            = Some open).
    rewrite trackOperations_bracket by done.
    rewrite trackOperations_app.
    rewrite (trackOperations_ofKinds _ _ _ (closeSystemEvents_kinds sys))
      by by_kinds.
    done.
Qed.

Lemma CreateRun_track vmID finalJSON paths res evs open :
  CreateRun vmID finalJSON paths res evs → trackOperations evs open = Some open.
Proof.
  intros [rhrs _|op e whr doc rhrs Hop _ _|op hr sys whr doc rhrs Hop _ _
         |op hr sys whr doc rhrs Hop _ _ _|op hr sys whr doc res' rest Hop _ _ Hstart].
  - simpl. apply revokeEvents_track.
  - change (trackOperations
              (EvCreateOperation op :: [EvWaitForOperationResult op infinite whr doc]
               ++ EvCloseOperation op :: revokeEvents vmID paths rhrs) open
            = Some open).
    rewrite trackOperations_bracket by done. apply revokeEvents_track.
  - change (trackOperations
              (EvCreateOperation op
               :: [EvCreateComputeSystem vmID finalJSON op hr sys;
                   EvWaitForOperationResult op infinite whr doc]
               ++ EvCloseOperation op :: revokeEvents vmID paths rhrs) open
            = Some open).
    rewrite trackOperations_bracket by done. apply revokeEvents_track.
  - change (trackOperations
              (EvCreateOperation op
               :: [EvCreateComputeSystem vmID finalJSON op hr sys;
                   EvWaitForOperationResult op infinite whr doc]
               ++ EvCloseOperation op
               :: revokeEvents vmID paths rhrs
                  ++ (if String.eqb (default "" doc) "" then []
                      else [EvStderr "Create result: %s\n" [default "" doc]])) open
            = Some open).
    rewrite trackOperations_bracket by done.
    rewrite trackOperations_app, revokeEvents_track. simpl.
    by destruct (String.eqb _ _).
  - change (trackOperations
              (EvCreateOperation op
               :: [EvCreateComputeSystem vmID finalJSON op hr sys;
                   EvWaitForOperationResult op infinite whr doc]
               ++ EvCloseOperation op :: rest) open
            = Some open).
    rewrite trackOperations_bracket by done. by eapply StartRun_track.
Qed.

Lemma GrantRun_track vmID finalJSON paths res evs open :
  GrantRun vmID finalJSON paths res evs → trackOperations evs open = Some open.
Proof.
  intros [K p hrs failure e rhrs _ _ _ Hfail _|hrs res' rest _ _ _ Hcreate].
  - rewrite !trackOperations_app, grantEvents_track. simpl.
    rewrite trackOperations_app.
    rewrite (trackOperations_ofKinds _ _ _ (GrantFailure_kinds _ _ _ _ Hfail))
      by by_kinds.
    simpl. apply revokeEvents_track.
  - rewrite trackOperations_app, grantEvents_track. simpl.
    by eapply CreateRun_track.
Qed.

Lemma InjectRun_track addGPU spec final pre open :
  InjectRun addGPU spec final pre → trackOperations pre open = Some open.
Proof.
  intros [|gpus _ _]; [done|].
  eapply trackOperations_ofKinds; [apply injectEvents_kinds|by_kinds].
Qed.

Lemma TransactionRun_track lib order specJSON name addGPU res evs open :
  TransactionRun lib order specJSON name addGPU res evs →
  trackOperations evs open = Some open.
Proof.
  intros [| | | |spec final pre text e _ Hinj _
         |spec final pre finalJSON guid e _ Hinj _
         |spec final pre finalJSON guid res' rest _ Hinj _ Hgrant]; try done.
  - by eapply InjectRun_track.
  - rewrite trackOperations_app, (InjectRun_track _ _ _ _ _ Hinj). done.
  - rewrite trackOperations_app, (InjectRun_track _ _ _ _ _ Hinj). simpl.
    unfold creatingEvent. destruct (String.eqb name ""); by eapply GrantRun_track.
Qed.

(** C4. Whatever the host answers and whichever step fails, every operation
    handle that [HcsCreateOperation] handed out is closed exactly once: along
    the trace no handle is closed that is not open (no double close, no close
    of a handle never opened), none is left open at the end (no leak), and the
    close calls are as many as the handles opened. *)
Theorem operation_handles_closed_exactly_once
    host lib order specJSON name addGPU :
  let tr := snd (CreateAndStartVM host lib order specJSON name addGPU []) in
  trackOperations tr [] = Some [] ∧
  count isCloseOperation tr = count isOpened tr.
Proof.
  destruct (CreateAndStartVM_run host lib order specJSON name addGPU [])
    as (res & evs & -> & Hrun).
  simpl. pose proof (TransactionRun_track _ _ _ _ _ _ _ [] Hrun) as Htrack.
  split; [done|].
  apply trackOperations_count in Htrack. simpl in Htrack. lia.
Qed.

(** * The grant phase *)

Lemma creatingEvent_kinds name vmID :
  Forall (λ e, ofKinds [KStderr] e = true) [creatingEvent name vmID].
Proof. unfold creatingEvent. destruct (String.eqb name ""); by repeat constructor. Qed.

(** Goals [Forall (λ e, ofKinds ks e = true) evs] on the lists of the shapes. *)
Ltac solve_kinds :=
  repeat first
    [ apply Forall_nil_2
    | apply Forall_cons_2; [done|]
    | apply Forall_app_2
    | eapply ofKinds_weaken;
      [ first [ eapply TerminateRun_kinds; eassumption | apply revokeEvents_kinds
              | apply closeSystemEvents_kinds | apply grantEvents_kinds
              | apply injectEvents_kinds | eapply GrantFailure_kinds; eassumption ]
      | by_kinds ] ].

Lemma StartRun_kinds vmID sys paths res evs :
  StartRun vmID sys paths res evs →
  Forall (λ e, ofKinds startKinds e = true) evs.
Proof. intros []; solve_kinds. Qed.

Lemma CreateRun_kinds vmID finalJSON paths res evs :
  CreateRun vmID finalJSON paths res evs →
  Forall (λ e, ofKinds laterKinds e = true) evs.
Proof.
  intros [| | | |op hr sys whr doc res' rest _ _ _ Hstart]; solve_kinds.
  - destruct (String.eqb _ _); solve_kinds.
  - eapply ofKinds_weaken; [by eapply StartRun_kinds|by_kinds].
Qed.

Lemma granted_GrantFailure vmID p failure e :
  GrantFailure vmID p failure e → granted failure = [].
Proof. intros [hr _ _ Hhr| |]; try done. simpl. by rewrite Hhr. Qed.

Lemma range_empty order (A : Type) : range order (∅ : gmap string A) = [].
Proof.
  apply Permutation_nil_r. rewrite (range_perm order A ∅). by rewrite map_to_list_empty.
Qed.

Lemma extractVHDPaths_injectGPU order spec gpus :
  extractVHDPaths order (injectGPU spec gpus) = extractVHDPaths order spec.
Proof.
  unfold extractVHDPaths, injectGPU. simpl.
  destruct (VirtualMachine spec) as [vm|]; simpl.
  - destruct (Devices vm) as [dev|]; simpl; [done|].
    by rewrite range_empty.
  - by rewrite range_empty.
Qed.

Lemma InjectRun_paths order addGPU spec final pre :
  InjectRun addGPU spec final pre →
  extractVHDPaths order final = extractVHDPaths order spec.
Proof. intros [|gpus _ _]; [done|]. apply extractVHDPaths_injectGPU. Qed.

Lemma Resolved_unique lib order specJSON spec spec' :
  Resolved lib order specJSON spec → Resolved lib order specJSON spec' → spec = spec'.
Proof. intros (d & Hd & Hs) (d' & Hd' & Hs'). congruence. Qed.

Lemma InjectRun_kinds addGPU spec final pre :
  InjectRun addGPU spec final pre →
  Forall (λ e, ofKinds [KEnumerate; KStderr] e = true) pre.
Proof. intros [|gpus _ _]; [constructor|apply injectEvents_kinds]. Qed.

(** ** Computing the observations of a shape *)

Lemma count_revokeEvents vmID paths hrs :
  length hrs = length paths →
  count isRevokeCall (revokeEvents vmID paths hrs) = length paths.
Proof.
  revert hrs. induction paths as [|p ps IH]; intros [|hr hrs] Hlen; try done.
  unfold count in *. simpl. f_equal. apply IH. simpl in Hlen. lia.
Qed.

Lemma releasedSystems_closeSystemEvents sys :
  releasedSystems (closeSystemEvents sys) = if sys =? 0 then [] else [sys].
Proof. unfold closeSystemEvents. by destruct (sys =? 0). Qed.

Lemma discovered_injectEvents gpus : discovered (injectEvents gpus) = [(gpus, None)].
Proof.
  unfold injectEvents. simpl. f_equal. induction gpus; by simpl.
Qed.

Ltac kinds_fact :=
  first [ apply revokeEvents_kinds | apply grantEvents_kinds
        | apply closeSystemEvents_kinds | apply injectEvents_kinds
        | apply creatingEvent_kinds
        | eapply TerminateRun_kinds; eassumption
        | eapply GrantFailure_kinds; eassumption
        | eapply InjectRun_kinds; eassumption
        | eapply CreateRun_kinds; eassumption
        | eapply StartRun_kinds; eassumption ].

Lemma omap_cons1 {X} (π : Event → option X) e (evs : Trace) :
  omap π (e :: evs) = omap π [e] ++ omap π evs.
Proof. apply (omap_app π [e]). Qed.

Lemma count_cons f e (evs : Trace) : count f (e :: evs) = (count f [e] + count f evs)%nat.
Proof. apply (count_app f [e]). Qed.

Ltac is_single l := lazymatch l with [_] => idtac end.

Ltac is_opaque_list l :=
  lazymatch l with
  | _ ++ _ => fail
  | _ :: _ => fail
  | [] => fail
  | _ => idtac
  end.

Ltac observe_step :=
  first
    [ rewrite revoked_revokeEvents by (done || lia)
    | rewrite granted_grantEvents by (done || lia)
    | rewrite grantAttempts_grantEvents by (done || lia)
    | rewrite count_grantEvents by (done || lia)
    | rewrite count_revokeEvents by (done || lia)
    | rewrite releasedSystems_closeSystemEvents
    | rewrite discovered_injectEvents
    | match goal with
      | H : GrantFailure _ _ ?f _ |- context [granted ?f] =>
          rewrite (granted_GrantFailure _ _ f _ H)
      end
    | match goal with
      | |- context [omap ?π [creatingEvent ?n ?v]] =>
          rewrite (omap_ofKinds π _ [creatingEvent n v]) by first [kinds_fact | by_kinds]
      | |- context [omap ?π (?a ++ ?b)] => rewrite (omap_app π a b)
      | |- context [omap ?π (?e :: ?l)] =>
          tryif is_single (e :: l) then fail else rewrite (omap_cons1 π e l)
      | |- context [omap ?π ?l] =>
          is_opaque_list l;
          rewrite (omap_ofKinds π _ l) by first [kinds_fact | by_kinds]
      | |- context [count ?f [creatingEvent ?n ?v]] =>
          rewrite (count_ofKinds f _ [creatingEvent n v])
            by first [kinds_fact | by_kinds]
      | |- context [count ?f (?a ++ ?b)] => rewrite (count_app f a b)
      | |- context [count ?f (?e :: ?l)] =>
          tryif is_single (e :: l) then fail else rewrite (count_cons f e l)
      | |- context [count ?f ?l] =>
          is_opaque_list l;
          rewrite (count_ofKinds f _ l) by first [kinds_fact | by_kinds]
      end ].

Ltac observe := repeat observe_step.

(** * C1: a failed grant *)

(** C1, as stated, fails: paths that are distinct in the input document need
    not be distinct once resolved, and it is the resolved paths that are
    granted and revoked.  The document read here has the three distinct paths
    [data.vhdx], [C:\work\data.vhdx] and [D:\x.vhdx]; the third grant fails
    after two grants succeeded, and the two revoke calls are both for
    [C:\work\data.vhdx]: not one call for each of two distinct paths. *)
Lemma aliased_paths_are_revoked_twice :
  let run := aliasedRun (withGrantFault 2) in
  let id := "1234ABCD-BEEF-0012-0001-02FFFE100708" in
  json_Unmarshal aliasedLib "aliased.json" = (aliasedDisks, None) ∧
  extractVHDPaths keyOrder aliasedDisks =
    ["data.vhdx"; "C:\work\data.vhdx"; "D:\x.vhdx"] ∧
  NoDup (extractVHDPaths keyOrder aliasedDisks) ∧
  length (grantAttempts (snd run)) = 3%nat ∧
  granted (snd run) = [(id, "C:\work\data.vhdx"); (id, "C:\work\data.vhdx")] ∧
  revoked (snd run) = [(id, "C:\work\data.vhdx"); (id, "C:\work\data.vhdx")] ∧
  ¬ NoDup (revoked (snd run)) ∧
  (∃ e, fst run = Some e ∧ isAccessGrantError e).
Proof.
  cbv zeta. split_and!; try (vm_compute; reflexivity).
  - apply (bool_decide_unpack _). vm_compute. exact I.
  - intros Hnodup. apply (bool_decide_pack _) in Hnodup. vm_compute in Hnodup.
    exact Hnodup.
  - eexists. split; [vm_compute; reflexivity|]. vm_compute. eauto.
Qed.

(** C1, amended.  Take a run whose resolved document has the SCSI paths
    [paths], all distinct, in which [K + 1] grants were attempted and [K] of
    them succeeded: the grant step failed at the [K + 1]-th grant.  Then
    [K < length paths], exactly [K] revoke calls were issued, for the [K]
    paths granted before (the first [K] of [paths], each once), no create
    call and no start call was issued, and the transaction returned an
    access-grant error. *)
Theorem grant_failure_revokes_granted
    host lib order specJSON name addGPU res tr spec K :
  CreateAndStartVM host lib order specJSON name addGPU [] = (res, tr) →
  Resolved lib order specJSON spec →
  NoDup (extractVHDPaths order spec) →
  length (grantAttempts tr) = S K →
  length (granted tr) = K →
  let paths := extractVHDPaths order spec in
  (K < length paths)%nat ∧
  ∃ vmID,
    granted tr = map (pair vmID) (take K paths) ∧
    revoked tr = map (pair vmID) (take K paths) ∧
    length (revoked tr) = K ∧ NoDup (revoked tr) ∧
    count isRevokeCall tr = K ∧
    count isCreateCall tr = 0%nat ∧ count isStartCall tr = 0%nat ∧
    ∃ e, res = Some e ∧ isAccessGrantError e.
Proof.
  intros Hrun Hspec Hnodup Hatt Hgr paths.
  destruct (CreateAndStartVM_run host lib order specJSON name addGPU [])
    as (res' & evs & Heq & Hshape).
  rewrite Heq in Hrun. injection Hrun as -> <-. clear Heq.
  destruct Hshape
    as [| | | |spec' final pre text e _ Hinj _
       |spec' final pre finalJSON guid e _ Hinj _
       |spec' final pre finalJSON guid res' rest Hspec' Hinj _ Hgrant];
    try done.
  - revert Hatt. observe. done.
  - revert Hatt. observe. done.
  - rewrite (InjectRun_paths order _ _ _ _ Hinj) in Hgrant.
    rewrite (Resolved_unique _ _ _ _ _ Hspec' Hspec) in Hgrant.
    fold paths in Hgrant.
    destruct Hgrant as [K' p hrs failure e rhrs Hp HK' Hok Hfail Hrhrs
                       |hrs res' rest Hlen Hok HG Hcreate].
    + assert (K' < length paths)%nat as HKlt by by eapply lookup_lt_Some.
      assert (length (take K' paths) = K') as Htake by (rewrite length_take; lia).
      revert Hatt Hgr. observe. simpl.
      rewrite !app_nil_r, !length_app, !length_map, Htake. simpl.
      intros HKK _. assert (K' = K) as -> by lia.
      split; [done|]. exists (vmIDOf guid).
      observe. simpl. rewrite ?app_nil_r, ?length_map, ?Htake.
      split_and!; try done.
      * apply NoDup_fmap_2; [by intros ?? [=]|].
        eapply sublist_NoDup; [done|apply sublist_take].
      * eexists. split; [done|]. by eexists.
    + revert Hatt Hgr. observe. simpl.
      rewrite !app_nil_r, !length_map. lia.
Qed.

Lemma grant_failure_witness :
  let tr := snd (exampleRun (withGrantFault 2) "three-disks.json" false) in
  let paths := extractVHDPaths keyOrder resolvedThreeDisks in
  (2 < length paths)%nat ∧
  ∃ vmID,
    granted tr = map (pair vmID) (take 2 paths) ∧
    revoked tr = map (pair vmID) (take 2 paths) ∧
    length (revoked tr) = 2%nat ∧ NoDup (revoked tr) ∧
    count isRevokeCall tr = 2%nat ∧
    count isCreateCall tr = 0%nat ∧ count isStartCall tr = 0%nat ∧
    ∃ e, fst (exampleRun (withGrantFault 2) "three-disks.json" false) = Some e ∧
         isAccessGrantError e.
Proof.
  apply (grant_failure_revokes_granted
           (faultyHost (withGrantFault 2)) exampleLib keyOrder
           "three-disks.json" "" false
           (fst (exampleRun (withGrantFault 2) "three-disks.json" false))
           (snd (exampleRun (withGrantFault 2) "three-disks.json" false))
           resolvedThreeDisks 2).
  - apply surjective_pairing.
  - exists threeDisks. split; vm_compute; reflexivity.
  - vm_compute. apply (bool_decide_unpack _). vm_compute. exact I.
  - vm_compute. reflexivity.
  - vm_compute. reflexivity.
Defined.

(** * C2: a failed create step *)

(** C2, as stated, fails: when the service rejects the create request, the
    error returned is the one of the submission; the document the wait handed
    back is dropped.  Here the wait hands back [{Error}] and the error carries
    no document. *)
Lemma create_error_drops_document :
  let run := exampleRun (createRejected (Some "{Error}")) "three-disks.json" false in
  ¬ (createStepFailed (snd run) →
     createFailureReported createResultDocument (fst run) (snd run)).
Proof.
  intros run Hclaim.
  assert (createStepFailed (snd run)) as Hfailed.
  { exists 0x100, infinite, 0xc0370103, (Some "{Error}"). split; [|left]; by vm_compute. }
  destruct (Hclaim Hfailed) as (_ & _ & e & He & _ & Hdoc).
  vm_compute in He. injection He as <-. by vm_compute in Hdoc.
Qed.

(** C2, amended.  When the create step fails, no start call is issued, every
    path granted in this attempt is revoked, and the transaction returns a
    create error.  When the create request was accepted and its wait failed,
    the error carries the service result document (empty when there is none);
    when the submission itself failed, the error carries no document. *)
Theorem create_failure_revokes_and_reports
    host lib order specJSON name addGPU res tr :
  CreateAndStartVM host lib order specJSON name addGPU [] = (res, tr) →
  createStepFailed tr →
  createFailureReported acceptedResultDocument res tr.
Proof.
  intros Hrun (op0 & t0 & whr0 & doc0 & Hwait & Hfailed).
  unfold createFailureReported, acceptedResultDocument.
  destruct (CreateAndStartVM_run host lib order specJSON name addGPU [])
    as (res' & evs & Heq & Hshape).
  rewrite Heq in Hrun. injection Hrun as -> <-. clear Heq.
  unfold createResultDocument.
  destruct Hshape
    as [| | | |spec' final pre text e _ Hinj _
       |spec' final pre finalJSON guid e _ Hinj _
       |spec' final pre finalJSON guid res' rest Hspec' Hinj _ Hgrant];
    try done.
  - revert Hwait. observe. done.
  - revert Hwait. observe. done.
  - destruct Hgrant as [K' p hrs failure e rhrs Hp HK' Hok Hfail Hrhrs
                       |hrs res' rest Hlen Hok HG Hcreate].
    { revert Hwait. observe. done. }
    destruct Hcreate
      as [rhrs Hr|op e whr doc rhrs Hop He Hr|op hr sys whr doc rhrs Hop Hhr Hr
         |op hr sys whr doc rhrs Hop Hhr Hwhr Hr
         |op hr sys whr doc res'' srest Hop Hhr Hwhr Hstart].
    + revert Hwait. observe. done.
    + observe. simpl. rewrite ?app_nil_r. split_and!; try done.
      exists e. split_and!; [done| |].
      * destruct He as [[_ ->]|(_ & _ & ->)]; unfold isCreateError; auto.
      * by destruct He as [[_ ->]|(_ & _ & ->)].
    + observe. simpl. rewrite Hhr. simpl. rewrite ?app_nil_r.
      split_and!; try done.
      eexists. split_and!; [done| |done]. left. by eexists.
    + observe. simpl. rewrite Hhr. simpl.
      destruct (String.eqb (default "" doc) ""); simpl; rewrite ?app_nil_r;
        (split_and!; try done;
         eexists; split_and!; [done| |done]; right; left; by do 2 eexists).
    + revert Hwait Hfailed. observe. simpl. rewrite Hhr. simpl.
      intros [= <- <- <- <-] [|]; congruence.
Qed.

Lemma create_failure_witness :
  let run := exampleRun (createWaitFails (Some "{Error}")) "three-disks.json" false in
  createFailureReported acceptedResultDocument (fst run) (snd run).
Proof.
  apply (create_failure_revokes_and_reports
           (faultyHost (createWaitFails (Some "{Error}"))) exampleLib keyOrder
           "three-disks.json" "" false).
  - apply surjective_pairing.
  - exists 0x100, infinite, 0xc0351000, (Some "{Error}").
    split; [|right]; vm_compute; reflexivity.
Defined.

(** * C3: a failed start step *)

Lemma revokeEvents_all vmID paths hrs :
  Forall (λ e, isRevokeCall e = true) (revokeEvents vmID paths hrs).
Proof.
  eapply Forall_impl; [apply revokeEvents_kinds|]. by_kinds.
Qed.

(** C3, as stated, fails: [terminateAndClose] needs an operation handle of
    its own, and when [HcsCreateOperation] hands out none it only releases the
    VM handle.  Here the service rejects the start call and the third
    [HcsCreateOperation] answers NULL: no terminate request is issued. *)
Lemma start_failure_without_terminate :
  let run := exampleRun (withOperationFault 2 startRejected) "three-disks.json" false in
  ¬ (startStepFailed (snd run) →
     startFailureCompensated terminateIssued (fst run) (snd run)).
Proof.
  intros run Hclaim.
  assert (startStepFailed (snd run)) as Hfailed.
  { exists 0x7000, 0x101, 0xc0351000. split; [|left]; by vm_compute. }
  destruct (Hclaim Hfailed)
    as (sys & pre & term & revs & _ & Htr & (op & hr & whr & doc & _ & ->) & _).
  apply (f_equal terminated) in Htr. revert Htr.
  rewrite !omap_app. simpl (terminated [_; _; _; _]).
  vm_compute (terminated (snd run)).
  by destruct (terminated pre).
Qed.

(** C3, amended.  When the start step fails (the start call is rejected, or
    its wait fails), [terminateAndClose] runs once on the just-created VM
    object, before any granted path is revoked: when an operation handle can
    be opened for it, one terminate request, a wait bounded by 5000 ms and the
    close of that handle, whatever these answer, and then the release of the
    VM handle; when no operation handle can be opened, only the release of the
    VM handle.  After it every granted path is revoked and the transaction
    returns a start error. *)
Theorem start_failure_terminates_before_revoking
    host lib order specJSON name addGPU res tr :
  CreateAndStartVM host lib order specJSON name addGPU [] = (res, tr) →
  startStepFailed tr →
  startFailureCompensated TerminateRun res tr.
Proof.
  intros Hrun (sys0 & op0 & hr0 & Hstart0 & Hfailed).
  destruct (CreateAndStartVM_run host lib order specJSON name addGPU [])
    as (res' & evs & Heq & Hshape).
  rewrite Heq in Hrun. injection Hrun as -> <-. clear Heq.
  unfold startFailureCompensated.
  destruct Hshape
    as [| | | |spec' final pre text e _ Hinj _
       |spec' final pre finalJSON guid e _ Hinj _
       |spec' final pre finalJSON guid res' rest Hspec' Hinj _ Hgrant];
    try done.
  - revert Hstart0. observe. done.
  - revert Hstart0. observe. done.
  - destruct Hgrant as [K' p hrs failure e rhrs Hp HK' Hok Hfail Hrhrs
                       |hrs res' rest Hlen Hok HG Hcreate].
    { revert Hstart0. observe. done. }
    destruct Hcreate
      as [rhrs Hr|op e whr doc rhrs Hop He Hr|op hr sys whr doc rhrs Hop Hhr Hr
         |op hr sys whr doc rhrs Hop Hhr Hwhr Hr
         |op hr sys whr doc res'' srest Hop Hhr Hwhr Hstart];
      try (revert Hstart0; observe; done).
    { revert Hstart0. observe. simpl. by destruct (String.eqb _ _). }
    destruct Hstart
      as [term rhrs Hterm Hr|op2 shr term rhrs Hop2 Hshr Hterm Hr
         |op2 shr swhr sdoc term rhrs Hop2 Hshr Hswhr Hterm Hr
         |op2 shr swhr sdoc Hop2 Hshr Hswhr].
    + revert Hstart0. observe. done.
    + exists sys,
        (pre ++ [EvGenerateGUID guid None; creatingEvent name (vmIDOf guid)]
             ++ grantEvents (vmIDOf guid) (extractVHDPaths order final) hrs
             ++ [EvCreateOperation op;
                 EvCreateComputeSystem (vmIDOf guid) finalJSON op hr sys;
                 EvWaitForOperationResult op infinite whr doc; EvCloseOperation op;
                 EvCreateOperation op2; EvStartComputeSystem sys op2 shr;
                 EvCloseOperation op2]),
        term, (revokeEvents (vmIDOf guid) (extractVHDPaths order final) rhrs).
      split_and!.
      * observe. simpl. by rewrite Hhr.
      * by rewrite <- !app_assoc.
      * done.
      * observe. done.
      * observe. done.
      * observe. done.
      * apply revokeEvents_all.
      * observe. simpl. by rewrite !app_nil_r.
      * eexists. split; [done|]. left. by eexists.
    + exists sys,
        (pre ++ [EvGenerateGUID guid None; creatingEvent name (vmIDOf guid)]
             ++ grantEvents (vmIDOf guid) (extractVHDPaths order final) hrs
             ++ [EvCreateOperation op;
                 EvCreateComputeSystem (vmIDOf guid) finalJSON op hr sys;
                 EvWaitForOperationResult op infinite whr doc; EvCloseOperation op;
                 EvCreateOperation op2; EvStartComputeSystem sys op2 shr;
                 EvWaitForOperationResult op2 infinite swhr sdoc;
                 EvCloseOperation op2]),
        term, (revokeEvents (vmIDOf guid) (extractVHDPaths order final) rhrs).
      split_and!.
      * observe. simpl. by rewrite Hhr.
      * by rewrite <- !app_assoc.
      * done.
      * observe. done.
      * observe. done.
      * observe. done.
      * apply revokeEvents_all.
      * observe. simpl. by rewrite !app_nil_r.
      * eexists. split; [done|]. right. by do 2 eexists.
    + revert Hstart0 Hfailed. observe. simpl.
      intros [= <- <- <-] [|(? & ? & ? & ? & [= <- <- <- <-] & ?)]; congruence.
Qed.

Lemma start_failure_witness :
  let run := exampleRun startWaitFails "three-disks.json" false in
  startFailureCompensated TerminateRun (fst run) (snd run).
Proof.
  apply (start_failure_terminates_before_revoking
           (faultyHost startWaitFails) exampleLib keyOrder "three-disks.json" "" false).
  { apply surjective_pairing. }
  exists 0x7000, 0x101, 0. split; [by vm_compute|right].
  exists 0x101, infinite, 0xc0351000, None. split; by vm_compute.
Defined.

(** * C5: GPU injection *)

Lemma gpuKey_inj i j : gpuKey i = gpuKey j → i = j.
Proof.
  unfold gpuKey. intros H. apply String.app_inj in H. by apply pretty_nat_inj in H.
Qed.

Lemma injectLoop_other gpus : ∀ i pciDevs key,
  (∀ j, (j < length gpus)%nat → key ≠ gpuKey (i + j)) →
  injectLoop i gpus pciDevs !! key = pciDevs !! key.
Proof.
  induction gpus as [|gpu rest IH]; intros i pciDevs key Hkey; [done|].
  simpl. rewrite IH.
  - apply lookup_insert_ne. intros Heq. apply (Hkey 0%nat); [simpl; lia|].
    by rewrite Nat.add_0_r.
  - intros j Hj. rewrite Nat.add_succ_comm. apply Hkey. simpl. lia.
Qed.

Lemma injectLoop_lookup gpus : ∀ i pciDevs j gpu,
  gpus !! j = Some gpu →
  injectLoop i gpus pciDevs !! gpuKey (i + j) =
    Some (Some (mkVirtualPciDev (InstanceID gpu) autoAssignPartition)).
Proof.
  induction gpus as [|g rest IH]; intros i pciDevs j gpu Hj; [done|].
  destruct j as [|j]; simpl in *.
  - injection Hj as ->. rewrite Nat.add_0_r, injectLoop_other.
    + apply lookup_insert_eq.
    + intros j _ Heq. apply gpuKey_inj in Heq. lia.
  - rewrite <- Nat.add_succ_comm. by apply IH.
Qed.

Lemma injectLoop_keys gpus : ∀ i pciDevs key,
  is_Some (injectLoop i gpus pciDevs !! key) →
  is_Some (pciDevs !! key) ∨ ∃ j, (j < length gpus)%nat ∧ key = gpuKey (i + j).
Proof.
  induction gpus as [|g rest IH]; intros i pciDevs key Hkey; [by left|].
  simpl in Hkey. apply IH in Hkey as [Hkey|(j & Hj & ->)].
  - destruct (decide (key = gpuKey i)) as [->|Hne].
    + right. exists 0%nat. split; [simpl; lia|by rewrite Nat.add_0_r].
    + left. by rewrite lookup_insert_ne in Hkey.
  - right. exists (S j). split; [simpl; lia|by rewrite Nat.add_succ_comm].
Qed.

Lemma injectLoop_size gpus : ∀ i pciDevs,
  (∀ j, pciDevs !! gpuKey (i + j) = None) →
  size (injectLoop i gpus pciDevs) = (length gpus + size pciDevs)%nat.
Proof.
  induction gpus as [|g rest IH]; intros i pciDevs Hfresh; [done|].
  simpl. rewrite IH.
  - rewrite map_size_insert_None; [lia|]. specialize (Hfresh 0%nat).
    by rewrite Nat.add_0_r in Hfresh.
  - intros j. rewrite lookup_insert_ne.
    + rewrite Nat.add_succ_comm. apply Hfresh.
    + intros Heq. apply gpuKey_inj in Heq. lia.
Qed.

Lemma virtualPciOf_injectGPU spec gpus :
  virtualPciOf (injectGPU spec gpus) = injectLoop 0 gpus ∅.
Proof. reflexivity. Qed.

Example gpuKey_0 : gpuKey 0 = "gpu-0".
Proof. reflexivity. Qed.

Example gpuKey_11 : gpuKey 11 = "gpu-11".
Proof. reflexivity. Qed.

(** C5. Whatever virtual-PCI entries the document had, after [injectGPU] with
    [n] descriptors its virtual-PCI mapping has exactly [n] entries; the entry
    under the text gpu- followed by the decimal numeral of [i] holds the
    instance path of the [i]-th descriptor and the auto-assign value 0xFFFF;
    and there is no entry under any other key.  The keys are written out, as
    are those of the first, the second and the eleventh descriptor: gpu-0,
    gpu-1 and gpu-10. *)
Theorem injectGPU_replaces_virtual_pci (spec : ComputeSystemSpec)
    (gpus : list GpuDevice) :
  let pci := virtualPciOf (injectGPU spec gpus) in
  let entry gpu := Some (Some (mkVirtualPciDev (InstanceID gpu) 0xFFFF)) in
  size pci = length gpus ∧
  (∀ i gpu, gpus !! i = Some gpu → pci !! ("gpu-" +:+ pretty i) = entry gpu) ∧
  (∀ key, is_Some (pci !! key) →
          ∃ i, (i < length gpus)%nat ∧ key = "gpu-" +:+ pretty i) ∧
  (∀ gpu, gpus !! 0%nat = Some gpu → pci !! "gpu-0" = entry gpu) ∧
  (∀ gpu, gpus !! 1%nat = Some gpu → pci !! "gpu-1" = entry gpu) ∧
  (∀ gpu, gpus !! 10%nat = Some gpu → pci !! "gpu-10" = entry gpu).
Proof.
  cbv zeta. rewrite virtualPciOf_injectGPU. split_and!.
  - rewrite injectLoop_size; [rewrite map_size_empty; lia|done].
  - intros i gpu Hi. by apply (injectLoop_lookup gpus 0%nat ∅ i gpu).
  - intros key Hkey. apply injectLoop_keys in Hkey as [Hkey|Hkey]; [|done].
    rewrite lookup_empty in Hkey. by destruct Hkey.
  - intros gpu Hi. by apply (injectLoop_lookup gpus 0%nat ∅ 0%nat gpu).
  - intros gpu Hi. by apply (injectLoop_lookup gpus 0%nat ∅ 1%nat gpu).
  - intros gpu Hi. by apply (injectLoop_lookup gpus 0%nat ∅ 10%nat gpu).
Qed.

(** * The VM identity *)

Lemma allChars_app P a b : allChars P (a +:+ b) = allChars P a && allChars P b.
Proof. induction a as [|c a IH]; simpl; [done|]. by rewrite IH, andb_assoc. Qed.

Lemma hexDigit_isHexDigit x : isHexDigit (hexDigit x) = true.
Proof.
  unfold hexDigit. generalize (Z.to_nat x). intros n.
  do 16 (destruct n as [|n]; [reflexivity|]). by destruct n.
Qed.

Lemma isHexDigit_not_brace c : isHexDigit c = true → inCutset c "{}" = false.
Proof.
  destruct c as [[] [] [] [] [] [] [] []]; by vm_compute.
Qed.

Lemma allChars_hexN n v : allChars (λ c, negb (inCutset c "{}")) (hexN n v) = true.
Proof.
  induction n as [|n IH]; [done|]. cbn [hexN allChars].
  by rewrite IH, isHexDigit_not_brace by apply hexDigit_isHexDigit.
Qed.

Lemma TrimRight_closing s c cutset :
  allChars (λ c, negb (inCutset c cutset)) s = true → inCutset c cutset = true →
  TrimRight (s +:+ String c EmptyString) cutset = s.
Proof.
  intros Hs Hc. induction s as [|a s IH]; simpl in *.
  - by rewrite Hc.
  - apply andb_true_iff in Hs as [Ha Hs]. rewrite (IH Hs).
    destruct s; [|done]. by destruct (inCutset a cutset).
Qed.

Lemma append_assoc (a b c : string) : (a +:+ b) +:+ c = a +:+ (b +:+ c).
Proof.
  induction a as [|x a IH]; [done|].
  change (String x ((a +:+ b) +:+ c) = String x (a +:+ (b +:+ c))). by rewrite IH.
Qed.

Lemma GUID_String_identityText g : GUID_String g = "{" +:+ identityText g +:+ "}".
Proof. unfold GUID_String, identityText. by rewrite !append_assoc. Qed.

Lemma vmIDOf_identityText g : vmIDOf g = identityText g.
Proof.
  assert (allChars (λ c, negb (inCutset c "{}")) (identityText g) = true) as Hall.
  { unfold identityText. by rewrite !allChars_app, !allChars_hexN. }
  unfold vmIDOf, Trim. rewrite GUID_String_identityText.
  change ("{" +:+ identityText g +:+ "}")
    with (String "{" (identityText g +:+ String "}" EmptyString)).
  cbn [TrimLeft inCutset Ascii.eqb Bool.eqb orb].
  destruct (identityText g) as [|c body] eqn:Hid.
  { exfalso. revert Hid. by cbv [identityText hexN String.append]. }
  pose proof Hall as Hall'. cbn [allChars] in Hall.
  apply andb_true_iff in Hall as [Hc _]. apply negb_true_iff in Hc.
  change (String c body +:+ String "}" EmptyString)
    with (String c (body +:+ String "}" EmptyString)).
  cbn [TrimLeft]. rewrite Hc.
  change (String c (body +:+ String "}" EmptyString))
    with (String c body +:+ String "}" EmptyString).
  by apply TrimRight_closing.
Qed.

Lemma wellFormedID_vmIDOf g : wellFormedID (vmIDOf g) = true.
Proof.
  rewrite vmIDOf_identityText. unfold wellFormedID.
  cbv [identityText hexN String.append].
  cbn -[hexDigit isHexDigit Z.div Z.modulo Z.pow Z.of_nat].
  by rewrite !hexDigit_isHexDigit.
Qed.

(** * C8: no GPU found *)

Lemma GrantRun_kinds vmID finalJSON paths res evs :
  GrantRun vmID finalJSON paths res evs →
  Forall (λ e, ofKinds (KGrantLog :: KGrant :: laterKinds) e = true) evs.
Proof.
  intros [K p hrs failure e rhrs _ _ _ Hfail _|hrs res' rest _ _ _ Hcreate];
    solve_kinds.
  eapply ofKinds_weaken; [by eapply CreateRun_kinds|by_kinds].
Qed.

Lemma InjectRun_discovered addGPU spec final pre :
  InjectRun addGPU spec final pre →
  discovered pre = [] ∨ ∃ gpus, gpus ≠ [] ∧ discovered pre = [(gpus, None)].
Proof.
  intros [|gpus _ Hgpus]; [by left|right].
  exists gpus. split; [done|apply discovered_injectEvents].
Qed.

(** C8. In a run with GPU passthrough requested in which discovery answered
    with an empty list, the transaction returns the no-GPU error, and the
    discovery call is all it did: no grant was attempted or issued, no
    operation was opened and no create call was made. *)
Theorem no_gpu_aborts_before_grants host lib order specJSON name res tr :
  CreateAndStartVM host lib order specJSON name true [] = (res, tr) →
  ([], None) ∈ discovered tr →
  res = Some (Errorf "no GPUs found for GPU-PV" [] None) ∧
  tr = [EvEnumerateGPUs [] None] ∧
  grantAttempts tr = [] ∧ count isGrantCall tr = 0%nat ∧
  count isCreateOperation tr = 0%nat ∧ count isCreateCall tr = 0%nat.
Proof.
  intros Hrun Hempty.
  destruct (CreateAndStartVM_run host lib order specJSON name true [])
    as (res' & evs & Heq & Hshape).
  rewrite Heq in Hrun. injection Hrun as -> <-. clear Heq.
  assert (∀ final pre rest,
            InjectRun true final.1 final.2 pre →
            Forall (λ e, ofKinds (KGuid :: KStderr :: KGrantLog :: KGrant :: laterKinds) e
                         = true) rest →
            ([], None) ∉ discovered (pre ++ rest)) as Hlater.
  { intros final pre rest Hinj Hrest. rewrite omap_app.
    rewrite (omap_ofKinds discoveredOf _ rest Hrest) by by_kinds.
    rewrite app_nil_r.
    destruct (InjectRun_discovered _ _ _ _ Hinj) as [->|(gpus & Hgpus & ->)].
    - apply not_elem_of_nil.
    - rewrite list_elem_of_singleton. congruence. }
  destruct Hshape
    as [| |spec gpus e _ _|spec _ _|spec' final pre text e _ Hinj _
       |spec' final pre finalJSON guid e _ Hinj _
       |spec' final pre finalJSON guid res' rest Hspec' Hinj _ Hgrant].
  - by apply not_elem_of_nil in Hempty.
  - by apply not_elem_of_nil in Hempty.
  - simpl in Hempty. by apply list_elem_of_singleton in Hempty.
  - done.
  - exfalso. apply (Hlater (spec', final) pre []); [done|constructor|].
    by rewrite app_nil_r.
  - exfalso. by apply (Hlater (spec', final) pre [EvGenerateGUID guid (Some e)]);
      [|repeat constructor|].
  - exfalso. apply (Hlater (spec', final) pre
             ([EvGenerateGUID guid None; creatingEvent name (vmIDOf guid)] ++ rest));
      [done| |done].
    apply Forall_cons_2; [done|]. apply Forall_cons_2.
    + unfold creatingEvent. by destruct (String.eqb name "").
    + eapply ofKinds_weaken; [by eapply GrantRun_kinds|by_kinds].
Qed.

Lemma no_gpu_witness :
  let run := exampleRun noFaults "three-disks.json" true in
  fst run = Some (Errorf "no GPUs found for GPU-PV" [] None) ∧
  snd run = [EvEnumerateGPUs [] None] ∧
  grantAttempts (snd run) = [] ∧ count isGrantCall (snd run) = 0%nat ∧
  count isCreateOperation (snd run) = 0%nat ∧ count isCreateCall (snd run) = 0%nat.
Proof.
  apply (no_gpu_aborts_before_grants
           (faultyHost noFaults) exampleLib keyOrder "three-disks.json" "").
  - apply surjective_pairing.
  - vm_compute. apply list_elem_of_here.
Defined.

(** * C9: success *)

(** ** The identity determines the GUID *)

Lemma hexValue_hexDigit x : 0 ≤ x < 16 → hexValue (hexDigit x) = Some x.
Proof.
  intros Hx. assert (∃ k, (k < 16)%nat ∧ x = Z.of_nat k) as (k & Hk & ->).
  { exists (Z.to_nat x). lia. }
  do 16 (destruct k as [|k]; [reflexivity|]). lia.
Qed.

(** Reading back [n] digits written most significant first. *)
Lemma parseHexFrom_digits (digit : Z → ascii) (render : nat → Z → string) :
  (∀ x, 0 ≤ x < 16 → hexValue (digit x) = Some x) →
  (∀ v, render O v = EmptyString) →
  (∀ n v, render (S n) v =
          String (digit ((v / 16 ^ Z.of_nat n) mod 16)) (render n v)) →
  ∀ n v acc,
    parseHexFrom acc (render n v) =
      Some (acc * 16 ^ Z.of_nat n + v mod 16 ^ Z.of_nat n).
Proof.
  intros Hdigit H0 HS. induction n as [|n IH]; intros v acc.
  - rewrite H0. simpl. f_equal. rewrite Z.mod_1_r. lia.
  - rewrite HS. cbn [parseHexFrom].
    rewrite Hdigit by (apply Z.mod_pos_bound; lia). rewrite IH. f_equal.
    rewrite Nat2Z.inj_succ, Z.pow_succ_r by lia.
    rewrite (Z.mul_comm 16 (16 ^ Z.of_nat n)).
    rewrite (Z.rem_mul_r v (16 ^ Z.of_nat n) 16) by lia. lia.
Qed.

Lemma parseHexFrom_hexN n v acc :
  parseHexFrom acc (hexN n v) = Some (acc * 16 ^ Z.of_nat n + v mod 16 ^ Z.of_nat n).
Proof. by apply (parseHexFrom_digits hexDigit hexN hexValue_hexDigit). Qed.

Lemma length_hexN n v : String.length (hexN n v) = n.
Proof. induction n as [|n IH]; simpl; [done|by rewrite IH]. Qed.

Lemma hexN_inj n v v' :
  0 ≤ v < 16 ^ Z.of_nat n → 0 ≤ v' < 16 ^ Z.of_nat n → hexN n v = hexN n v' → v = v'.
Proof.
  intros Hv Hv' Heq. pose proof (parseHexFrom_hexN n v 0) as H.
  rewrite Heq, parseHexFrom_hexN in H. injection H as H.
  rewrite !Z.mod_small in H by done. lia.
Qed.

(** Texts of equal length at the head of equal texts are equal. *)
Lemma append_inj_length (a a' b b' : string) :
  String.length a = String.length a' → a +:+ b = a' +:+ b' → a = a' ∧ b = b'.
Proof.
  revert a'. induction a as [|c a IH]; intros [|c' a'] Hlen Heq; try done.
  simpl in Hlen, Heq. injection Heq as -> Heq.
  destruct (IH a') as [-> ->]; [lia|done|done].
Qed.

Lemma append_inv_head (a b b' : string) : a +:+ b = a +:+ b' → b = b'.
Proof. intros Heq. by destruct (append_inj_length a a b b'). Qed.

Lemma byteAt_range g i : GUID_typed g → 0 ≤ byteAt g i < 16 ^ Z.of_nat 2.
Proof.
  intros (_ & _ & _ & _ & Hbytes). unfold byteAt.
  change (16 ^ Z.of_nat 2) with 256.
  destruct (decide (i < length (Data4 g))%nat) as [Hi|Hi].
  - apply (proj1 (Forall_forall _ _) Hbytes). apply list_elem_of_In, nth_In, Hi.
  - rewrite nth_overflow by lia. lia.
Qed.

Lemma nth_ext8 (l l' : list Z) :
  length l = 8%nat → length l' = 8%nat →
  (∀ i, (i < 8)%nat → nth i l 0 = nth i l' 0) → l = l'.
Proof.
  intros Hl Hl' Hnth.
  apply (nth_ext l l' 0 0); [lia|]. intros i Hi. apply Hnth. lia.
Qed.

Lemma identityText_inj g g' :
  GUID_typed g → GUID_typed g' → identityText g = identityText g' → g = g'.
Proof.
  intros Hg Hg' Heq. unfold identityText in Heq.
  apply append_inj_length in Heq as [H1 Heq]; [|by rewrite !length_hexN].
  apply (append_inv_head "-") in Heq.
  apply append_inj_length in Heq as [H2 Heq]; [|by rewrite !length_hexN].
  apply (append_inv_head "-") in Heq.
  apply append_inj_length in Heq as [H3 Heq]; [|by rewrite !length_hexN].
  apply (append_inv_head "-") in Heq.
  apply append_inj_length in Heq as [B0 Heq]; [|by rewrite !length_hexN].
  apply append_inj_length in Heq as [B1 Heq]; [|by rewrite !length_hexN].
  apply (append_inv_head "-") in Heq.
  apply append_inj_length in Heq as [B2 Heq]; [|by rewrite !length_hexN].
  apply append_inj_length in Heq as [B3 Heq]; [|by rewrite !length_hexN].
  apply append_inj_length in Heq as [B4 Heq]; [|by rewrite !length_hexN].
  apply append_inj_length in Heq as [B5 Heq]; [|by rewrite !length_hexN].
  apply append_inj_length in Heq as [B6 B7]; [|by rewrite !length_hexN].
  pose proof (byteAt_range g) as Hb. pose proof (byteAt_range g') as Hb'.
  apply hexN_inj in B0, B1, B2, B3, B4, B5, B6, B7; auto.
  destruct Hg as (R1 & R2 & R3 & Hlen & _), Hg' as (R1' & R2' & R3' & Hlen' & _).
  apply hexN_inj in H1; [|by change (16 ^ Z.of_nat 8) with (2 ^ 32)..].
  apply hexN_inj in H2; [|by change (16 ^ Z.of_nat 4) with (2 ^ 16)..].
  apply hexN_inj in H3; [|by change (16 ^ Z.of_nat 4) with (2 ^ 16)..].
  clear Hb Hb' R1 R2 R3 R1' R2' R3'.
  destruct g as [d1 d2 d3 d4], g' as [d1' d2' d3' d4'].
  unfold byteAt in *. cbn [Data1 Data2 Data3 Data4] in *. subst d1' d2' d3'.
  f_equal. apply nth_ext8; [done..|].
  intros i Hi. do 8 (destruct i as [|i]; [done|]). lia.
Qed.

(** C9, as stated, fails: [CreateAndStartVM] returns an [error] and nothing
    else.  A run that succeeds returns [nil]; the identity it minted is
    written on standard output, for the process that called the tool. *)
Lemma identity_is_printed_not_returned :
  let run := exampleRun noFaults "three-disks.json" false in
  fst run = None ∧ stdout (snd run) = ["1234ABCD-BEEF-0012-0001-02FFFE100708"].
Proof. split; vm_compute; reflexivity. Qed.

(** C9, amended.  A run that returns no error minted an identity [guid],
    created one VM object [sys] under the text of [guid] and: every SCSI path
    of the resolved document was granted to this identity and nothing was
    revoked, so all grants stand; the VM handle was released (if the service
    handed out a non-NULL one) and no terminate request was issued; and the
    one line written on standard output is the text of [guid]: eight, four,
    four, four and twelve upper-case hexadecimal digits with hyphens between
    them, a well-formed identifier, which no other GUID has. *)
Theorem success_leaves_grants_and_returns_identity
    host lib order specJSON name addGPU tr :
  CreateAndStartVM host lib order specJSON name addGPU [] = (None, tr) →
  ∃ guid sys spec cfg,
    Resolved lib order specJSON spec ∧
    EvGenerateGUID guid None ∈ tr ∧
    granted tr = map (pair (identityText guid)) (extractVHDPaths order spec) ∧
    revoked tr = [] ∧
    submitted tr = [(identityText guid, cfg)] ∧
    createdSystems tr = [sys] ∧
    releasedSystems tr = (if sys =? 0 then [] else [sys]) ∧
    terminated tr = [] ∧
    stdout tr = [identityText guid] ∧ wellFormedID (identityText guid) = true ∧
    (GUID_typed guid →
     ∀ guid', GUID_typed guid' → identityText guid' = identityText guid → guid' = guid).
Proof.
  intros Hrun.
  destruct (CreateAndStartVM_run host lib order specJSON name addGPU [])
    as (res' & evs & Heq & Hshape).
  rewrite Heq in Hrun. injection Hrun as Hres <-. clear Heq.
  destruct Hshape
    as [| | | |spec' final pre text e _ Hinj _
       |spec' final pre finalJSON guid e _ Hinj _
       |spec final pre finalJSON guid res' rest Hspec Hinj _ Hgrant];
    try done.
  destruct Hgrant as [K' p hrs failure e rhrs Hp HK' Hok Hfail Hrhrs
                     |hrs res' rest Hlen Hok HG Hcreate]; [done|].
  destruct Hcreate
    as [rhrs Hr|op e whr doc rhrs Hop He Hr|op hr sys whr doc rhrs Hop Hhr Hr
       |op hr sys whr doc rhrs Hop Hhr Hwhr Hr
       |op hr sys whr doc res'' srest Hop Hhr Hwhr Hstart]; try done.
  destruct Hstart
    as [term rhrs Hterm Hr|op2 shr term rhrs Hop2 Hshr Hterm Hr
       |op2 shr swhr sdoc term rhrs Hop2 Hshr Hswhr Hterm Hr
       |op2 shr swhr sdoc Hop2 Hshr Hswhr]; try done.
  exists guid, sys, spec, finalJSON.
  rewrite <- (InjectRun_paths order _ _ _ _ Hinj).
  rewrite <- !vmIDOf_identityText.
  split_and!; try done.
  - rewrite elem_of_app. right. apply list_elem_of_here.
  - observe. simpl. by rewrite !app_nil_r.
  - observe. done.
  - observe. done.
  - observe. simpl. by rewrite Hhr.
  - observe. simpl. by rewrite app_nil_r.
  - observe. done.
  - observe. done.
  - apply wellFormedID_vmIDOf.
  - intros Hg guid' Hg' Heq. rewrite !vmIDOf_identityText in Heq.
    by apply identityText_inj.
Qed.

Lemma success_witness :
  let run := exampleRun noFaults "three-disks.json" false in
  ∃ guid sys spec cfg,
    Resolved exampleLib keyOrder "three-disks.json" spec ∧
    EvGenerateGUID guid None ∈ snd run ∧
    granted (snd run) = map (pair (identityText guid)) (extractVHDPaths keyOrder spec) ∧
    revoked (snd run) = [] ∧
    submitted (snd run) = [(identityText guid, cfg)] ∧
    createdSystems (snd run) = [sys] ∧
    releasedSystems (snd run) = (if sys =? 0 then [] else [sys]) ∧
    terminated (snd run) = [] ∧
    stdout (snd run) = [identityText guid] ∧ wellFormedID (identityText guid) = true ∧
    (GUID_typed guid →
     ∀ guid', GUID_typed guid' → identityText guid' = identityText guid → guid' = guid).
Proof.
  apply (success_leaves_grants_and_returns_identity
           (faultyHost noFaults) exampleLib keyOrder "three-disks.json" "" false).
  vm_compute. reflexivity.
Defined.

(** * Path resolution *)

Section Resolution.

Context (lib : Library) (order : RangeOrder).

Lemma range_NoDup {A} (m : gmap string A) : NoDup (range order m).*1.
Proof. rewrite (range_perm order A m). apply NoDup_fst_map_to_list. Qed.

Lemma range_elem_of {A} (m : gmap string A) k v :
  (k, v) ∈ range order m ↔ m !! k = Some v.
Proof. rewrite (range_perm order A m). apply elem_of_map_to_list. Qed.

Lemma range_to_map {A} (m : gmap string A) : list_to_map (range order m) = m.
Proof.
  rewrite <- (list_to_map_to_list m) at 2.
  apply list_to_map_proper; [apply range_NoDup|apply range_perm].
Qed.

Lemma foldl_update_lookup {A} (g : A → option A) (entries : list (string * A)) :
  ∀ (acc : gmap string A) k,
    NoDup entries.*1 →
    foldl (updateEntry g) acc entries !! k =
      match (list_to_map entries : gmap string A) !! k with
      | Some v => match g v with Some v' => Some v' | None => acc !! k end
      | None => acc !! k
      end.
Proof.
  induction entries as [|[k0 v0] rest IH]; intros acc k Hnodup; simpl.
  - by rewrite lookup_empty.
  - apply NoDup_cons in Hnodup as [Hk0 Hnodup]. rewrite IH by done.
    unfold updateEntry. cbn [fst snd].
    destruct (decide (k = k0)) as [->|Hne].
    + rewrite (not_elem_of_list_to_map_1 _ _ Hk0), lookup_insert_eq.
      destruct (g v0); [by rewrite lookup_insert_eq|done].
    + rewrite lookup_insert_ne by done.
      destruct (g v0); [by rewrite lookup_insert_ne by done|done].
Qed.

Lemma foldl_update_range {A} (g : A → option A) (m : gmap string A) :
  foldl (updateEntry g) m (range order m) = (λ v, default v (g v)) <$> m.
Proof.
  apply map_eq. intros k.
  rewrite foldl_update_lookup by apply range_NoDup.
  rewrite range_to_map, lookup_fmap.
  destruct (m !! k) as [v|] eqn:Hk; simpl; [|done]. by destruct (g v).
Qed.

Lemma resolveAttachments_run entries : ∀ atts,
  (Forall (λ e, resolvable lib e.2) entries ∧
   resolveAttachments lib entries atts =
     (foldl (updateEntry (λ att, Some (resolvedAttachment lib att))) atts entries,
      None)) ∨
  (Exists (λ e, ¬ resolvable lib e.2) entries ∧
   ∃ atts' err, resolveAttachments lib entries atts = (atts', Some err)).
Proof.
  induction entries as [|[slot att] rest IH]; intros atts.
  - left. by split.
  - cbn [resolveAttachments foldl fst snd]. unfold resolvable, resolvedAttachment.
    unfold updateEntry at 2. cbn [fst snd].
    destruct (resolveAttachment lib att) as [att' [err|]] eqn:Hatt.
    + right. split; [|by eauto]. apply Exists_cons_hd. cbn [snd]. by rewrite Hatt.
    + destruct (IH (<[slot := att']> atts)) as [[Hall ->]|[Hex Hrun]].
      * left. split; [|done].
        apply Forall_cons_2; [cbn [snd]; by rewrite Hatt|done].
      * right. split; [by apply Exists_cons_tl|done].
Qed.

Lemma resolveAttachments_range atts :
  (map_Forall (λ _ att, resolvable lib att) atts ∧
   resolveAttachments lib (range order atts) atts =
     (resolvedAttachment lib <$> atts, None)) ∨
  (¬ map_Forall (λ _ att, resolvable lib att) atts ∧
   ∃ atts' err, resolveAttachments lib (range order atts) atts = (atts', Some err)).
Proof.
  destruct (resolveAttachments_run (range order atts) atts) as [[Hall ->]|[Hex Hrun]].
  - left. split; [|by rewrite foldl_update_range].
    intros k att Hk. apply range_elem_of in Hk.
    by apply (proj1 (Forall_forall _ _) Hall (k, att)).
  - right. split; [|done]. intros Hall.
    apply Exists_exists in Hex as ([k att] & Hin & Hnot).
    apply range_elem_of in Hin. by apply Hnot, (Hall k att).
Qed.

Lemma resolveControllers_run entries : ∀ scsi,
  (Forall (λ e, resolvableController lib e.2) entries ∧
   resolveControllers lib order entries scsi =
     (foldl (updateEntry (λ ctrl, match ctrl with
                                  | Some _ => Some (resolvedController lib ctrl)
                                  | None => None
                                  end)) scsi entries, None)) ∨
  (Exists (λ e, ¬ resolvableController lib e.2) entries ∧
   ∃ scsi' err, resolveControllers lib order entries scsi = (scsi', Some err)).
Proof.
  induction entries as [|[name [ctrl|]] rest IH]; intros scsi.
  - left. by split.
  - cbn [resolveControllers foldl]. unfold updateEntry at 2. cbn [fst snd].
    destruct (resolveAttachments_range (Attachments ctrl))
      as [[Hall ->]|[Hnot (atts' & err & ->)]].
    + destruct (IH (<[name := Some (mkScsiController
                                      (resolvedAttachment lib <$> Attachments ctrl))]>
                      scsi))
        as [[Hrest ->]|[Hex Hrun]].
      * left. split; [|done]. by apply Forall_cons_2.
      * right. split; [by apply Exists_cons_tl|done].
    + right. split; [by apply Exists_cons_hd|by eauto].
  - cbn [resolveControllers foldl]. unfold updateEntry at 2. cbn [fst snd].
    destruct (IH scsi) as [[Hrest ->]|[Hex Hrun]].
    + left. split; [|done]. by apply Forall_cons_2.
    + right. split; [by apply Exists_cons_tl|done].
Qed.

Lemma resolveControllers_range scsi :
  (map_Forall (λ _ ctrl, resolvableController lib ctrl) scsi ∧
   resolveControllers lib order (range order scsi) scsi =
     (resolvedController lib <$> scsi, None)) ∨
  (¬ map_Forall (λ _ ctrl, resolvableController lib ctrl) scsi ∧
   ∃ scsi' err, resolveControllers lib order (range order scsi) scsi = (scsi', Some err)).
Proof.
  destruct (resolveControllers_run (range order scsi) scsi) as [[Hall ->]|[Hex Hrun]].
  - left. split.
    + intros k ctrl Hk. apply range_elem_of in Hk.
      by apply (proj1 (Forall_forall _ _) Hall (k, ctrl)).
    + rewrite foldl_update_range. f_equal. apply map_fmap_ext. by intros k [ctrl|] _.
  - right. split; [|done]. intros Hall.
    apply Exists_exists in Hex as ([k ctrl] & Hin & Hnot).
    apply range_elem_of in Hin. by apply Hnot, (Hall k ctrl).
Qed.

(** [makePathsAbsolute] succeeds exactly on the documents all of whose
    attachments resolve, and then it has resolved each of them. *)
Lemma makePathsAbsolute_ok spec spec' :
  makePathsAbsolute lib order spec = (spec', None) ↔
  map_Forall (λ _ ctrl, resolvableController lib ctrl) (scsiOf spec) ∧
  spec' = mapScsi (fmap (resolvedController lib)) spec.
Proof.
  unfold makePathsAbsolute, scsiOf, mapScsi.
  destruct (VirtualMachine spec) as [vm|];
    [destruct (Devices vm) as [dev|]|].
  - destruct (resolveControllers_range (Scsi dev))
      as [[Hall ->]|[Hnot (scsi' & err & ->)]].
    + split; [by intros [= <-]|by intros [_ ->]].
    + split; [done|by intros [? _]].
  - split; [intros [= <-]; split; [apply map_Forall_empty|done]|by intros [_ ->]].
  - split; [intros [= <-]; split; [apply map_Forall_empty|done]|by intros [_ ->]].
Qed.

End Resolution.

(** * The SCSI paths of a document *)

Section Paths.

Context (lib : Library) (order : RangeOrder).

Lemma elem_of_attachmentPaths (atts : gmap string (option ScsiAttachment)) p :
  p ∈ attachmentPaths (range order atts) ↔
  p ≠ "" ∧ ∃ slot att, atts !! slot = Some (Some att) ∧ Path att = p.
Proof.
  unfold attachmentPaths. rewrite list_elem_of_In, in_flat_map. split.
  - intros ([slot [att|]] & Hin & Hp); cbn [snd] in Hp; [|done].
    apply list_elem_of_In, range_elem_of in Hin.
    destruct (String.eqb_spec (Path att) ""); [done|].
    destruct Hp as [<-|[]]. split; [done|by eauto].
  - intros (Hne & slot & att & Hslot & <-).
    exists (slot, Some att). split; [by apply list_elem_of_In, range_elem_of|].
    simpl. destruct (String.eqb_spec (Path att) ""); [done|by left].
Qed.

Lemma elem_of_extractVHDPaths spec p :
  p ∈ extractVHDPaths order spec ↔ p ≠ "" ∧ hasAttachmentPath spec p.
Proof.
  unfold extractVHDPaths, hasAttachmentPath.
  destruct (VirtualMachine spec) as [vm|];
    [destruct (Devices vm) as [dev|] eqn:Hdev|].
  - unfold controllerPaths. rewrite list_elem_of_In, in_flat_map. split.
    + intros ([name [ctrl|]] & Hin & Hp); cbn [snd] in Hp; [|done].
      apply list_elem_of_In, range_elem_of in Hin.
      rewrite <- list_elem_of_In in Hp.
      apply (proj1 (elem_of_attachmentPaths _ _)) in Hp.
      destruct Hp as (Hne & slot & att & Hslot & Hpath).
      split; [done|]. by exists vm, dev, name, ctrl, slot, att.
    + intros (Hne & vm' & dev' & name & ctrl & slot & att & [= <-] & Hdev' & Hname
              & Hslot & Hpath).
      rewrite Hdev in Hdev'. injection Hdev' as <-.
      exists (name, Some ctrl). split; [by apply list_elem_of_In, range_elem_of|].
      cbn [snd]. apply list_elem_of_In, elem_of_attachmentPaths. by eauto.
  - split; [by intros ?%not_elem_of_nil|].
    intros (_ & vm' & dev' & ? & ? & ? & ? & [= <-] & ? & _). congruence.
  - split; [by intros ?%not_elem_of_nil|].
    by intros (_ & vm' & dev' & ? & ? & ? & ? & ? & _).
Qed.

Lemma scsiAbsent_no_path spec p : scsiAbsent spec → ¬ hasAttachmentPath spec p.
Proof.
  unfold scsiAbsent.
  intros Habsent (vm & dev & name & ctrl & slot & att & Hvm & Hdev & Hname & Hslot & _).
  rewrite Hvm, Hdev in Habsent.
  specialize (Habsent name (Some ctrl) Hname). simpl in Habsent.
  by specialize (Habsent slot (Some att) Hslot).
Qed.

Lemma scsiAbsent_extractVHDPaths spec :
  scsiAbsent spec → extractVHDPaths order spec = [].
Proof.
  intros Habsent. apply elem_of_nil_inv. intros p Hp.
  apply elem_of_extractVHDPaths in Hp as [_ Hp]. by eapply scsiAbsent_no_path.
Qed.

Lemma mapScsi_id spec : mapScsi id spec = spec.
Proof.
  unfold mapScsi. destruct spec as [owner version flag [vm|]]; simpl; [|done].
  destruct vm as [stop chipset topology [dev|]]; simpl; [|done]. by destruct dev.
Qed.

Lemma mapScsi_ext f g spec :
  f (scsiOf spec) = g (scsiOf spec) → mapScsi f spec = mapScsi g spec.
Proof.
  unfold mapScsi, scsiOf.
  destruct (VirtualMachine spec) as [vm|]; [|done].
  destruct (Devices vm) as [dev|]; [|done]. by intros ->.
Qed.

Lemma scsiAbsent_makePathsAbsolute spec :
  scsiAbsent spec → makePathsAbsolute lib order spec = (spec, None).
Proof.
  intros Habsent. apply makePathsAbsolute_ok.
  assert (map_Forall (λ _ ctrl, noAttachments ctrl) (scsiOf spec)) as Hall.
  { unfold scsiAbsent, scsiOf in *.
    destruct (VirtualMachine spec) as [vm|]; [|apply map_Forall_empty].
    destruct (Devices vm) as [dev|]; [done|apply map_Forall_empty]. }
  split.
  - intros name [ctrl|] Hname; [|done]. intros slot att Hslot.
    specialize (Hall name (Some ctrl) Hname slot att Hslot). simpl in Hall.
    by subst att.
  - rewrite <- (mapScsi_id spec) at 1. apply mapScsi_ext.
    symmetry. unfold id at 1.
    rewrite <- (map_fmap_id (scsiOf spec)) at 2.
    apply map_fmap_ext. intros name [[atts]|] Hname; [|done].
    simpl. f_equal. f_equal.
    rewrite <- (map_fmap_id atts) at 2.
    apply map_fmap_ext. intros slot att Hslot.
    specialize (Hall name _ Hname slot att Hslot). simpl in Hall. by subst att.
Qed.

Lemma scsiAbsent_defaultOwner spec : scsiAbsent spec → scsiAbsent (defaultOwner spec).
Proof. unfold defaultOwner. by destruct (String.eqb (Owner spec) ""). Qed.

End Paths.

(** * C10: nothing to attach *)

Lemma revokeEvents_nil vmID hrs : revokeEvents vmID [] hrs = [].
Proof. done. Qed.

Lemma grantEvents_nil vmID hrs : grantEvents vmID [] hrs = [].
Proof. done. Qed.

(** C10. Let the parsed document have no attachment: its virtual-machine
    section or its device section is nil, or every SCSI controller is nil or
    has only nil attachments (an empty or nil map has none of either).  Then
    path resolution succeeds and leaves the document as it is, path extraction
    returns the empty sequence, and every run of the transaction on it attempts
    and issues no grant and issues no revoke, whatever fails later; in
    particular it fails neither at path resolution nor at the grant step. *)
Theorem absent_scsi_no_grant_no_revoke
    host lib order specJSON name addGPU spec :
  json_Unmarshal lib specJSON = (spec, None) →
  scsiAbsent spec →
  makePathsAbsolute lib order spec = (spec, None) ∧
  extractVHDPaths order spec = [] ∧
  let run := CreateAndStartVM host lib order specJSON name addGPU [] in
  grantAttempts (snd run) = [] ∧ count isGrantCall (snd run) = 0%nat ∧
  count isRevokeCall (snd run) = 0%nat ∧
  ∀ e, fst run = Some e → ¬ isPathResolutionError e ∧ ¬ isAccessGrantError e.
Proof.
  intros Hparse Habsent.
  split; [by apply scsiAbsent_makePathsAbsolute|].
  split; [by apply scsiAbsent_extractVHDPaths|].
  pose proof (scsiAbsent_makePathsAbsolute lib order _
                (scsiAbsent_defaultOwner _ Habsent)) as Hresolve.
  pose proof (scsiAbsent_extractVHDPaths order _
                (scsiAbsent_defaultOwner _ Habsent)) as Hpaths.
  destruct (CreateAndStartVM_run host lib order specJSON name addGPU [])
    as (res & evs & -> & Hshape).
  cbn [fst snd app].
  assert (∀ e, res = Some e →
               (∃ format args cause, e = Errorf format args cause ∧
                  format ≠ "cannot resolve path %q: %w" ∧
                  format ≠ "grant VM access: %w") ∨
               (∃ op hr doc, e = HcsError op hr doc) →
               ¬ isPathResolutionError e ∧ ¬ isAccessGrantError e) as Hother.
  { intros e _ [(format & args & cause & -> & Hf1 & Hf2)|(op & hr & doc & ->)];
      (split; [intros (? & ? & ?)|intros (? & ?)]); congruence. }
  destruct Hshape
    as [parsed e Hparse'|parsed partial e Hparse' Hresolve'|spec1 gpus e _ _|spec1 _ _
       |spec1 final pre text e _ Hinj _
       |spec1 final pre finalJSON guid e _ Hinj _
       |spec1 final pre finalJSON guid res' rest Hspec1 Hinj _ Hgrant].
  - congruence.
  - congruence.
  - split_and!; try done. intros ? [= <-]. apply Hother; [done|]. left.
    by do 3 eexists.
  - split_and!; try done. intros ? [= <-]. apply Hother; [done|]. left.
    by do 3 eexists.
  - split_and!; [observe; done..|]. intros ? [= <-]. apply Hother; [done|]. left.
    by do 3 eexists.
  - split_and!; [observe; done..|]. intros ? [= <-]. apply Hother; [done|]. left.
    by do 3 eexists.
  - assert (extractVHDPaths order final = []) as Hfinal.
    { rewrite (InjectRun_paths order _ _ _ _ Hinj).
      destruct Hspec1 as (parsed & Hparse' & Hresolve').
      rewrite Hparse in Hparse'. injection Hparse' as <-.
      rewrite Hresolve in Hresolve'. by injection Hresolve' as <-. }
    rewrite Hfinal in Hgrant.
    destruct Hgrant as [K' p hrs failure e rhrs Hp HK' Hok Hfail Hrhrs
                       |hrs res' rest Hlen Hok HG Hcreate]; [done|].
    rewrite grantEvents_nil.
    destruct Hcreate
      as [rhrs Hr|op e whr doc rhrs Hop He Hr|op hr sys whr doc rhrs Hop Hhr Hr
         |op hr sys whr doc rhrs Hop Hhr Hwhr Hr
         |op hr sys whr doc res'' srest Hop Hhr Hwhr Hstart];
      rewrite ?revokeEvents_nil.
    + split_and!; [observe; done..|]. intros ? [= <-]. apply Hother; [done|]. left.
      by do 3 eexists.
    + split_and!; [observe; done..|]. intros ? [= <-]. apply Hother; [done|]. left.
      destruct He as [[_ ->]|(_ & _ & ->)]; by do 3 eexists.
    + split_and!; [observe; done..|]. intros ? [= <-]. apply Hother; [done|]. right.
      by do 3 eexists.
    + split_and!; [observe; simpl; by destruct (String.eqb _ _)..|].
      intros ? [= <-]. apply Hother; [done|]. left. by do 3 eexists.
    + destruct Hstart
        as [term rhrs Hterm Hr|op2 shr term rhrs Hop2 Hshr Hterm Hr
           |op2 shr swhr sdoc term rhrs Hop2 Hshr Hswhr Hterm Hr
           |op2 shr swhr sdoc Hop2 Hshr Hswhr];
        rewrite ?revokeEvents_nil.
      * split_and!; [observe; done..|]. intros ? [= <-]. apply Hother; [done|]. left.
        by do 3 eexists.
      * split_and!; [observe; done..|]. intros ? [= <-]. apply Hother; [done|]. right.
        by do 3 eexists.
      * split_and!; [observe; done..|]. intros ? [= <-]. apply Hother; [done|]. left.
        by do 3 eexists.
      * split_and!; [observe; done..|]. by intros ? [=].
Qed.

Lemma absent_scsi_witness :
  makePathsAbsolute exampleLib keyOrder noMachine = (noMachine, None) ∧
  extractVHDPaths keyOrder noMachine = [] ∧
  let run := exampleRun (createWaitFails None) "no-machine.json" false in
  grantAttempts (snd run) = [] ∧ count isGrantCall (snd run) = 0%nat ∧
  count isRevokeCall (snd run) = 0%nat ∧
  ∀ e, fst run = Some e → ¬ isPathResolutionError e ∧ ¬ isAccessGrantError e.
Proof.
  apply (absent_scsi_no_grant_no_revoke
           (faultyHost (createWaitFails None)) exampleLib keyOrder
           "no-machine.json" "" false noMachine).
  - vm_compute. reflexivity.
  - exact I.
Defined.

(** * The reference [filepath.Abs] keeps its promises *)

Section WinPathFacts.

Import WinPath.

Lemma hasNUL_app a b : hasNUL (a +:+ b) = hasNUL a || hasNUL b.
Proof.
  induction a as [|c a IH]; [done|].
  change (hasNUL (String c (a +:+ b)) = hasNUL (String c a) || hasNUL b).
  simpl. by rewrite IH, orb_assoc.
Qed.

Lemma splitPath_noSlash s : Forall (λ e, noSlash e = true) (splitPath s).
Proof.
  induction s as [|c s IH]; simpl; [by repeat constructor|].
  destruct (isSlash c) eqn:Hc; [by constructor|].
  destruct (splitPath s) as [|x xs].
  { apply Forall_cons_2; [|constructor]. unfold noSlash. simpl. by rewrite Hc. }
  apply Forall_cons in IH as [Hx Hxs]. constructor; [|done].
  unfold noSlash in *. simpl. by rewrite Hc, Hx.
Qed.

Lemma plainChar_noSlash c : plainChar c = true → isSlash c = false.
Proof.
  unfold plainChar. intros [[_ H]%andb_true_iff _]%andb_true_iff.
  by apply negb_true_iff in H.
Qed.

Lemma plainChar_not_NUL c : plainChar c = true → Ascii.eqb c "000" = false.
Proof. destruct c as [[] [] [] [] [] [] [] []]; by vm_compute. Qed.

Lemma allPlain_noSlash e : allPlain e = true → noSlash e = true.
Proof.
  unfold noSlash. induction e as [|c e IH]; [done|]. simpl.
  intros [Hc He]%andb_true_iff. by rewrite (plainChar_noSlash c Hc), IH.
Qed.

Lemma allPlain_noNUL e : allPlain e = true → hasNUL e = false.
Proof.
  induction e as [|c e IH]; [done|]. simpl.
  intros [Hc He]%andb_true_iff. by rewrite (plainChar_not_NUL c Hc), IH.
Qed.

Lemma cleanElement_allPlain e : cleanElement e = true → allPlain e = true.
Proof.
  unfold cleanElement, plainElement.
  by intros [[[_ ?]%andb_true_iff _]%andb_true_iff _]%andb_true_iff.
Qed.

Lemma cleanElement_noSlash e : cleanElement e = true → noSlash e = true.
Proof. intros He. by apply allPlain_noSlash, cleanElement_allPlain. Qed.

Lemma cleanElement_noNUL e : cleanElement e = true → hasNUL e = false.
Proof. intros He. by apply allPlain_noNUL, cleanElement_allPlain. Qed.

(** A clean element is none of the elements [cleanElements] drops. *)
Lemma cleanElement_kept e :
  cleanElement e = true →
  String.eqb e "" = false ∧ String.eqb e "." = false ∧ String.eqb e ".." = false.
Proof.
  unfold cleanElement, plainElement.
  intros [[[He _]%andb_true_iff Hdot%negb_true_iff]%andb_true_iff _]%andb_true_iff.
  apply negb_true_iff in He. split_and!; [done| |].
  - destruct (String.eqb_spec e "."); [by subst|done].
  - destruct (String.eqb_spec e ".."); [by subst|done].
Qed.

Lemma cleanElement_supported e : cleanElement e = true → supportedElement e = true.
Proof.
  unfold cleanElement, supportedElement. intros ->. by rewrite !orb_true_r.
Qed.

Lemma supportedElement_clean e :
  supportedElement e = true →
  String.eqb e "" || String.eqb e "." = false → String.eqb e ".." = false →
  cleanElement e = true.
Proof.
  unfold supportedElement, cleanElement.
  intros H [H0 H1]%orb_false_iff H2. by rewrite H0, H1, H2 in H.
Qed.

Lemma cleanElements_clean elements : ∀ stack,
  Forall (λ e, cleanElement e = true) stack →
  supported elements = true →
  Forall (λ e, cleanElement e = true) (cleanElements stack elements).
Proof.
  induction elements as [|e rest IH]; intros stack Hstack Hsup; simpl.
  - by apply Forall_rev.
  - cbn [supported forallb] in Hsup. apply andb_true_iff in Hsup as [He Hrest].
    destruct (String.eqb e "" || String.eqb e ".") eqn:H1; [by apply IH|].
    destruct (String.eqb e "..") eqn:H2.
    + apply IH; [|done]. destruct stack; [done|].
      by apply Forall_cons in Hstack as [_ ?].
    + apply IH; [|done]. constructor; [|done]. by apply supportedElement_clean.
Qed.

Lemma cleanElements_id elements : ∀ stack,
  Forall (λ e, cleanElement e = true) elements →
  cleanElements stack elements = rev stack ++ elements.
Proof.
  induction elements as [|e rest IH]; intros stack Hall; simpl.
  - by rewrite app_nil_r.
  - apply Forall_cons in Hall as [He Hrest].
    destruct (cleanElement_kept e He) as (H0 & H1 & H2).
    rewrite H0, H1, H2. simpl.
    rewrite IH by done. simpl. by rewrite <- app_assoc.
Qed.

Lemma supported_clean elements :
  Forall (λ e, cleanElement e = true) elements → supported elements = true.
Proof.
  induction 1 as [|e rest He _ IH]; [done|].
  cbn [supported forallb]. by rewrite (cleanElement_supported e He).
Qed.

Lemma supported_app a b : supported (a ++ b) = supported a && supported b.
Proof. apply forallb_app. Qed.

Lemma splitPath_element e s :
  noSlash e = true →
  splitPath (e +:+ String "\" s) = e :: splitPath s.
Proof.
  induction e as [|c e IH]; intros He.
  - done.
  - unfold noSlash in He. simpl in He. apply andb_true_iff in He as [Hc He].
    apply negb_true_iff in Hc.
    change (splitPath (String c (e +:+ String "\" s)) = String c e :: splitPath s).
    simpl. rewrite Hc, (IH He). done.
Qed.

Lemma splitPath_single e : noSlash e = true → splitPath e = [e].
Proof.
  induction e as [|c e IH]; intros He; [done|].
  unfold noSlash in He. simpl in He. apply andb_true_iff in He as [Hc He].
  apply negb_true_iff in Hc. simpl. by rewrite Hc, (IH He).
Qed.

Lemma splitPath_joinElements elements :
  elements ≠ [] → Forall (λ e, noSlash e = true) elements →
  splitPath (joinElements elements) = elements.
Proof.
  induction elements as [|e rest IH]; intros Hne Hall; [done|].
  apply Forall_cons in Hall as [He Hrest].
  destruct rest as [|e' rest'].
  - by apply splitPath_single.
  - change (joinElements (e :: e' :: rest'))
      with (e +:+ String "\" (joinElements (e' :: rest'))).
    rewrite splitPath_element by done. f_equal. by apply IH.
Qed.

Lemma hasNUL_joinElements elements :
  Forall (λ e, hasNUL e = false) elements → hasNUL (joinElements elements) = false.
Proof.
  induction elements as [|e rest IH]; intros Hall; [done|].
  apply Forall_cons in Hall as [He Hrest].
  destruct rest as [|e' rest']; [done|].
  change (joinElements (e :: e' :: rest'))
    with (e +:+ String "\" (joinElements (e' :: rest'))).
  rewrite hasNUL_app, He. simpl. by apply IH.
Qed.

Lemma isLetter_not_NUL d : isLetter d = true → Ascii.eqb d "000" = false.
Proof. destruct d as [[] [] [] [] [] [] [] []]; by vm_compute. Qed.

Lemma splitDrive_Some s d rest :
  splitDrive s = Some (d, rest) → isLetter d = true ∧ s = String d (String ":" rest).
Proof.
  destruct s as [|d' [|c rest']]; try done.
  destruct (Ascii.eqb_spec c ":") as [->|Hc].
  - cbn [splitDrive]. destruct (isLetter d') eqn:Hd; [|done]. by intros [= <- <-].
  - destruct c as [[] [] [] [] [] [] [] []]; done.
Qed.

(** What [Abs] returns is a drive and clean elements. *)
Lemma Abs_rendered cwd path q : Abs cwd path = (q, None) → absoluteClean q.
Proof.
  unfold Abs, absoluteClean. destruct (hasNUL path) eqn:Hnul; [done|].
  destruct (splitDrive path) as [[d rest]|] eqn:Hpath.
  - destruct (splitDrive_Some _ _ _ Hpath) as [Hd ->].
    destruct (rooted rest); [|done]. cbn [andb].
    destruct (supported (splitPath rest)) eqn:Hsup; [|done]. intros [= <-].
    exists d, (cleanElements [] (splitPath rest)). split_and!; [done| |done].
    by apply cleanElements_clean.
  - destruct (isUNC path); [done|]. cbn [orb].
    destruct (supported (splitPath path)) eqn:Hsup; [|done]. cbn [negb].
    destruct (splitDrive cwd) as [[d wd]|] eqn:Hcwd; [|done].
    destruct (splitDrive_Some _ _ _ Hcwd) as [Hd ->].
    destruct (rooted wd); cbn [negb orb]; [|done].
    destruct (supported (splitPath wd)) eqn:Hwd; cbn [negb]; [|done].
    destruct (rooted path); intros [= <-];
      eexists d, _; (split_and!; [done| |done]);
      (apply cleanElements_clean; [constructor|]); [done|].
    by rewrite supported_app, Hwd, Hsup.
Qed.

(** A drive and clean elements resolve to themselves. *)
Lemma Abs_render cwd d elements :
  isLetter d = true → Forall (λ e, cleanElement e = true) elements →
  Abs cwd (render d elements) = (render d elements, None).
Proof.
  intros Hd Hall. unfold Abs.
  assert (hasNUL (render d elements) = false) as ->.
  { unfold render. cbn [hasNUL]. rewrite (isLetter_not_NUL d Hd). simpl.
    apply hasNUL_joinElements. eapply Forall_impl; [done|]. apply cleanElement_noNUL. }
  unfold render at 1. cbn [splitDrive]. rewrite Hd. cbn [rooted].
  change (isSlash "\") with true. cbn [andb].
  change (splitPath (String "\" (joinElements elements)))
    with (EmptyString :: splitPath (joinElements elements)).
  assert (splitPath (joinElements elements) = elements ∨ elements = []) as [Hsplit| ->].
  { destruct elements as [|e rest]; [by right|left].
    apply splitPath_joinElements; [done|].
    eapply Forall_impl; [done|]. apply cleanElement_noSlash. }
  - rewrite Hsplit. cbn [supported forallb]. cbn [supportedElement String.eqb orb andb].
    fold (supported elements). rewrite (supported_clean elements Hall).
    cbn [cleanElements String.eqb orb]. by rewrite cleanElements_id.
  - done.
Qed.

Lemma IsAbs_render d elements : IsAbs (render d elements) = true.
Proof.
  unfold IsAbs, render. cbn [volumeNameLen Nat.eqb dropChars rooted].
  change (isSlash ":") with false. by rewrite andb_false_r.
Qed.

Lemma exampleLibrary_contract table cwd : AbsContract (exampleLibrary table cwd).
Proof.
  split; simpl; intros p q Hq;
    destruct (Abs_rendered _ _ _ Hq) as (d & elements & Hd & Hall & ->).
  - apply IsAbs_render.
  - by apply Abs_render.
Qed.

End WinPathFacts.

(** * C6: resolving twice *)

Section Idempotence.

Context (lib : Library) (order : RangeOrder).

Lemma hasAttachmentPath_scsiOf spec p :
  hasAttachmentPath spec p ↔
  ∃ name ctrl slot att,
    scsiOf spec !! name = Some (Some ctrl) ∧
    Attachments ctrl !! slot = Some (Some att) ∧ Path att = p.
Proof.
  unfold hasAttachmentPath, scsiOf. split.
  - intros (vm & dev & name & ctrl & slot & att & -> & -> & ?). by eauto 10.
  - intros (name & ctrl & slot & att & Hname & ?).
    destruct (VirtualMachine spec) as [vm|]; [|by rewrite lookup_empty in Hname].
    destruct (Devices vm) as [dev|] eqn:Hdev; [|by rewrite lookup_empty in Hname].
    by exists vm, dev, name, ctrl, slot, att.
Qed.

Lemma scsiOf_mapScsi f spec : f ∅ = ∅ → scsiOf (mapScsi f spec) = f (scsiOf spec).
Proof.
  intros Hf. unfold scsiOf, mapScsi.
  destruct (VirtualMachine spec) as [vm|] eqn:Hvm; [|by rewrite Hvm].
  destruct (Devices vm) as [dev|] eqn:Hdev; [done|]. by rewrite Hvm, Hdev.
Qed.

Lemma makePathsAbsolute_unchanged spec :
  (∀ name ctrl slot att,
     scsiOf spec !! name = Some (Some ctrl) → Attachments ctrl !! slot = Some att →
     resolvable lib att ∧ resolvedAttachment lib att = att) →
  makePathsAbsolute lib order spec = (spec, None).
Proof.
  intros Hall. apply makePathsAbsolute_ok. split.
  - intros name [ctrl|] Hname; [|done]. intros slot att Hslot.
    by apply (Hall name ctrl slot att).
  - rewrite <- (mapScsi_id spec) at 1. apply mapScsi_ext.
    symmetry. unfold id at 1.
    rewrite <- (map_fmap_id (scsiOf spec)) at 2.
    apply map_fmap_ext. intros name [[atts]|] Hname; [|done].
    simpl. f_equal. f_equal.
    rewrite <- (map_fmap_id atts) at 2.
    apply map_fmap_ext. intros slot att Hslot.
    by apply (Hall name (mkScsiController atts) slot att).
Qed.

(** An attachment whose path is empty, or resolves to itself, is left as it
    is. *)
Lemma resolveAttachment_fixed att :
  (∀ a, att = Some a → Path a = "" ∨ filepath_Abs lib (Path a) = (Path a, None)) →
  resolvable lib att ∧ resolvedAttachment lib att = att.
Proof.
  unfold resolvable, resolvedAttachment, resolveAttachment.
  intros Hfixed. destruct att as [[type path]|]; [|done].
  destruct (Hfixed _ eq_refl) as [Hempty|Habs]; simpl in *.
  - by rewrite Hempty.
  - destruct (String.eqb path ""); [done|]. by rewrite Habs.
Qed.

(** What a resolved attachment looks like. *)
Lemma resolvedAttachment_path `{!AbsContract lib} att a :
  resolvable lib att → resolvedAttachment lib att = Some a →
  Path a = "" ∨
  (filepath_IsAbs lib (Path a) = true ∧ filepath_Abs lib (Path a) = (Path a, None)).
Proof.
  unfold resolvable, resolvedAttachment, resolveAttachment.
  destruct att as [[type path]|]; [|done]. simpl.
  destruct (String.eqb_spec path "") as [->|Hne]; [intros _ [= <-]; by left|].
  destruct (filepath_Abs lib path) as [abs [err|]] eqn:Habs; [done|].
  intros _ [= <-]. right. simpl. split; [by eapply Abs_IsAbs|by eapply Abs_resolved].
Qed.

Lemma resolved_attachments `{!AbsContract lib} spec spec' name ctrl slot a :
  makePathsAbsolute lib order spec = (spec', None) →
  scsiOf spec' !! name = Some (Some ctrl) → Attachments ctrl !! slot = Some (Some a) →
  Path a = "" ∨
  (filepath_IsAbs lib (Path a) = true ∧ filepath_Abs lib (Path a) = (Path a, None)).
Proof.
  intros [Hall ->]%makePathsAbsolute_ok Hname Hslot.
  rewrite scsiOf_mapScsi in Hname by apply fmap_empty.
  rewrite lookup_fmap in Hname.
  destruct (scsiOf spec !! name) as [[ctrl0|]|] eqn:Hname0; try done.
  simpl in Hname. injection Hname as <-. simpl in Hslot.
  rewrite lookup_fmap in Hslot.
  destruct (Attachments ctrl0 !! slot) as [att0|] eqn:Hslot0; [|done].
  simpl in Hslot. injection Hslot as Hslot.
  eapply resolvedAttachment_path; [|done].
  by apply (Hall name (Some ctrl0) Hname0 slot att0).
Qed.

End Idempotence.

(** A library that answers as another does wherever that one answers
    resolves what it resolves, to the same documents. *)
Lemma resolveAttachment_agrees ref lib att att' :
  (∀ p q, filepath_Abs ref p = (q, None) → filepath_Abs lib p = (q, None)) →
  resolveAttachment ref att = (att', None) → resolveAttachment lib att = (att', None).
Proof.
  intros Hagree. unfold resolveAttachment. destruct att as [a|]; [|done].
  destruct (String.eqb (Path a) ""); [done|].
  destruct (filepath_Abs ref (Path a)) as [abs [err|]] eqn:Habs; [done|].
  intros [= <-]. by rewrite (Hagree _ _ Habs).
Qed.

Lemma makePathsAbsolute_agrees ref lib order spec spec' :
  (∀ p q, filepath_Abs ref p = (q, None) → filepath_Abs lib p = (q, None)) →
  makePathsAbsolute ref order spec = (spec', None) →
  makePathsAbsolute lib order spec = (spec', None).
Proof.
  intros Hagree [Hall ->]%makePathsAbsolute_ok. apply makePathsAbsolute_ok.
  assert (∀ att, resolvable ref att →
                 resolvable lib att ∧
                 resolvedAttachment lib att = resolvedAttachment ref att) as Hatt.
  { intros att Hres. unfold resolvable, resolvedAttachment in *.
    destruct (resolveAttachment ref att) as [att' err] eqn:Href.
    simpl in Hres. subst err.
    by rewrite (resolveAttachment_agrees ref lib att att' Hagree Href). }
  split.
  - intros name [ctrl|] Hname; [|done]. intros slot att Hslot.
    by apply Hatt, (Hall name (Some ctrl) Hname slot att Hslot).
  - apply mapScsi_ext. apply map_fmap_ext. intros name [ctrl|] Hname; [|done].
    simpl. do 2 f_equal. apply map_fmap_ext. intros slot att Hslot.
    by destruct (Hatt att (Hall name (Some ctrl) Hname slot att Hslot)).
Qed.




(** * C7: the paths of the submitted document *)

Lemma scsiOf_injectGPU spec gpus : scsiOf (injectGPU spec gpus) = scsiOf spec.
Proof.
  destruct spec as [owner version flag [[stop chipset topology [dev|]]|]]; by simpl.
Qed.

Lemma InjectRun_scsiOf addGPU spec final pre :
  InjectRun addGPU spec final pre → scsiOf final = scsiOf spec.
Proof. intros [|gpus _ _]; [done|]. apply scsiOf_injectGPU. Qed.

Lemma scsiOf_defaultOwner spec : scsiOf (defaultOwner spec) = scsiOf spec.
Proof. unfold defaultOwner. by destruct (String.eqb (Owner spec) ""). Qed.

(** The create call of a trace that has one. *)
Lemma create_split_unique (a' : Trace) : ∀ (a b b' : Trace) x x',
  isCreateCall x = true → count isCreateCall a' = 0%nat → count isCreateCall b' = 0%nat →
  a ++ x :: b = a' ++ x' :: b' → a = a' ∧ x = x' ∧ b = b'.
Proof.
  induction a' as [|y' a' IH]; intros a b b' x x' Hx Ha' Hb' Heq.
  - destruct a as [|y a]; simpl in Heq.
    + by injection Heq as -> ->.
    + injection Heq as -> <-. rewrite count_app, count_cons in Hb'.
      unfold count at 2 in Hb'. simpl in Hb'. rewrite Hx in Hb'. simpl in Hb'. lia.
  - rewrite count_cons in Ha'. destruct a as [|y a]; simpl in Heq.
    + injection Heq as -> _. unfold count at 1 in Ha'. simpl in Ha'.
      rewrite Hx in Ha'. simpl in Ha'. lia.
    + injection Heq as -> Heq.
      destruct (IH a b b' x x' Hx ltac:(lia) Hb' Heq) as (-> & -> & ->). done.
Qed.

Lemma count_create_split (a b : Trace) x :
  isCreateCall x = true → count isCreateCall (a ++ x :: b) ≠ 0%nat.
Proof.
  intros Hx. rewrite count_app, count_cons. unfold count at 2. simpl.
  rewrite Hx. simpl. lia.
Qed.

(** An accepted grant in a trace, and what came before it. *)
Lemma granted_split (tr : Trace) vmID p :
  (vmID, p) ∈ granted tr →
  ∃ pre hr post, tr = pre ++ EvGrantVmAccess vmID p hr :: post ∧ hrOK hr = true.
Proof.
  induction tr as [|e tr IH]; [by intros ?%not_elem_of_nil|].
  rewrite omap_cons1, elem_of_app. intros [Hhere|Hlater].
  - destruct e as [| | | | | | |v q hr| | | | |]; try by apply not_elem_of_nil in Hhere.
    simpl in Hhere. destruct (hrOK hr) eqn:Hhr; [|by apply not_elem_of_nil in Hhere].
    apply list_elem_of_singleton in Hhere as [= -> ->].
    by exists [], hr, tr.
  - destruct (IH Hlater) as (pre & hr & post & -> & Hhr).
    by exists (e :: pre), hr, post.
Qed.

(** What was granted before a point of a run exists at that point, on a
    host that grants access to existing files only and removes none. *)
Lemma granted_exists (files : Files) (tr before after : Trace) vmID p :
  tr = before ++ after → (vmID, p) ∈ granted before →
  grantsExistingFiles files tr → filesPersist files tr → files before p.
Proof.
  intros -> (pre & hr & mid & -> & Hhr)%granted_split Hgrants Hpersist.
  change (pre ++ EvGrantVmAccess vmID p hr :: mid)
    with (pre ++ (EvGrantVmAccess vmID p hr :: mid)).
  apply (Hpersist pre (EvGrantVmAccess vmID p hr :: mid) after).
  - by rewrite <- app_assoc.
  - apply (Hgrants pre vmID p hr (mid ++ after)); [|done].
    by rewrite <- app_assoc.
Qed.

(** The trace of a run up to its create call. *)
Lemma TransactionRun_create lib order specJSON name addGPU res tr before e after :
  TransactionRun lib order specJSON name addGPU res tr →
  isCreateCall e = true → tr = before ++ e :: after →
  ∃ spec final pre finalJSON guid hrs op hr sys,
    Resolved lib order specJSON spec ∧ InjectRun addGPU spec final pre ∧
    json_Marshal lib final = (finalJSON, None) ∧
    length hrs = length (extractVHDPaths order final) ∧
    Forall (λ hr, hrOK hr = true) hrs ∧
    e = EvCreateComputeSystem (vmIDOf guid) finalJSON op hr sys ∧
    before = pre ++ [EvGenerateGUID guid None; creatingEvent name (vmIDOf guid)]
                 ++ grantEvents (vmIDOf guid) (extractVHDPaths order final) hrs
                 ++ [EvCreateOperation op].
Proof.
  intros Hshape He Htr.
  pose proof (count_create_split before after e He) as Hcount.
  rewrite <- Htr in Hcount.
  destruct Hshape
    as [| | | |spec' final pre text e' _ Hinj _
       |spec' final pre finalJSON guid e' _ Hinj _
       |spec final pre finalJSON guid res' rest Hspec Hinj Hmarshal Hgrant];
    try (by exfalso; apply Hcount);
    try (by exfalso; apply Hcount; observe; reflexivity).
  destruct Hgrant as [K' p hrs failure e' rhrs Hp HK' Hok Hfail Hrhrs
                     |hrs res' rest Hlen Hok HG Hcreate].
  { exfalso. apply Hcount. observe. reflexivity. }
  assert (∀ op hr sys whr doc later,
            count isCreateCall later = 0%nat →
            rest = [EvCreateOperation op;
                    EvCreateComputeSystem (vmIDOf guid) finalJSON op hr sys;
                    EvWaitForOperationResult op infinite whr doc;
                    EvCloseOperation op] ++ later →
            e = EvCreateComputeSystem (vmIDOf guid) finalJSON op hr sys ∧
            before = pre ++ [EvGenerateGUID guid None; creatingEvent name (vmIDOf guid)]
                         ++ grantEvents (vmIDOf guid) (extractVHDPaths order final) hrs
                         ++ [EvCreateOperation op]) as Hsplit.
  { intros op hr sys whr doc later Hlater ->.
    destruct (create_split_unique
                (pre ++ [EvGenerateGUID guid None; creatingEvent name (vmIDOf guid)]
                     ++ grantEvents (vmIDOf guid) (extractVHDPaths order final) hrs
                     ++ [EvCreateOperation op])
                before after
                ([EvWaitForOperationResult op infinite whr doc; EvCloseOperation op]
                 ++ later)
                e (EvCreateComputeSystem (vmIDOf guid) finalJSON op hr sys))
      as (-> & -> & _); try done.
    - observe. reflexivity.
    - rewrite <- Htr. by rewrite <- !app_assoc. }
  destruct Hcreate
    as [rhrs Hr|op e' whr doc rhrs Hop He' Hr|op hr sys whr doc rhrs Hop Hhr Hr
       |op hr sys whr doc rhrs Hop Hhr Hwhr Hr
       |op hr sys whr doc res'' srest Hop Hhr Hwhr Hstart].
  - exfalso. apply Hcount. observe. reflexivity.
  - exfalso. apply Hcount. observe. reflexivity.
  - destruct (Hsplit op hr sys whr doc (revokeEvents (vmIDOf guid)
                (extractVHDPaths order final) rhrs)) as [-> ->];
      [observe; reflexivity|done|].
    by exists spec, final, pre, finalJSON, guid, hrs, op, hr, sys.
  - destruct (Hsplit op hr sys whr doc
                (revokeEvents (vmIDOf guid) (extractVHDPaths order final) rhrs
                 ++ (if String.eqb (default "" doc) "" then []
                     else [EvStderr "Create result: %s\n" [default "" doc]])))
      as [-> ->]; [|done|].
    { observe. by destruct (String.eqb _ _). }
    by exists spec, final, pre, finalJSON, guid, hrs, op, hr, sys.
  - destruct (Hsplit op hr sys whr doc srest) as [-> ->];
      [observe; reflexivity|done|].
    by exists spec, final, pre, finalJSON, guid, hrs, op, hr, sys.
Qed.




(** The host of this run is one the existence clause speaks of: with the
    three resolved files on it from start to end, every grant the service
    accepted was for a file that exists, and no file goes away. *)
Example example_host_grants_existing_files :
  let run := exampleRun noFaults "three-disks.json" false in
  let files := theFiles ["C:\work\data.vhdx"; "D:\pool\scratch.vhdx"; "C:\vm\boot.vhdx"] in
  grantsExistingFiles files (snd run) ∧ filesPersist files (snd run).
Proof.
  cbv zeta. split.
  - intros pre vmID p hr post Htr _.
    assert (EvGrantVmAccess vmID p hr ∈ snd (exampleRun noFaults "three-disks.json" false))
      as Hin.
    { rewrite Htr. apply elem_of_app. right. apply list_elem_of_here. }
    clear Htr. vm_compute in Hin. unfold theFiles.
    repeat (apply elem_of_cons in Hin as [Hin|Hin];
            [try discriminate Hin; injection Hin as -> -> ->; set_solver|]).
    by apply elem_of_nil in Hin.
  - intros pre mid post p _ Hp. exact Hp.
Qed.

(** * More on the pure functions *)

Lemma injectGPU_injectGPU spec gpus gpus' :
  injectGPU (injectGPU spec gpus) gpus' = injectGPU spec gpus'.
Proof. reflexivity. Qed.

Lemma flat_map_perm {A B} (f g : A → list B) (l l' : list A) :
  (∀ x, f x ≡ₚ g x) → l ≡ₚ l' → flat_map f l ≡ₚ flat_map g l'.
Proof.
  intros Hfg Hl. trans (flat_map g l).
  - clear Hl. induction l as [|x l IH]; cbn [flat_map]; [done|by f_equiv].
  - clear Hfg. induction Hl as [|x l l' _ IH|x y l|l l' l'' _ IH _ IH'];
      cbn [flat_map]; [done|by f_equiv| |by etrans].
    rewrite !(assoc app). f_equiv. apply Permutation_app_comm.
Qed.

Lemma extractVHDPaths_perm order order' spec :
  extractVHDPaths order spec ≡ₚ extractVHDPaths order' spec.
Proof.
  unfold extractVHDPaths.
  destruct (VirtualMachine spec) as [vm|]; [|done].
  destruct (Devices vm) as [dev|]; [|done].
  apply flat_map_perm; [|by rewrite !range_perm].
  intros [name [ctrl|]]; cbn [snd]; [|done].
  apply flat_map_perm; [done|by rewrite !range_perm].
Qed.

(** X1. The second of two [injectGPU] calls discards what the first put in,
    and no [injectGPU] call changes the VHD paths of the document. *)
Theorem injectGPU_overrides order spec gpus gpus' :
  injectGPU (injectGPU spec gpus) gpus' = injectGPU spec gpus' ∧
  virtualPciOf (injectGPU (injectGPU spec gpus) gpus') = injectLoop 0 gpus' ∅ ∧
  extractVHDPaths order (injectGPU spec gpus) = extractVHDPaths order spec.
Proof.
  split_and!; [done|done|]. apply extractVHDPaths_injectGPU.
Qed.

(** X2. The paths [extractVHDPaths] returns are the same under every
    iteration order of the maps, up to their order in the slice. *)
Theorem extractVHDPaths_order_independent order order' spec :
  extractVHDPaths order spec ≡ₚ extractVHDPaths order' spec.
Proof. apply extractVHDPaths_perm. Qed.

(** X3. Whether [makePathsAbsolute] succeeds does not depend on the
    iteration order of the maps, and when it succeeds neither does the
    document it returns. *)
Theorem makePathsAbsolute_order_independent lib order order' spec :
  (snd (makePathsAbsolute lib order spec) = None ↔
   snd (makePathsAbsolute lib order' spec) = None) ∧
  (snd (makePathsAbsolute lib order spec) = None →
   makePathsAbsolute lib order' spec = makePathsAbsolute lib order spec).
Proof.
  assert (∀ o o', snd (makePathsAbsolute lib o spec) = None →
                   makePathsAbsolute lib o' spec = makePathsAbsolute lib o spec) as H.
  { intros o o' Hok. destruct (makePathsAbsolute lib o spec) as [s e] eqn:Ho.
    simpl in Hok. subst e. apply makePathsAbsolute_ok in Ho as [Hall ->].
    by apply makePathsAbsolute_ok. }
  split; [|apply H].
  split; intros Hok; [rewrite (H order order' Hok)|rewrite (H order' order Hok)]; done.
Qed.

(** * The text of an [HcsError] *)

Example HcsError_Error_access_denied :
  HcsError_Error "HcsGrantVmAccess(C:\a.vhdx)" eAccessDenied "" =
  "HcsGrantVmAccess(C:\a.vhdx): HRESULT 0x80070005 (Access denied — run as Administrator)".
Proof. vm_compute. reflexivity. Qed.

Example HcsError_Error_result :
  HcsError_Error "HcsWaitForOperationResult" 0xc0370103 "{}" =
  "HcsWaitForOperationResult: HRESULT 0xc0370103" +:+ newline +:+ "  result: {}".
Proof. vm_compute. reflexivity. Qed.

Lemma hexValue_lowerHexDigit x : 0 ≤ x < 16 → hexValue (lowerHexDigit x) = Some x.
Proof.
  intros Hx. assert (∃ k, (k < 16)%nat ∧ x = Z.of_nat k) as (k & Hk & ->).
  { exists (Z.to_nat x). lia. }
  do 16 (destruct k as [|k]; [reflexivity|]). lia.
Qed.

Lemma parseHexFrom_lowerHexN n v acc :
  parseHexFrom acc (lowerHexN n v) =
    Some (acc * 16 ^ Z.of_nat n + v mod 16 ^ Z.of_nat n).
Proof.
  by apply (parseHexFrom_digits lowerHexDigit lowerHexN hexValue_lowerHexDigit).
Qed.

Lemma length_lowerHexN n v : String.length (lowerHexN n v) = n.
Proof. induction n as [|n IH]; simpl; [done|by rewrite IH]. Qed.

Lemma lowerHexN_inj n v v' :
  0 ≤ v < 16 ^ Z.of_nat n → 0 ≤ v' < 16 ^ Z.of_nat n →
  lowerHexN n v = lowerHexN n v' → v = v'.
Proof.
  intros Hv Hv' Heq. pose proof (parseHexFrom_lowerHexN n v 0) as H.
  rewrite Heq, parseHexFrom_lowerHexN in H. injection H as H.
  rewrite !Z.mod_small in H by done. lia.
Qed.



(** X5. For one operation name, different HRESULTs or different result
    documents give different error texts. *)
Theorem HcsError_Error_inj Op HR HR' ResultJSON ResultJSON' :
  0 ≤ HR < 2 ^ 32 → 0 ≤ HR' < 2 ^ 32 →
  HcsError_Error Op HR ResultJSON = HcsError_Error Op HR' ResultJSON' →
  HR = HR' ∧ ResultJSON = ResultJSON'.
Proof.
  intros HHR HHR' Heq. unfold HcsError_Error in Heq.
  apply append_inv_head in Heq.
  apply (append_inv_head ": HRESULT ") in Heq.
  apply (append_inj_length ("0x" +:+ lowerHexN 8 HR) ("0x" +:+ lowerHexN 8 HR'))
    in Heq as [Hhex Heq].
  2: { change (S (S (String.length (lowerHexN 8 HR))) =
               S (S (String.length (lowerHexN 8 HR')))).
       by rewrite !length_lowerHexN. }
  apply (append_inv_head "0x") in Hhex.
  apply lowerHexN_inj in Hhex as <-;
    [|by change (16 ^ Z.of_nat 8) with (2 ^ 32)..].
  split; [done|].
  apply append_inv_head in Heq.
  destruct (String.eqb_spec ResultJSON "") as [->|Hne],
           (String.eqb_spec ResultJSON' "") as [->|Hne']; try done.
  apply (append_inv_head newline) in Heq.
  by apply (append_inv_head "  result: ") in Heq.
Qed.

Lemma HcsError_Error_inj_witness : eAccessDenied = eAccessDenied ∧ "{}" = "{}".
Proof.
  apply (HcsError_Error_inj "HcsCreateComputeSystem" eAccessDenied eAccessDenied
                            "{}" "{}");
    [by vm_compute|by vm_compute|reflexivity].
Defined.

(** * What path resolution changes, and how it fails *)

Section ResolutionFacts.

Context (lib : Library) (order : RangeOrder).

Lemma pathResolved_resolvedAttachment a :
  resolvable lib (Some a) →
  option_Forall2 (pathResolved lib) (Some a) (resolvedAttachment lib (Some a)).
Proof.
  unfold resolvable, resolvedAttachment, pathResolved, resolveAttachment.
  destruct (String.eqb_spec (Path a) "") as [Hempty|Hne].
  - intros _. simpl. constructor. split; [done|].
    by destruct (String.eqb_spec (Path a) "").
  - destruct (filepath_Abs lib (Path a)) as [abs [err|]] eqn:Habs; [done|].
    intros _. simpl. constructor. split; [done|].
    by destruct (String.eqb_spec (Path a) "").
Qed.

Lemma resolveAttachments_error entries : ∀ atts atts' err,
  resolveAttachments lib entries atts = (atts', Some err) →
  ∃ slot a abs cause,
    (slot, Some a) ∈ entries ∧ Path a ≠ "" ∧
    filepath_Abs lib (Path a) = (abs, Some cause) ∧
    err = Errorf "cannot resolve path %q: %w" [Path a] (Some cause).
Proof.
  induction entries as [|[slot att] rest IH]; intros atts atts' err Hrun; [done|].
  cbn [resolveAttachments] in Hrun.
  destruct (resolveAttachment lib att) as [att' [e|]] eqn:Hatt.
  - injection Hrun as _ <-. unfold resolveAttachment in Hatt.
    destruct att as [a|]; [|done].
    destruct (String.eqb_spec (Path a) "") as [|Hne]; [done|].
    destruct (filepath_Abs lib (Path a)) as [abs [cause|]] eqn:Habs; [|done].
    injection Hatt as _ <-. exists slot, a, abs, cause.
    split_and!; [apply list_elem_of_here|done..].
  - destruct (IH _ _ _ Hrun) as (slot' & a & abs & cause & Hin & Hrest).
    exists slot', a, abs, cause. split; [by apply list_elem_of_further|done].
Qed.

Lemma resolveControllers_error entries : ∀ scsi scsi' err,
  resolveControllers lib order entries scsi = (scsi', Some err) →
  ∃ name ctrl slot a abs cause,
    (name, Some ctrl) ∈ entries ∧ Attachments ctrl !! slot = Some (Some a) ∧
    Path a ≠ "" ∧ filepath_Abs lib (Path a) = (abs, Some cause) ∧
    err = Errorf "cannot resolve path %q: %w" [Path a] (Some cause).
Proof.
  induction entries as [|[name [ctrl|]] rest IH]; intros scsi scsi' err Hrun;
    [done| |]; cbn [resolveControllers] in Hrun.
  - destruct (resolveAttachments lib (range order (Attachments ctrl))
                                 (Attachments ctrl)) as [atts' [e|]] eqn:Hatts.
    + injection Hrun as _ <-.
      apply resolveAttachments_error in Hatts
        as (slot & a & abs & cause & Hin & Hrest).
      apply range_elem_of in Hin.
      exists name, ctrl, slot, a, abs, cause. split; [apply list_elem_of_here|done].
    + destruct (IH _ _ _ Hrun) as (name' & ctrl' & slot & a & abs & cause & Hin & Hrest).
      exists name', ctrl', slot, a, abs, cause.
      split; [by apply list_elem_of_further|done].
  - destruct (IH _ _ _ Hrun) as (name' & ctrl' & slot & a & abs & cause & Hin & Hrest).
    exists name', ctrl', slot, a, abs, cause.
    split; [by apply list_elem_of_further|done].
Qed.

Lemma makePathsAbsolute_error spec partial err :
  makePathsAbsolute lib order spec = (partial, Some err) →
  ∃ p abs cause,
    p ≠ "" ∧ hasAttachmentPath spec p ∧ filepath_Abs lib p = (abs, Some cause) ∧
    err = Errorf "cannot resolve path %q: %w" [p] (Some cause).
Proof.
  unfold makePathsAbsolute, hasAttachmentPath.
  destruct (VirtualMachine spec) as [vm|]; [|done].
  destruct (Devices vm) as [dev|] eqn:Hdev; [|done].
  destruct (resolveControllers lib order (range order (Scsi dev)) (Scsi dev))
    as [scsi' e] eqn:Hrun.
  intros [= _ ->].
  apply resolveControllers_error in Hrun
    as (name & ctrl & slot & a & abs & cause & Hin & Hslot & Hne & Habs & ->).
  apply range_elem_of in Hin.
  exists (Path a), abs, cause. split_and!; try done.
  by exists vm, dev, name, ctrl, slot, a.
Qed.

Lemma owner_mapScsi f spec : Owner (mapScsi f spec) = Owner spec.
Proof.
  unfold mapScsi. destruct (VirtualMachine spec) as [vm|]; [|done].
  by destruct (Devices vm).
Qed.

Lemma virtualPciOf_mapScsi f spec : virtualPciOf (mapScsi f spec) = virtualPciOf spec.
Proof.
  unfold mapScsi, virtualPciOf. destruct (VirtualMachine spec) as [vm|] eqn:Hvm.
  - destruct (Devices vm) as [dev|] eqn:Hdev; simpl; [done|by rewrite Hvm, Hdev].
  - by rewrite Hvm.
Qed.

End ResolutionFacts.



(** * Handles are used while they are held *)

Lemma operationsLive_app (a b : Trace) open :
  operationsLive (a ++ b) open =
    operationsLive a open &&
    from_option (operationsLive b) true (trackOperations a open).
Proof.
  revert open. induction a as [|e a IH]; intros open; [done|].
  destruct e as [r1|op| | | | | | | | | | |];
    cbn [app operationsLive trackOperations operationUsed];
    rewrite ?andb_true_l, <- ?andb_assoc; try (f_equal; apply IH); try apply IH.
  - destruct (r1 =? 0); apply IH.
  - destruct (removeFirst op open); [apply IH|done].
Qed.

Lemma operationsLive_ofKinds ks (evs : Trace) open :
  Forall (λ e, ofKinds ks e = true) evs →
  (∀ e, ofKinds ks e = true →
        operationUsed e = None ∧ isCreateOperation e = false ∧
        isCloseOperation e = false) →
  operationsLive evs open = true.
Proof.
  intros Hall Hk. induction Hall as [|e evs He _ IH]; [done|].
  destruct (Hk e He) as (H1 & H2 & H3). by destruct e.
Qed.

Ltac by_kinds3 :=
  intros []; unfold ofKinds; simpl;
  repeat (destruct (String.eqb _ grantLogFormat); simpl);
  try intros ?; by repeat case_match.

(** An operation opened, used and closed. *)
Lemma operationsLive_bracket op mid rest open :
  op ≠ 0 →
  Forall (λ e, operationUsed e = Some op ∧ isCreateOperation e = false ∧
               isCloseOperation e = false) mid →
  operationsLive (EvCreateOperation op :: mid ++ EvCloseOperation op :: rest) open =
  operationsLive rest open.
Proof.
  intros Hop Hmid. cbn [operationsLive operationUsed]. rewrite andb_true_l.
  rewrite (proj2 (Z.eqb_neq op 0) Hop).
  induction Hmid as [|e mid (Hused & Hcreate & Hclose) _ IH].
  - simpl. by rewrite Z.eqb_refl.
  - cbn [app operationsLive]. rewrite Hused.
    rewrite bool_decide_eq_true_2 by apply list_elem_of_here.
    by destruct e.
Qed.

Ltac bracket_uses := repeat constructor.

Lemma TerminateRun_live sys term open :
  TerminateRun sys term → operationsLive term open = true.
Proof.
  intros [|op hr whr doc Hop].
  - simpl. eapply operationsLive_ofKinds; [apply closeSystemEvents_kinds|by_kinds3].
  - change (operationsLive
              (EvCreateOperation op
               :: [EvTerminateComputeSystem sys op hr;
                   EvWaitForOperationResult op 5000 whr doc]
               ++ EvCloseOperation op :: closeSystemEvents sys) open = true).
    rewrite operationsLive_bracket by (done || bracket_uses).
    eapply operationsLive_ofKinds; [apply closeSystemEvents_kinds|by_kinds3].
Qed.

Lemma revokeEvents_live vmID paths hrs open :
  operationsLive (revokeEvents vmID paths hrs) open = true.
Proof. eapply operationsLive_ofKinds; [apply revokeEvents_kinds|by_kinds3]. Qed.

Lemma grantEvents_live vmID paths hrs open :
  operationsLive (grantEvents vmID paths hrs) open = true.
Proof. eapply operationsLive_ofKinds; [apply grantEvents_kinds|by_kinds3]. Qed.

Lemma live_after_terminate vmID sys paths term rhrs open :
  TerminateRun sys term →
  operationsLive (term ++ revokeEvents vmID paths rhrs) open = true.
Proof.
  intros Hterm.
  rewrite operationsLive_app, (TerminateRun_live _ _ _ Hterm),
    (TerminateRun_track _ _ _ Hterm).
  apply revokeEvents_live.
Qed.

Lemma StartRun_live vmID sys paths res evs open :
  StartRun vmID sys paths res evs → operationsLive evs open = true.
Proof.
  intros [term rhrs Hterm _|op2 hr term rhrs Hop _ Hterm _
         |op2 hr whr doc term rhrs Hop _ _ Hterm _|op2 hr whr doc Hop _ _].
  - change (operationsLive (term ++ revokeEvents vmID paths rhrs) open = true).
    by eapply live_after_terminate.
  - change (operationsLive
              (EvCreateOperation op2 :: [EvStartComputeSystem sys op2 hr]
               ++ EvCloseOperation op2 :: term ++ revokeEvents vmID paths rhrs) open
            = true).
    rewrite operationsLive_bracket by (done || bracket_uses).
    by eapply live_after_terminate.
  - change (operationsLive
              (EvCreateOperation op2
               :: [EvStartComputeSystem sys op2 hr;
                   EvWaitForOperationResult op2 infinite whr doc]
               ++ EvCloseOperation op2 :: term ++ revokeEvents vmID paths rhrs) open
            = true).
    rewrite operationsLive_bracket by (done || bracket_uses).
    by eapply live_after_terminate.
  - change (operationsLive
              (EvCreateOperation op2
               :: [EvStartComputeSystem sys op2 hr;
                   EvWaitForOperationResult op2 infinite whr doc]
               ++ EvCloseOperation op2
               :: closeSystemEvents sys
                  ++ [EvStdout vmID; EvStderr "VM started successfully.\n" []]) open
            = true).
    rewrite operationsLive_bracket by (done || bracket_uses).
    rewrite operationsLive_app.
    rewrite (operationsLive_ofKinds _ _ _ (closeSystemEvents_kinds sys))
      by by_kinds3.
    rewrite (trackOperations_ofKinds _ _ _ (closeSystemEvents_kinds sys))
      by by_kinds.
    done.
Qed.

Lemma CreateRun_live vmID finalJSON paths res evs open :
  CreateRun vmID finalJSON paths res evs → operationsLive evs open = true.
Proof.
  intros [rhrs _|op e whr doc rhrs Hop _ _|op hr sys whr doc rhrs Hop _ _
         |op hr sys whr doc rhrs Hop _ _ _|op hr sys whr doc res' rest Hop _ _ Hstart].
  - change (operationsLive (revokeEvents vmID paths rhrs) open = true).
    apply revokeEvents_live.
  - change (operationsLive
              (EvCreateOperation op :: [EvWaitForOperationResult op infinite whr doc]
               ++ EvCloseOperation op :: revokeEvents vmID paths rhrs) open
            = true).
    rewrite operationsLive_bracket by (done || bracket_uses). apply revokeEvents_live.
  - change (operationsLive
              (EvCreateOperation op
               :: [EvCreateComputeSystem vmID finalJSON op hr sys;
                   EvWaitForOperationResult op infinite whr doc]
               ++ EvCloseOperation op :: revokeEvents vmID paths rhrs) open
            = true).
    rewrite operationsLive_bracket by (done || bracket_uses). apply revokeEvents_live.
  - change (operationsLive
              (EvCreateOperation op
               :: [EvCreateComputeSystem vmID finalJSON op hr sys;
                   EvWaitForOperationResult op infinite whr doc]
               ++ EvCloseOperation op
               :: revokeEvents vmID paths rhrs
                  ++ (if String.eqb (default "" doc) "" then []
                      else [EvStderr "Create result: %s\n" [default "" doc]])) open
            = true).
    rewrite operationsLive_bracket by (done || bracket_uses).
    rewrite operationsLive_app, revokeEvents_live, revokeEvents_track. simpl.
    by destruct (String.eqb _ _).
  - change (operationsLive
              (EvCreateOperation op
               :: [EvCreateComputeSystem vmID finalJSON op hr sys;
                   EvWaitForOperationResult op infinite whr doc]
               ++ EvCloseOperation op :: rest) open
            = true).
    rewrite operationsLive_bracket by (done || bracket_uses). by eapply StartRun_live.
Qed.

Lemma GrantRun_live vmID finalJSON paths res evs open :
  GrantRun vmID finalJSON paths res evs → operationsLive evs open = true.
Proof.
  intros [K p hrs failure e rhrs _ _ _ Hfail _|hrs res' rest _ _ _ Hcreate].
  - rewrite operationsLive_app, grantEvents_live, grantEvents_track. simpl.
    rewrite operationsLive_app.
    rewrite (operationsLive_ofKinds _ _ _ (GrantFailure_kinds _ _ _ _ Hfail))
      by by_kinds3.
    rewrite (trackOperations_ofKinds _ _ _ (GrantFailure_kinds _ _ _ _ Hfail))
      by by_kinds.
    simpl. apply revokeEvents_live.
  - rewrite operationsLive_app, grantEvents_live, grantEvents_track. simpl.
    by eapply CreateRun_live.
Qed.

Lemma InjectRun_live addGPU spec final pre open :
  InjectRun addGPU spec final pre → operationsLive pre open = true.
Proof.
  intros [|gpus _ _]; [done|].
  eapply operationsLive_ofKinds; [apply injectEvents_kinds|by_kinds3].
Qed.

Lemma TransactionRun_live lib order specJSON name addGPU res evs open :
  TransactionRun lib order specJSON name addGPU res evs →
  operationsLive evs open = true.
Proof.
  intros [| | | |spec final pre text e _ Hinj _
         |spec final pre finalJSON guid e _ Hinj _
         |spec final pre finalJSON guid res' rest _ Hinj _ Hgrant]; try done.
  - by eapply InjectRun_live.
  - rewrite operationsLive_app, (InjectRun_live _ _ _ _ _ Hinj),
      (InjectRun_track _ _ _ _ _ Hinj). done.
  - rewrite operationsLive_app, (InjectRun_live _ _ _ _ _ Hinj),
      (InjectRun_track _ _ _ _ _ Hinj). simpl.
    unfold creatingEvent. destruct (String.eqb name ""); by eapply GrantRun_live.
Qed.

(** X7. In every run of [CreateAndStartVM], whatever the host answers, each
    operation handle handed to a wait, create, start or terminate call is
    open at that moment: it was returned by [HcsCreateOperation], is not
    NULL, and has not been closed yet. *)
Theorem operations_used_while_open host lib order specJSON name addGPU :
  operationsLive (snd (CreateAndStartVM host lib order specJSON name addGPU [])) []
  = true.
Proof.
  destruct (CreateAndStartVM_run host lib order specJSON name addGPU [])
    as (res & evs & -> & Hrun).
  by eapply TransactionRun_live.
Qed.

(** * The VM handle *)

Lemma trackSystem_app (a b : Trace) st :
  trackSystem (a ++ b) st = trackSystem a st ≫= trackSystem b.
Proof.
  revert st. induction a as [|e a IH]; intros st; [done|].
  cbn [app trackSystem]. destruct (systemStep st e); [apply IH|done].
Qed.

Lemma trackSystem_ofKinds ks (evs : Trace) st :
  Forall (λ e, ofKinds ks e = true) evs →
  (∀ e, ofKinds ks e = true → ∀ st, systemStep st e = Some st) →
  trackSystem evs st = Some st.
Proof.
  intros Hall Hk. induction Hall as [|e evs He _ IH]; [done|].
  cbn [trackSystem]. by rewrite (Hk e He).
Qed.

Ltac by_kinds_step :=
  intros []; unfold ofKinds; simpl;
  repeat (destruct (String.eqb _ grantLogFormat); simpl);
  try intros ?; try intros ?; by repeat case_match.

Lemma closeSystemEvents_system sys :
  trackSystem (closeSystemEvents sys) (Held sys) = Some (afterClose sys).
Proof.
  unfold closeSystemEvents, afterClose. destruct (sys =? 0) eqn:Hsys; [done|].
  simpl. by rewrite Z.eqb_refl.
Qed.

Lemma revokeEvents_system vmID paths hrs st :
  trackSystem (revokeEvents vmID paths hrs) st = Some st.
Proof. eapply trackSystem_ofKinds; [apply revokeEvents_kinds|by_kinds_step]. Qed.

Lemma grantEvents_system vmID paths hrs st :
  trackSystem (grantEvents vmID paths hrs) st = Some st.
Proof. eapply trackSystem_ofKinds; [apply grantEvents_kinds|by_kinds_step]. Qed.

Lemma TerminateRun_system sys term :
  TerminateRun sys term → trackSystem term (Held sys) = Some (afterClose sys).
Proof.
  intros [|op hr whr doc Hop].
  - apply closeSystemEvents_system.
  - cbn [app trackSystem systemStep holds]. rewrite Z.eqb_refl.
    apply closeSystemEvents_system.
Qed.

Lemma StartRun_system vmID sys paths res evs :
  StartRun vmID sys paths res evs → trackSystem evs (Held sys) = Some (afterClose sys).
Proof.
  intros [term rhrs Hterm _|op2 hr term rhrs Hop _ Hterm _
         |op2 hr whr doc term rhrs Hop _ _ Hterm _|op2 hr whr doc Hop _ _];
    cbn [app trackSystem systemStep holds]; rewrite ?Z.eqb_refl;
    rewrite trackSystem_app.
  1-3: rewrite (TerminateRun_system _ _ Hterm); apply revokeEvents_system.
  by rewrite closeSystemEvents_system.
Qed.

Lemma CreateRun_system vmID finalJSON paths res evs :
  CreateRun vmID finalJSON paths res evs →
  ∃ st, trackSystem evs NoSystem = Some st ∧
        ∀ sys, st = Held sys →
               sys = 0 ∨ ∃ we, res = Some (Errorf "create compute system: %w" []
                                                  (Some we)).
Proof.
  intros [rhrs _|op e whr doc rhrs Hop _ _|op hr sys whr doc rhrs Hop Hhr _
         |op hr sys whr doc rhrs Hop Hhr _ _
         |op hr sys whr doc res' rest Hop Hhr _ Hstart];
    cbn [app trackSystem systemStep]; rewrite ?Hhr.
  - exists NoSystem. by rewrite revokeEvents_system.
  - exists NoSystem. by rewrite revokeEvents_system.
  - exists NoSystem. by rewrite revokeEvents_system.
  - exists (Held sys). rewrite trackSystem_app, revokeEvents_system. split.
    + simpl. by destruct (String.eqb _ _).
    + intros ? _. right. by eexists.
  - exists (afterClose sys). split; [by eapply StartRun_system|].
    unfold afterClose. destruct (sys =? 0) eqn:Hsys; [|done].
    intros ? [= <-]. left. lia.
Qed.

Lemma GrantRun_system vmID finalJSON paths res evs :
  GrantRun vmID finalJSON paths res evs →
  ∃ st, trackSystem evs NoSystem = Some st ∧
        ∀ sys, st = Held sys →
               sys = 0 ∨ ∃ we, res = Some (Errorf "create compute system: %w" []
                                                  (Some we)).
Proof.
  intros [K p hrs failure e rhrs _ _ _ Hfail _|hrs res' rest _ _ _ Hcreate].
  - exists NoSystem. split; [|done].
    rewrite trackSystem_app, grantEvents_system. simpl.
    rewrite trackSystem_app.
    rewrite (trackSystem_ofKinds _ _ _ (GrantFailure_kinds _ _ _ _ Hfail))
      by by_kinds_step.
    simpl. apply revokeEvents_system.
  - rewrite trackSystem_app, grantEvents_system. simpl.
    by eapply CreateRun_system.
Qed.

Lemma InjectRun_system addGPU spec final pre st :
  InjectRun addGPU spec final pre → trackSystem pre st = Some st.
Proof.
  intros [|gpus _ _]; [done|].
  eapply trackSystem_ofKinds; [apply injectEvents_kinds|by_kinds_step].
Qed.

(** X8. In every run of [CreateAndStartVM] at most one VM object is created;
    start, terminate and close are only called on the handle of that object
    and while the process holds it; nothing uses the handle after
    [HcsCloseComputeSystem].  When the run ends the handle has been released,
    unless it is NULL or the wait on the create operation failed: then the
    run returns the create error without releasing the handle the create
    call wrote. *)
Theorem system_handle_used_while_held host lib order specJSON name addGPU :
  let run := CreateAndStartVM host lib order specJSON name addGPU [] in
  ∃ st, trackSystem (snd run) NoSystem = Some st ∧
        ∀ sys, st = Held sys →
               sys = 0 ∨ ∃ we, fst run = Some (Errorf "create compute system: %w" []
                                                      (Some we)).
Proof.
  destruct (CreateAndStartVM_run host lib order specJSON name addGPU [])
    as (res & evs & Heq & Hrun).
  cbv zeta. rewrite Heq. cbn [fst snd app].
  destruct Hrun
    as [| | | |spec final pre text e _ Hinj _
       |spec final pre finalJSON guid e _ Hinj _
       |spec final pre finalJSON guid res' rest _ Hinj _ Hgrant];
    try by (exists NoSystem).
  - exists NoSystem. split; [by eapply InjectRun_system|done].
  - exists NoSystem. rewrite trackSystem_app, (InjectRun_system _ _ _ _ _ Hinj).
    done.
  - rewrite trackSystem_app, (InjectRun_system _ _ _ _ _ Hinj). simpl.
    unfold creatingEvent. destruct (String.eqb name ""); by eapply GrantRun_system.
Qed.

(** X9. A run of [CreateAndStartVM] that returns an error writes nothing on
    standard output: the VM identity is printed only when the VM was started. *)
Theorem failure_prints_no_identity host lib order specJSON name addGPU e tr :
  CreateAndStartVM host lib order specJSON name addGPU [] = (Some e, tr) →
  stdout tr = [].
Proof.
  intros Hrun.
  destruct (CreateAndStartVM_run host lib order specJSON name addGPU [])
    as (res' & evs & Heq & Hshape).
  rewrite Heq in Hrun. injection Hrun as Hres <-. clear Heq. cbn [app].
  destruct Hshape
    as [| | | |spec' final pre text e' _ Hinj _
       |spec' final pre finalJSON guid e' _ Hinj _
       |spec final pre finalJSON guid res' rest Hspec Hinj _ Hgrant];
    try done; observe; try done.
  destruct Hgrant as [K' p hrs failure e' rhrs Hp HK' Hok Hfail Hrhrs
                     |hrs res' rest Hlen Hok HG Hcreate]; observe; try done.
  destruct Hcreate
    as [rhrs Hr|op e' whr doc rhrs Hop He Hr|op hr sys whr doc rhrs Hop Hhr Hr
       |op hr sys whr doc rhrs Hop Hhr Hwhr Hr
       |op hr sys whr doc res'' srest Hop Hhr Hwhr Hstart]; observe; try done.
  - simpl. by destruct (String.eqb _ _).
  - destruct Hstart
      as [term rhrs Hterm Hr|op2 shr term rhrs Hop2 Hshr Hterm Hr
         |op2 shr swhr sdoc term rhrs Hop2 Hshr Hswhr Hterm Hr
         |op2 shr swhr sdoc Hop2 Hshr Hswhr]; observe; done.
Qed.

Lemma failure_prints_no_identity_witness :
  stdout (snd (exampleRun (withGrantFault 2) "three-disks.json" false)) = [].
Proof.
  apply (failure_prints_no_identity
           (faultyHost (withGrantFault 2)) exampleLib keyOrder "three-disks.json" "" false
           (Errorf "grant VM access: %w" []
              (Some (HcsError "HcsGrantVmAccess(C:\vm\boot.vhdx)" 0x80070005 "")))).
  vm_compute. reflexivity.
Defined.

(** X10. When a path of the document does not resolve, [CreateAndStartVM]
    returns before it calls the host or writes anything; the error names a
    non-empty attachment path of the document and wraps the error
    [filepath.Abs] gave for it. *)
Theorem unresolvable_path_aborts
    host lib order specJSON name addGPU parsed partial e :
  json_Unmarshal lib specJSON = (parsed, None) →
  makePathsAbsolute lib order (defaultOwner parsed) = (partial, Some e) →
  CreateAndStartVM host lib order specJSON name addGPU [] = (Some e, []) ∧
  ∃ p abs cause,
    p ≠ "" ∧ hasAttachmentPath parsed p ∧ filepath_Abs lib p = (abs, Some cause) ∧
    e = Errorf "cannot resolve path %q: %w" [p] (Some cause).
Proof.
  intros Hparse Hresolve. split.
  - unfold CreateAndStartVM. by rewrite Hparse, Hresolve.
  - apply makePathsAbsolute_error in Hresolve
      as (p & abs & cause & Hne & Hp & Habs & ->).
    exists p, abs, cause. split_and!; try done.
    apply hasAttachmentPath_scsiOf. apply hasAttachmentPath_scsiOf in Hp.
    by rewrite scsiOf_defaultOwner in Hp.
Qed.

Lemma unresolvable_path_aborts_witness :
  let e := Errorf "cannot resolve path %q: %w" [nulPath] (Some EINVAL) in
  CreateAndStartVM (faultyHost noFaults) nulLib keyOrder "nul-path.json" "" false []
    = (Some e, []) ∧
  ∃ p abs cause,
    p ≠ "" ∧ hasAttachmentPath nulPathDisk p ∧
    filepath_Abs nulLib p = (abs, Some cause) ∧
    e = Errorf "cannot resolve path %q: %w" [p] (Some cause).
Proof.
  apply (unresolvable_path_aborts
           (faultyHost noFaults) nulLib keyOrder "nul-path.json" "" false nulPathDisk
           (fst (makePathsAbsolute nulLib keyOrder (defaultOwner nulPathDisk)))).
  - vm_compute. reflexivity.
  - vm_compute. reflexivity.
Defined.

(** * The other commands *)

Section CommandRuns.

Local Open Scope session_scope.

Context (w : System) (enc : Encoding).

Lemma lift_createOperation h :
  let r1 := HcsCreateOperation (hostAfter w h) [] in
  lift w createOperation h =
    (if r1 =? 0
     then (0, Some (Errorf "HcsCreateOperation returned NULL" [] None))
     else (r1, None),
     h ++ [Core (EvCreateOperation r1)]).
Proof. cbv zeta. unfold lift. by rewrite createOperation_run. Qed.

Lemma lift_closeOperation op h :
  op ≠ 0 →
  lift w (λ _, closeOperation op) h = (tt, h ++ [Core (EvCloseOperation op)]).
Proof. intros Hop. unfold lift. by rewrite closeOperation_run. Qed.

Lemma lift_closeComputeSystem sys h :
  lift w (λ _, closeComputeSystem sys) h = (tt, h ++ closeSystemCalls sys).
Proof. unfold lift. by rewrite closeComputeSystem_run. Qed.

Lemma lift_waitForResult op timeoutMs h :
  lift w (λ host, waitForResult host op timeoutMs) h =
    let r := HcsWaitForOperationResult (hostAfter w h) [] op timeoutMs in
    ((default "" (snd r),
      if hrOK (fst r) then None
      else Some (HcsError "HcsWaitForOperationResult" (uint32 (fst r))
                          (default "" (snd r)))),
     h ++ [Core (EvWaitForOperationResult op timeoutMs (fst r) (snd r))]).
Proof. unfold lift. by rewrite waitForResult_run. Qed.

Lemma openComputeSystem_run id h :
  (∃ hr sys, hasNUL id = false ∧ hrOK hr = true ∧
             openComputeSystem w id h =
               ((sys, None), h ++ [EvOpenComputeSystem id GENERIC_ALL hr sys])) ∨
  (∃ failure e, OpenFailure id failure e ∧
                openComputeSystem w id h = ((0, Some e), h ++ failure)).
Proof.
  unfold openComputeSystem, UTF16PtrFromString.
  destruct (hasNUL id) eqn:Hid.
  { right. do 2 eexists. split; [by apply OpenBadID|]. unfold retS.
    by rewrite app_nil_r. }
  unfold bindS, call.
  destruct (HcsOpenComputeSystem w h id GENERIC_ALL) as [hr sys] eqn:Hopen.
  cbn [fst snd]. destruct (hrOK hr) eqn:Hhr.
  - left. by exists hr, sys.
  - right. do 2 eexists. split; [by apply (OpenRejected id hr sys)|done].
Qed.

Lemma shutdownComputeSystem_run sys op h :
  let hr := HcsShutDownComputeSystem w h sys op in
  shutdownComputeSystem w sys op h =
    (if hrOK hr then None
     else Some (HcsError "HcsShutDownComputeSystem" (uint32 hr) ""),
     h ++ [EvShutDownComputeSystem sys op hr]).
Proof.
  cbv zeta. unfold shutdownComputeSystem, bindS, call. by destruct (hrOK _).
Qed.

Lemma lift_terminateComputeSystem sys op h :
  let hr := HcsTerminateComputeSystem (hostAfter w h) [] sys op in
  lift w (λ host, terminateComputeSystem host sys op) h =
    (if hrOK hr then None
     else Some (HcsError "HcsTerminateComputeSystem" (uint32 hr) ""),
     h ++ [terminateCall sys op hr]).
Proof.
  cbv zeta. unfold lift, terminateComputeSystem, bind, ask, ret.
  by destruct (hrOK _).
Qed.

(** The answers of the host, named. *)
Ltac name_answer :=
  match goal with
  | |- context [HcsShutDownComputeSystem ?w ?h ?s ?o] =>
      generalize (HcsShutDownComputeSystem w h s o); intros ?hr
  | |- context [HcsTerminateComputeSystem ?host ?tr ?s ?o] =>
      generalize (HcsTerminateComputeSystem host tr s o); intros ?hr
  | |- context [HcsEnumerateComputeSystems ?w ?h ?o] =>
      generalize (HcsEnumerateComputeSystems w h o); intros ?hr
  | |- context [HcsGetComputeSystemProperties ?w ?h ?s ?o] =>
      generalize (HcsGetComputeSystemProperties w h s o); intros ?hr
  | |- context [HcsWaitForOperationResult ?host ?tr ?o ?t] =>
      generalize (HcsWaitForOperationResult host tr o t); intros [?whr ?doc];
      cbn [fst snd]
  end.

(** After [createOperation] gave [op]: the request, the wait, the close. *)
Ltac run_request Hnz :=
  unfold defer, bindS, call; cbv beta iota zeta;
  rewrite ?shutdownComputeSystem_run, ?lift_terminateComputeSystem;
  cbv beta iota zeta;
  name_answer;
  match goal with
  | |- context [hrOK ?hr] => destruct (hrOK hr) eqn:?
  end;
  [ rewrite lift_waitForResult; unfold retS; cbv beta iota zeta;
    name_answer;
    rewrite (lift_closeOperation _ _ Hnz)
  | unfold retS; cbv beta iota zeta;
    rewrite (lift_closeOperation _ _ Hnz) ].

Lemma enumerateComputeSystems_run h :
  ∃ res evs,
    enumerateComputeSystems w h = (res, h ++ evs) ∧
    RequestRun EvEnumerateComputeSystems "HcsEnumerateComputeSystems" infinite
               res evs.
Proof.
  unfold enumerateComputeSystems. unfold bindS at 1. rewrite lift_createOperation.
  generalize (HcsCreateOperation (hostAfter w h) []). intros op.
  destruct (Z.eqb_spec op 0) as [->|Hnz].
  - do 2 eexists. split; [done|]. constructor.
  - run_request Hnz; do 2 eexists; (split; [by rewrite <- !app_assoc|]).
    + by apply (RequestWaited _ _ _ op).
    + by apply RequestRejected.
Qed.

Lemma getComputeSystemProperties_run sys h :
  ∃ res evs,
    getComputeSystemProperties w sys h = (res, h ++ evs) ∧
    RequestRun (EvGetComputeSystemProperties sys) "HcsGetComputeSystemProperties"
               infinite res evs.
Proof.
  unfold getComputeSystemProperties. unfold bindS at 1. rewrite lift_createOperation.
  generalize (HcsCreateOperation (hostAfter w h) []). intros op.
  destruct (Z.eqb_spec op 0) as [->|Hnz].
  - do 2 eexists. split; [done|]. constructor.
  - run_request Hnz; do 2 eexists; (split; [by rewrite <- !app_assoc|]).
    + by apply (RequestWaited _ _ _ op).
    + by apply RequestRejected.
Qed.

(** [StopVM] and [KillVM] after [openComputeSystem] gave [sys]. *)
Ltac run_control hr sys op :=
  unfold defer at 1; unfold bindS at 1; unfold bindS at 1;
  rewrite lift_createOperation;
  match goal with
  | |- context [HcsCreateOperation ?host ?tr] =>
      generalize (HcsCreateOperation host tr); intros op
  end;
  destruct (Z.eqb_spec op 0) as [->|Hnz];
  [ unfold retS at 1; unfold bindS;
    rewrite lift_closeComputeSystem; unfold retS;
    do 2 eexists; (split; [by rewrite <- !app_assoc|]);
    eapply (ControlOpened _ _ _ _ hr sys); [done..|]; constructor
  | run_request Hnz; rewrite lift_closeComputeSystem;
    do 2 eexists; (split; [by rewrite <- !app_assoc|]) ].

Lemma StopVM_run id timeoutMs h :
  ∃ res evs,
    StopVM w id timeoutMs h = (res, h ++ evs) ∧
    ControlRun id EvShutDownComputeSystem "HcsShutDownComputeSystem" timeoutMs
               res evs.
Proof.
  unfold StopVM. unfold bindS at 1.
  destruct (openComputeSystem_run id h)
    as [(hr & sys & Hid & Hhr & ->)|(failure & e & Hfail & ->)].
  2: { do 2 eexists. split; [done|]. by constructor. }
  run_control hr sys op.
  - eapply (ControlOpened id _ _ _ hr sys _ _
              [Core (EvCreateOperation op); EvShutDownComputeSystem sys op _;
               Core (EvWaitForOperationResult op timeoutMs _ _);
               Core (EvCloseOperation op)]); [done..|].
    by apply (RequestWaited _ _ _ op).
  - eapply (ControlOpened id _ _ _ hr sys _ _
              [Core (EvCreateOperation op); EvShutDownComputeSystem sys op _;
               Core (EvCloseOperation op)]); [done..|].
    by apply RequestRejected.
Qed.

Lemma KillVM_run id h :
  ∃ res evs,
    KillVM w id h = (res, h ++ evs) ∧
    ControlRun id terminateCall "HcsTerminateComputeSystem" 10000 res evs.
Proof.
  unfold KillVM. unfold bindS at 1.
  destruct (openComputeSystem_run id h)
    as [(hr & sys & Hid & Hhr & ->)|(failure & e & Hfail & ->)].
  2: { do 2 eexists. split; [done|]. by constructor. }
  run_control hr sys op.
  - eapply (ControlOpened id _ _ _ hr sys _ _
              [Core (EvCreateOperation op); terminateCall sys op _;
               Core (EvWaitForOperationResult op 10000 _ _);
               Core (EvCloseOperation op)]); [done..|].
    by apply (RequestWaited _ _ _ op).
  - eapply (ControlOpened id _ _ _ hr sys _ _
              [Core (EvCreateOperation op); terminateCall sys op _;
               Core (EvCloseOperation op)]); [done..|].
    by apply RequestRejected.
Qed.

Lemma InspectVM_run id h :
  ∃ res evs, InspectVM w enc id h = (res, h ++ evs) ∧ InspectRun enc id res evs.
Proof.
  unfold InspectVM. unfold bindS at 1.
  destruct (openComputeSystem_run id h)
    as [(hr & sys & Hid & Hhr & ->)|(failure & e & Hfail & ->)].
  2: { do 2 eexists. split; [done|]. by constructor. }
  unfold defer, bindS.
  destruct (getComputeSystemProperties_run sys
              (h ++ [EvOpenComputeSystem id GENERIC_ALL hr sys]))
    as ([propsJSON [e|]] & evs & -> & Hreq).
  - unfold retS at 1. rewrite lift_closeComputeSystem. unfold retS.
    do 2 eexists. split; [by rewrite <- !app_assoc|].
    by eapply (InspectNoProperties enc id hr sys).
  - destruct (json_UnmarshalRaw enc propsJSON) as [raw [e|]] eqn:Hraw;
      [|destruct (json_MarshalIndentRaw enc raw) as [pretty [e|]] eqn:Hpretty];
      unfold Println, bindS, write, retS; rewrite lift_closeComputeSystem;
      do 2 eexists; (split; [by rewrite <- !app_assoc|]);
      eapply (InspectPrinted enc id hr sys); try done;
      first [by left|right; by exists raw].
Qed.

Lemma ListVMs_run h :
  ∃ res evs, ListVMs w enc h = (res, h ++ evs) ∧ ListRun enc res evs.
Proof.
  unfold ListVMs, bindS.
  destruct (enumerateComputeSystems_run h) as ([resultJSON [e|]] & evs & -> & Hreq).
  { do 2 eexists. split; [done|]. by eapply ListNotEnumerated. }
  destruct (String.eqb_spec resultJSON "") as [Hempty|Hne].
  { cbn [orb]. unfold Println, write, retS. do 2 eexists.
    split; [by rewrite <- !app_assoc|]. eapply ListNone; [done|by left]. }
  destruct (String.eqb_spec resultJSON "[]") as [Hnone|Hne'].
  { cbn [orb]. unfold Println, write, retS. do 2 eexists.
    split; [by rewrite <- !app_assoc|]. eapply ListNone; [done|by right]. }
  cbn [orb].
  destruct (json_UnmarshalEntries enc resultJSON) as [entries [e|]] eqn:Hparse.
  - do 2 eexists. split; [done|]. by eapply ListUnparsed.
  - unfold write, retS. do 2 eexists. split; [by rewrite <- !app_assoc|].
    by eapply ListTable.
Qed.

End CommandRuns.

(** * Handles in the other commands *)

Section CommandFacts.

Context (w : System) (enc : Encoding).

Lemma sessionOperations_app (a b : History) open :
  sessionOperations (a ++ b) open = sessionOperations a open ≫= sessionOperations b.
Proof.
  revert open. induction a as [|c a IH]; intros open; [done|].
  cbn [app sessionOperations].
  destruct (match callOperationUsed c with
            | Some op => bool_decide (op ∈ open)
            | None => true
            end); [|done].
  destruct c as [[r1|op| | | | | | | | | | |]| | | | | | | | | |]; try apply IH.
  destruct (removeFirst op open); [apply IH|done].
Qed.

Lemma sessionSystem_app (a b : History) st :
  sessionSystem (a ++ b) st = sessionSystem a st ≫= sessionSystem b.
Proof.
  revert st. induction a as [|c a IH]; intros st; [done|].
  cbn [app sessionSystem]. destruct (sessionSystemStep st c); [apply IH|done].
Qed.

Lemma closeSystemCalls_operations sys open :
  sessionOperations (closeSystemCalls sys) open = Some open.
Proof. unfold closeSystemCalls, closeSystemEvents. by destruct (sys =? 0). Qed.

Lemma closeSystemCalls_system sys :
  sessionSystem (closeSystemCalls sys) (Held sys) = Some (afterClose sys).
Proof.
  unfold closeSystemCalls, closeSystemEvents, afterClose.
  destruct (sys =? 0) eqn:Hsys; [done|].
  cbn [fmap list_fmap sessionSystem sessionSystemStep systemStep holds].
  by rewrite Z.eqb_refl.
Qed.

Lemma noSystemLeft_afterClose sys : noSystemLeft (afterClose sys).
Proof. unfold afterClose. destruct (Z.eqb_spec sys 0); done. Qed.

Lemma sessionOperations_create op rest open :
  op ≠ 0 →
  sessionOperations (Core (EvCreateOperation op) :: rest) open =
    sessionOperations rest (op :: open).
Proof.
  intros Hop. cbn [sessionOperations callOperationUsed operationUsed].
  by rewrite (proj2 (Z.eqb_neq op 0) Hop).
Qed.

Lemma sessionOperations_close op rest open :
  sessionOperations (Core (EvCloseOperation op) :: rest) (op :: open) =
    sessionOperations rest open.
Proof.
  cbn [sessionOperations callOperationUsed operationUsed removeFirst].
  by rewrite Z.eqb_refl.
Qed.

Lemma sessionOperations_wait op timeoutMs whr doc rest open :
  sessionOperations (Core (EvWaitForOperationResult op timeoutMs whr doc) :: rest)
                    (op :: open) =
    sessionOperations rest (op :: open).
Proof.
  cbn [sessionOperations callOperationUsed operationUsed].
  by rewrite bool_decide_eq_true_2 by apply list_elem_of_here.
Qed.

Lemma sessionOperations_request request op hr rest open :
  isRequest request →
  sessionOperations (request op hr :: rest) (op :: open) =
    sessionOperations rest (op :: open).
Proof.
  intros Hreq. destruct (Hreq op hr) as [Hused Hcore].
  cbn [sessionOperations]. rewrite Hused.
  rewrite bool_decide_eq_true_2 by apply list_elem_of_here.
  destruct (request op hr) as [e| | | | | | | | | |]; try done.
  destruct (Hcore e eq_refl) as [Hcreate Hclose]. by destruct e.
Qed.

Lemma RequestRun_operations request opName timeoutMs res evs open :
  isRequest request →
  RequestRun request opName timeoutMs res evs →
  sessionOperations evs open = Some open.
Proof.
  intros Hreq [|op hr Hop Hhr|op hr whr doc Hop Hhr]; [done| |].
  - by rewrite sessionOperations_create, sessionOperations_request,
      sessionOperations_close.
  - by rewrite sessionOperations_create, sessionOperations_request,
      sessionOperations_wait, sessionOperations_close.
Qed.

Lemma RequestRun_system request opName timeoutMs res evs st :
  (∀ op hr, sessionSystemStep st (request op hr) = Some st) →
  RequestRun request opName timeoutMs res evs →
  sessionSystem evs st = Some st.
Proof.
  intros Hreq [|op hr Hop Hhr|op hr whr doc Hop Hhr];
    cbn [sessionSystem sessionSystemStep systemStep]; by rewrite ?Hreq.
Qed.

Lemma isRequest_shutdown sys : isRequest (EvShutDownComputeSystem sys).
Proof. by intros op hr. Qed.

Lemma isRequest_terminate sys : isRequest (terminateCall sys).
Proof. intros op hr. split; [done|]. by intros e [= <-]. Qed.

Lemma isRequest_enumerate : isRequest EvEnumerateComputeSystems.
Proof. by intros op hr. Qed.

Lemma isRequest_properties sys : isRequest (EvGetComputeSystemProperties sys).
Proof. by intros op hr. Qed.

Lemma OpenFailure_operations id failure e open :
  OpenFailure id failure e → sessionOperations failure open = Some open.
Proof. by intros []. Qed.

Lemma OpenFailure_system id failure e :
  OpenFailure id failure e → sessionSystem failure NoSystem = Some NoSystem.
Proof.
  intros [|hr sys _ Hhr]; [done|].
  cbn [sessionSystem sessionSystemStep]. by rewrite Hhr.
Qed.

Lemma sessionOperations_open id access hr sys rest open :
  sessionOperations (EvOpenComputeSystem id access hr sys :: rest) open =
    sessionOperations rest open.
Proof. reflexivity. Qed.

Lemma sessionSystem_open id access hr sys rest :
  hrOK hr = true →
  sessionSystem (EvOpenComputeSystem id access hr sys :: rest) NoSystem =
    sessionSystem rest (Held sys).
Proof. intros Hhr. cbn [sessionSystem sessionSystemStep]. by rewrite Hhr. Qed.

Lemma ControlRun_handles id request opName timeoutMs res evs :
  (∀ sys, isRequest (request sys)) →
  (∀ sys op hr, sessionSystemStep (Held sys) (request sys op hr) = Some (Held sys)) →
  ControlRun id request opName timeoutMs res evs →
  sessionOperations evs [] = Some [] ∧
  ∃ st, sessionSystem evs NoSystem = Some st ∧ noSystemLeft st.
Proof.
  intros Hreq Hsys [failure e Hfail|hr sys doc res' evs' Hid Hhr Hrun].
  - split; [by eapply OpenFailure_operations|].
    exists NoSystem. split; [by eapply OpenFailure_system|done].
  - cbn [app]. split.
    + rewrite sessionOperations_open, sessionOperations_app.
      rewrite (RequestRun_operations _ _ _ _ _ [] (Hreq sys) Hrun).
      apply closeSystemCalls_operations.
    + exists (afterClose sys). split; [|apply noSystemLeft_afterClose].
      rewrite sessionSystem_open, sessionSystem_app by done.
      rewrite (RequestRun_system _ _ _ _ _ (Held sys) (Hsys sys) Hrun).
      apply closeSystemCalls_system.
Qed.

End CommandFacts.

(** * What the other commands do *)

Section CommandTheorems.

Context (w : System) (enc : Encoding).

(** The two forms of the release of a compute-system handle. *)
Ltac release sys :=
  unfold closeSystemCalls, closeSystemEvents; destruct (sys =? 0);
  cbn [fmap list_fmap app].

Ltac no_wait := by intros ???? ?%elem_of_nil.

(** X11. [StopVM], whatever the service answers: every operation handle is
    used while open and closed at the end; at most one compute system is
    opened, it is used while held and released at the end; no terminate
    request is ever made; at most one shutdown request is made; every wait
    uses the timeout given; and the result is nil only when the service
    accepted the shutdown request and the wait on it succeeded. *)
Theorem StopVM_shuts_down_and_releases id timeoutMs :
  let run := StopVM w id timeoutMs [] in
  sessionOperations (snd run) [] = Some [] ∧
  (∃ st, sessionSystem (snd run) NoSystem = Some st ∧ noSystemLeft st) ∧
  terminations (coreTrace (snd run)) = [] ∧
  (length (shutdowns (snd run)) ≤ 1)%nat ∧
  (∀ op t whr doc, (op, t, whr, doc) ∈ sessionWaits (snd run) → t = timeoutMs) ∧
  (fst run = None →
   ∃ sys op hr whr doc,
     shutdowns (snd run) = [(sys, op, hr)] ∧ hrOK hr = true ∧
     sessionWaits (snd run) = [(op, timeoutMs, whr, doc)] ∧ hrOK whr = true).
Proof.
  cbv zeta. destruct (StopVM_run w id timeoutMs []) as (res & evs & -> & Hrun).
  cbn [fst snd app].
  destruct (ControlRun_handles id _ _ _ _ _ isRequest_shutdown
              (λ sys op hr, ltac:(cbn; by rewrite Z.eqb_refl)) Hrun) as [Hops Hsys].
  split; [done|]. split; [done|]. clear Hops Hsys.
  destruct Hrun as [failure e [Hid|hr sys Hid Hhr]
                   |hr sys doc res' evs' Hid Hhr Hreq].
  - split_and!; try done; [cbv; lia|no_wait].
  - split_and!; try done; [cbv; lia|no_wait].
  - inversion Hreq as [|op rhr Hop Hrhr|op rhr whr wdoc Hop Hrhr]; subst;
      release sys; (split_and!; [done|cbv; lia| |]); try no_wait; try done.
    all: try by intros ???? [= _ -> _ _]%list_elem_of_singleton.
    all: intros Hres; exists sys, op, rhr, whr, wdoc; split_and!; try done;
      by destruct (hrOK whr).
Qed.


(** X12. [KillVM], whatever the service answers: handles are used while
    held and released at the end; no shutdown request is ever made; at most
    one terminate request is made, on the compute system that was opened;
    every wait is bounded by ten seconds; and the result is nil only when
    the service accepted the terminate request and the wait on it
    succeeded. *)
Theorem KillVM_terminates_and_releases id :
  let run := KillVM w id [] in
  sessionOperations (snd run) [] = Some [] ∧
  (∃ st, sessionSystem (snd run) NoSystem = Some st ∧ noSystemLeft st) ∧
  shutdowns (snd run) = [] ∧
  (length (terminations (coreTrace (snd run))) ≤ 1)%nat ∧
  (∀ op t whr doc, (op, t, whr, doc) ∈ sessionWaits (snd run) → t = 10000) ∧
  (fst run = None →
   ∃ sys op hr whr doc,
     terminations (coreTrace (snd run)) = [(sys, op, hr)] ∧ hrOK hr = true ∧
     sessionWaits (snd run) = [(op, 10000, whr, doc)] ∧ hrOK whr = true).
Proof.
  cbv zeta. destruct (KillVM_run w id []) as (res & evs & -> & Hrun).
  cbn [fst snd app].
  destruct (ControlRun_handles id _ _ _ _ _ isRequest_terminate
              (λ sys op hr, ltac:(cbn; by rewrite Z.eqb_refl)) Hrun) as [Hops Hsys].
  split; [done|]. split; [done|]. clear Hops Hsys.
  destruct Hrun as [failure e [Hid|hr sys Hid Hhr]
                   |hr sys doc res' evs' Hid Hhr Hreq].
  - split_and!; try done; [cbv; lia|no_wait].
  - split_and!; try done; [cbv; lia|no_wait].
  - inversion Hreq as [|op rhr Hop Hrhr|op rhr whr wdoc Hop Hrhr]; subst;
      release sys; (split_and!; [done|cbv; lia| |]); try no_wait; try done.
    all: try by intros ???? [= _ -> _ _]%list_elem_of_singleton.
    all: intros Hres; exists sys, op, rhr, whr, wdoc; split_and!; try done;
      by destruct (hrOK whr).
Qed.

Lemma properties_held sys op hr :
  sessionSystemStep (Held sys) (EvGetComputeSystemProperties sys op hr) =
    Some (Held sys).
Proof. cbn. by rewrite Z.eqb_refl. Qed.

Lemma InspectRun_handles id res evs :
  InspectRun enc id res evs →
  sessionOperations evs [] = Some [] ∧
  ∃ st, sessionSystem evs NoSystem = Some st ∧ noSystemLeft st.
Proof.
  intros [failure e Hfail|hr sys doc e evs' Hid Hhr Hrun
         |hr sys propsJSON evs' text Hid Hhr Hrun Htext].
  - split; [by eapply OpenFailure_operations|].
    exists NoSystem. split; [by eapply OpenFailure_system|done].
  - cbn [app]. split.
    + rewrite sessionOperations_open, sessionOperations_app.
      rewrite (RequestRun_operations _ _ _ _ _ [] (isRequest_properties sys) Hrun).
      apply closeSystemCalls_operations.
    + exists (afterClose sys). split; [|apply noSystemLeft_afterClose].
      rewrite sessionSystem_open, sessionSystem_app by done.
      rewrite (RequestRun_system _ _ _ _ _ (Held sys) (properties_held sys) Hrun).
      apply closeSystemCalls_system.
  - cbn [app]. split.
    + rewrite sessionOperations_open, sessionOperations_app.
      rewrite (RequestRun_operations _ _ _ _ _ [] (isRequest_properties sys) Hrun).
      apply closeSystemCalls_operations.
    + exists (afterClose sys). split; [|apply noSystemLeft_afterClose].
      rewrite sessionSystem_open, sessionSystem_app by done.
      rewrite (RequestRun_system _ _ _ _ _ (Held sys) (properties_held sys) Hrun).
      apply closeSystemCalls_system.
Qed.

(** X13. [InspectVM], whatever the service answers: handles are used while
    held and released at the end; it neither shuts down nor terminates the
    compute system; when it fails it writes nothing on standard output; when
    it succeeds it writes one line there, the properties as the service
    returned them or their re-indented form. *)
Theorem InspectVM_prints_properties id :
  let run := InspectVM w enc id [] in
  sessionOperations (snd run) [] = Some [] ∧
  (∃ st, sessionSystem (snd run) NoSystem = Some st ∧ noSystemLeft st) ∧
  shutdowns (snd run) = [] ∧ terminations (coreTrace (snd run)) = [] ∧
  match fst run with
  | Some _ => sessionStdout (snd run) = []
  | None =>
    ∃ op whr propsJSON text,
      sessionWaits (snd run) = [(op, infinite, whr, propsJSON)] ∧ hrOK whr = true ∧
      sessionStdout (snd run) = [text] ∧
      (text = default "" propsJSON ∨
       ∃ raw, json_UnmarshalRaw enc (default "" propsJSON) = (raw, None) ∧
              json_MarshalIndentRaw enc raw = (text, None))
  end.
Proof.
  cbv zeta. destruct (InspectVM_run w enc id []) as (res & evs & -> & Hrun).
  cbn [fst snd app].
  destruct (InspectRun_handles id res evs Hrun) as [Hops Hsys].
  split; [done|]. split; [done|]. clear Hops Hsys.
  destruct Hrun as [failure e [Hid|hr sys Hid Hhr]
                   |hr sys doc e evs' Hid Hhr Hreq
                   |hr sys propsJSON evs' text Hid Hhr Hreq Htext]; try done.
  - inversion Hreq as [|op rhr Hop Hrhr|op rhr whr wdoc Hop Hrhr]; subst;
      release sys; by split_and!.
  - inversion Hreq as [|op rhr Hop Hrhr|op rhr whr wdoc Hop Hrhr Hdoc Hres]; subst.
    destruct (hrOK whr) eqn:Hwhr; [|done].
    release sys; (split_and!; [done|done|]);
      exists op, whr, wdoc, text; by split_and!.
Qed.


Lemma ListRun_handles res evs :
  ListRun enc res evs →
  sessionOperations evs [] = Some [] ∧ sessionSystem evs NoSystem = Some NoSystem.
Proof.
  assert (∀ res evs,
            RequestRun EvEnumerateComputeSystems "HcsEnumerateComputeSystems"
                       infinite res evs →
            sessionOperations evs [] = Some [] ∧
            sessionSystem evs NoSystem = Some NoSystem) as Hreq.
  { intros res' evs' Hrun. split.
    - by apply (RequestRun_operations _ _ _ _ _ [] isRequest_enumerate Hrun).
    - by apply (RequestRun_system EvEnumerateComputeSystems _ _ _ _ NoSystem
                  (λ op hr, eq_refl) Hrun). }
  intros [doc e evs' Hrun|resultJSON evs' Hrun Hnone
         |resultJSON evs' entries e Hrun Hne Hne' Hparse
         |resultJSON evs' entries Hrun Hne Hne' Hparse];
    destruct (Hreq _ _ Hrun) as [Hops Hsys]; try done.
  - by rewrite sessionOperations_app, sessionSystem_app, Hops, Hsys.
  - by rewrite sessionOperations_app, sessionSystem_app, Hops, Hsys.
Qed.

(** X14. [ListVMs], whatever the service answers: the operation handle is
    used while open and closed at the end, and no compute system is opened.
    When it fails it writes neither a line nor a table.  When it succeeds it
    has waited once, without a timeout, and on an empty answer or an empty
    list it writes that no compute systems were found, otherwise a table with
    the header and one row for each entry parsed from the answer. *)
Theorem ListVMs_prints_table :
  let run := ListVMs w enc [] in
  sessionOperations (snd run) [] = Some [] ∧
  sessionSystem (snd run) NoSystem = Some NoSystem ∧
  match fst run with
  | Some _ => sessionStdout (snd run) = [] ∧ tables (snd run) = []
  | None =>
    ∃ op whr doc,
      sessionWaits (snd run) = [(op, infinite, whr, doc)] ∧ hrOK whr = true ∧
      if String.eqb (default "" doc) "" || String.eqb (default "" doc) "[]"
      then sessionStdout (snd run) = ["No compute systems found."] ∧
           tables (snd run) = []
      else ∃ entries,
             json_UnmarshalEntries enc (default "" doc) = (entries, None) ∧
             sessionStdout (snd run) = [] ∧ tables (snd run) = [tableText entries]
  end.
Proof.
  cbv zeta. destruct (ListVMs_run w enc []) as (res & evs & -> & Hrun).
  cbn [fst snd app].
  destruct (ListRun_handles res evs Hrun) as [Hops Hsys].
  split; [done|]. split; [done|]. clear Hops Hsys.
  destruct Hrun as [doc e evs' Hreq|resultJSON evs' Hreq Hnone
                   |resultJSON evs' entries e Hreq Hne Hne' Hparse
                   |resultJSON evs' entries Hreq Hne Hne' Hparse].
  - by inversion Hreq.
  - inversion Hreq as [|op rhr Hop Hrhr|op rhr whr wdoc Hop Hrhr Hdoc Hres]; subst.
    destruct (hrOK whr) eqn:Hwhr; [|done].
    exists op, whr, wdoc. split_and!; [done..|].
    by destruct Hnone as [->| ->].
  - by inversion Hreq.
  - inversion Hreq as [|op rhr Hop Hrhr|op rhr whr wdoc Hop Hrhr Hdoc Hres]; subst.
    destruct (hrOK whr) eqn:Hwhr; [|done].
    exists op, whr, wdoc. split_and!; [done..|].
    destruct (String.eqb_spec (default "" wdoc) ""); [done|].
    destruct (String.eqb_spec (default "" wdoc) "[]"); [done|].
    by exists entries.
Qed.

(** [uint32(int(x))] keeps [x] modulo 2^32. *)
Lemma uint32_int x : uint32 (int x) = x mod 2 ^ 32.
Proof.
  unfold uint32, int.
  rewrite (Z.mod_eq (x + 2 ^ 63) (2 ^ 64)) by lia.
  replace (x + 2 ^ 63 - 2 ^ 64 * ((x + 2 ^ 63) / 2 ^ 64) - 2 ^ 63)
    with (x + (- (2 ^ 32 * ((x + 2 ^ 63) / 2 ^ 64))) * 2 ^ 32) by lia.
  apply Z_mod_plus_full.
Qed.

Lemma shutdown_timeout_bounded timeout :
  let t := uint32 (int (timeout * 1000)) in
  t = (timeout * 1000) mod 2 ^ 32 ∧ t ≠ infinite ∧
  (0 ≤ timeout ≤ 4294967 → t = timeout * 1000).
Proof.
  cbv zeta. rewrite uint32_int. split_and!; [done| |].
  - rewrite Z.mod_eq by lia. generalize (timeout * 1000 / 2 ^ 32). intros q.
    unfold infinite. lia.
  - intros Hrange. apply Z.mod_small. lia.
Qed.


End CommandTheorems.

(** * Quick-create mode *)

Lemma range_singleton order (A : Type) (k : string) (v : A) :
  range order ({[ k := v ]} : gmap string A) = [(k, v)].
Proof.
  apply Permutation_singleton_r.
  by rewrite (range_perm order A {[ k := v ]}), map_to_list_singleton.
Qed.

Lemma extractVHDPaths_minimalSpec order absPath memoryMB cpuCount :
  extractVHDPaths order (minimalSpec absPath memoryMB cpuCount) =
    if String.eqb absPath "" then [] else [absPath].
Proof.
  unfold extractVHDPaths, minimalSpec, controllerPaths, attachmentPaths.
  cbn [VirtualMachine Devices Scsi]. rewrite range_singleton.
  cbn [flat_map snd Attachments]. rewrite range_singleton.
  cbn [flat_map snd Path]. destruct (String.eqb absPath ""); by rewrite ?app_nil_r.
Qed.

Section QuickCreate.

Context (w : System) (enc : Encoding) (lib : Library) (order : RangeOrder).

(** X16. When [buildMinimalSpec] returns a document, the VHDX path was
    resolved and [os.Stat] found the file before anything was built; the
    document is the indented form of a spec owned by hcstool whose only SCSI
    path is the resolved path and whose virtual-PCI devices are the GPUs
    given, keyed by position; nothing else was called. *)
Theorem buildMinimalSpec_checks_file vhdx memory cpus gpus h data h' :
  buildMinimalSpec w enc lib vhdx memory cpus gpus h = ((data, None), h') →
  ∃ absPath spec,
    filepath_Abs lib vhdx = (absPath, None) ∧
    os_Stat w h absPath = None ∧ h' = h ++ [EvStat absPath None] ∧
    json_MarshalIndent enc spec = (data, None) ∧
    Owner spec = "hcstool" ∧
    extractVHDPaths order spec = (if String.eqb absPath "" then [] else [absPath]) ∧
    virtualPciOf spec = injectLoop 0 gpus ∅.
Proof.
  unfold buildMinimalSpec, bindS, call, retS.
  destruct (filepath_Abs lib vhdx) as [absPath [e|]] eqn:Habs; [done|].
  destruct (os_Stat w h absPath) as [e|] eqn:Hstat; [done|].
  set (spec := if (0 <? length gpus)%nat
               then injectGPU (minimalSpec absPath memory cpus) gpus
               else minimalSpec absPath memory cpus).
  destruct (json_MarshalIndent enc spec) as [text [e|]] eqn:Hmarshal; [done|].
  intros [= -> <-]. exists absPath, spec. split_and!; try done.
  - unfold spec. by destruct (0 <? length gpus)%nat.
  - unfold spec. destruct (0 <? length gpus)%nat;
      rewrite ?extractVHDPaths_injectGPU; apply extractVHDPaths_minimalSpec.
  - unfold spec. destruct gpus as [|g gpus]; [done|]. reflexivity.
Qed.

End QuickCreate.

Lemma buildMinimalSpec_checks_file_witness :
  ∃ absPath spec,
    filepath_Abs exampleLib "boot.vhdx" = (absPath, None) ∧
    os_Stat exampleSystem [] absPath = None ∧
    [EvStat "C:\work\boot.vhdx" None] = [] ++ [EvStat absPath None] ∧
    json_MarshalIndent exampleEncoding spec =
      ("{Owner:hcstool,Scsi:[C:\work\boot.vhdx;]}", None) ∧
    Owner spec = "hcstool" ∧
    extractVHDPaths keyOrder spec = (if String.eqb absPath "" then [] else [absPath]) ∧
    virtualPciOf spec = injectLoop 0 [] ∅.
Proof.
  apply (buildMinimalSpec_checks_file exampleSystem exampleEncoding exampleLib keyOrder
           "boot.vhdx" 2048 2 [] []).
  vm_compute. reflexivity.
Defined.

(** * The create command *)

Section CreateCommand.

Local Open Scope session_scope.

Context (w : System) (enc : Encoding) (lib : Library) (order : RangeOrder).

Lemma quiet_app a b : quiet a → quiet b → quiet (a ++ b).
Proof. apply Forall_app_2. Qed.

Lemma quiet_log gpus :
  quiet (Core <$> map (λ g, EvStderr "  %s (%s)\n" [Name g; InstanceID g]) gpus).
Proof. induction gpus as [|g gpus IH]; by constructor. Qed.

Lemma buildMinimalSpec_quiet vhdx memory cpus gpus h :
  ∃ evs, snd (buildMinimalSpec w enc lib vhdx memory cpus gpus h) = h ++ evs ∧
         quiet evs ∧ discovered (coreTrace evs) = [].
Proof.
  unfold buildMinimalSpec, bindS, call, retS.
  destruct (filepath_Abs lib vhdx) as [absPath [e|]].
  { exists []. rewrite app_nil_r. split_and!; [done|constructor|done]. }
  exists [EvStat absPath (os_Stat w h absPath)].
  split_and!; [|by repeat constructor|done].
  destruct (os_Stat w h absPath); [done|].
  by destruct (json_MarshalIndent enc _) as [? [?|]].
Qed.

Lemma buildSpecFromFlags_quiet vhdx memory cpus addGPU h :
  ∃ evs, snd (buildSpecFromFlags w enc lib vhdx memory cpus addGPU h) = h ++ evs ∧
         quiet evs ∧ (length (discovered (coreTrace evs)) ≤ 1)%nat.
Proof.
  unfold buildSpecFromFlags. destruct addGPU.
  2: { destruct (buildMinimalSpec_quiet vhdx memory cpus [] h) as (evs & -> & Hq & Hd).
       exists evs. rewrite Hd. split_and!; [done..|simpl; lia]. }
  unfold bindS at 1. unfold lift at 1, enumerateGPUs, ask.
  destruct (SetupDiDisplayAdapters (hostAfter w h) []) as [gpus [e|]] eqn:Hgpus;
    cbn [fst snd fmap list_fmap].
  { exists [Core (EvEnumerateGPUs gpus (Some e))].
    split_and!; [done|by repeat constructor|simpl; lia]. }
  destruct (length gpus =? 0)%nat.
  { exists [Core (EvEnumerateGPUs gpus None)].
    split_and!; [done|by repeat constructor|simpl; lia]. }
  unfold bindS, lift, bind, emit. rewrite logGPUs_run. cbn [app].
  match goal with
  | |- context [buildMinimalSpec w enc lib vhdx memory cpus gpus ?h'] =>
      destruct (buildMinimalSpec_quiet vhdx memory cpus gpus h') as (evs & Heq & Hq & Hd);
      destruct (buildMinimalSpec w enc lib vhdx memory cpus gpus h') as [r h'']
  end.
  cbn [snd] in *. subst h''.
  exists ([Core (EvEnumerateGPUs gpus None)]
          ++ (Core <$> (EvStderr "Found %d GPU(s) for GPU-PV:\n" [pretty (length gpus)]
                        :: map (λ g, EvStderr "  %s (%s)\n" [Name g; InstanceID g]) gpus))
          ++ evs).
  split_and!.
  - by rewrite <- !app_assoc.
  - apply quiet_app; [by repeat constructor|]. apply quiet_app; [|done].
    rewrite fmap_cons. constructor; [done|apply quiet_log].
  - rewrite !omap_app, Hd, app_nil_r. cbn [omap list_omap coreOf app length].
    rewrite fmap_cons. cbn [omap list_omap coreOf discoveredOf].
    assert (discovered (coreTrace (Core <$> map (λ g, EvStderr "  %s (%s)\n"
                                                       [Name g; InstanceID g]) gpus)) = [])
      as ->; [|simpl; lia].
    clear. induction gpus as [|g gpus IH]; [done|]. by cbn.
Qed.


Lemma coreTrace_Core (tr : Trace) : coreTrace (Core <$> tr) = tr.
Proof. induction tr as [|e tr IH]; [done|]. cbn. by rewrite IH. Qed.

Lemma readSpecFile_quiet path h :
  ∃ evs, snd (readSpecFile w enc path h) = h ++ evs ∧ quiet evs ∧ coreTrace evs = [].
Proof.
  unfold readSpecFile, bindS, call, retS.
  destruct (os_ReadFile w h path) as [data [e|]] eqn:Hread; cbn [fst snd].
  - exists [EvReadFile path data (Some e)]. split_and!; [done|by repeat constructor|done].
  - exists [EvReadFile path data None]. split_and!; [|by repeat constructor|done].
    by destruct (json_UnmarshalRaw enc data) as [? [?|]].
Qed.

Lemma printSpec_quiet specJSON h :
  ∃ text, printSpec enc specJSON h = (tt, h ++ [EvStderrln text]).
Proof.
  unfold printSpec, write.
  destruct (json_UnmarshalRaw enc specJSON) as [raw [e|]]; [by eexists|].
  destruct (json_MarshalIndentRaw enc raw) as [pretty [e|]]; by eexists.
Qed.

(** A transaction that was not asked for GPUs does not look for them. *)
Lemma TransactionRun_no_discovery specJSON name res evs :
  TransactionRun lib order specJSON name false res evs → discovered evs = [].
Proof.
  intros Hshape.
  destruct Hshape
    as [| | | |spec' final pre text e' _ Hinj _
       |spec' final pre finalJSON guid e' _ Hinj _
       |spec final pre finalJSON guid res' rest Hspec Hinj _ Hgrant];
    try done; destruct Hinj as [_|gpus ? _]; try done; observe; try done.
  destruct Hgrant as [K' p hrs failure e' rhrs Hp HK' Hok Hfail Hrhrs
                     |hrs res2 rest' Hlen Hok HG Hcreate]; observe; try done.
Qed.



End CreateCommand.
